(** * Lobby backend: a shallow embedding of [backend/src/index.ts]

    The server is an event-driven program: three HTTP routes and three
    socket events, all mutating four process-wide [Map]s and one SQLite
    table.  Handlers are embedded as computations in a state-and-exception
    monad over a [World] that holds the server memory, the database, the
    outputs produced so far and the readings the environment will supply
    ([Date.now()], [Math.random()], the outcome of each disk write).
    The last part of the definitions embeds what the mobile client
    ([mobile/App.tsx]) sends to those handlers. *)

From Stdlib Require Import ZArith QArith Qround Lia.
From Stdlib Require Import Sorting.Sorted Sorting.Permutation.
From stdpp Require Import gmap strings list sorting.

Close Scope Q_scope.
Local Open Scope Z_scope.
Local Open Scope list_scope.

(** ** Values received from clients *)

#[local] Set Warnings "-register-all".

(** Request bodies and socket payloads are untyped ([unknown]) on arrival.
    Strings stand for JavaScript strings, one character per code unit, and
    [String.length] for [.length]. *)
Inductive Json : Type :=
| JUndefined
| JNull
| JBool (b : bool)
| JNumber (n : Z)
| JString (s : string)
| JArray (items : list Json)
| JObject (props : list (string * Json)).

(** [o[key]] on a plain object: [undefined] when the key is absent. *)
Fixpoint prop (props : list (string * Json)) (key : string) : Json :=
  match props with
  | [] => JUndefined
  | (k, v) :: rest => if String.eqb k key then v else prop rest key
  end.

(** ** Schemas (zod) *)

Module z.

(** [z.string()] *)
Definition string (v : Json) : option String.string :=
  match v with
  | JString s => Some s
  | _ => None
  end.

(** [z.string().min(lo).max(hi)] *)
Definition string_min_max (lo hi : nat) (v : Json) : option String.string :=
  match v with
  | JString s =>
      if ((lo <=? String.length s)%nat && (String.length s <=? hi)%nat)%bool
      then Some s else None
  | _ => None
  end.

(** [.optional()]: [undefined] is accepted and stays [undefined]. *)
Definition optional {A : Type} (schema : Json -> option A) (v : Json)
  : option (option A) :=
  match v with
  | JUndefined => Some None
  | _ => match schema v with
         | Some a => Some (Some a)
         | None => None
         end
  end.

End z.

Record CreateLobbyInput : Type := {
  cl_nickname : string;
  cl_openaiApiKey : option string
}.

Record JoinLobbyInput : Type := {
  jl_code : string;
  jl_nickname : string
}.

Record MessageInput : Type := {
  mi_code : string;
  mi_nickname : string;
  mi_content : string
}.

(** [createLobbySchema.safeParse]: [None] is [success: false]. *)
Definition createLobbySchema (body : Json) : option CreateLobbyInput :=
  match body with
  | JObject o =>
      match z.string_min_max 1 32 (prop o "nickname"),
            z.optional (z.string_min_max 1 200) (prop o "openaiApiKey") with
      | Some n, Some k => Some {| cl_nickname := n; cl_openaiApiKey := k |}
      | _, _ => None
      end
  | _ => None
  end.

(** [joinLobbySchema.safeParse] *)
Definition joinLobbySchema (body : Json) : option JoinLobbyInput :=
  match body with
  | JObject o =>
      match z.string_min_max 4 10 (prop o "code"),
            z.string_min_max 1 32 (prop o "nickname") with
      | Some c, Some n => Some {| jl_code := c; jl_nickname := n |}
      | _, _ => None
      end
  | _ => None
  end.

(** [messageSchema.safeParse], the schema built inside the [message]
    handler. *)
Definition messageSchema (payload : Json) : option MessageInput :=
  match payload with
  | JObject o =>
      match z.string (prop o "code"),
            z.string (prop o "nickname"),
            z.string_min_max 1 400 (prop o "content") with
      | Some c, Some n, Some t =>
          Some {| mi_code := c; mi_nickname := n; mi_content := t |}
      | _, _, _ => None
      end
  | _ => None
  end.

(** ** Data model *)

(** [type LobbyData] *)
Record LobbyData : Type := {
  code : string;
  openaiKey : option string
}.

(** One row of the [messages] table. *)
Record Row : Type := {
  id : Z;
  lobbyCode : string;
  sender : string;
  role : string;
  content : string;
  createdAt : Z
}.

(** The object literal sent with a [message] event. *)
Record Message : Type := {
  msg_id : Z;
  msg_sender : string;
  msg_role : string;
  msg_content : string;
  msg_createdAt : Z
}.

(** The [messages] table: its rows in rowid order, and the largest rowid
    handed out so far ([AUTOINCREMENT] keeps it in [sqlite_sequence]). *)
Record Database : Type := {
  rows : list Row;
  seq : Z
}.

(** What [Statement.run] returns. *)
Record RunResult : Type := {
  changes : Z;
  lastInsertRowid : Z
}.

(** A JavaScript [Map] with string keys, kept in insertion order: the
    roster is read off it with [values()]. *)
Definition JsMap (V : Type) : Type := list (string * V).

Fixpoint jsmap_set {V : Type} (m : JsMap V) (k : string) (v : V) : JsMap V :=
  match m with
  | [] => [(k, v)]
  | (k', v') :: rest =>
      if String.eqb k' k then (k', v) :: rest
      else (k', v') :: jsmap_set rest k v
  end.

Fixpoint jsmap_delete {V : Type} (m : JsMap V) (k : string) : JsMap V :=
  match m with
  | [] => []
  | (k', v') :: rest =>
      if String.eqb k' k then rest else (k', v') :: jsmap_delete rest k
  end.

Fixpoint jsmap_get {V : Type} (m : JsMap V) (k : string) : option V :=
  match m with
  | [] => None
  | (k', v') :: rest => if String.eqb k' k then Some v' else jsmap_get rest k
  end.

Definition jsmap_values {V : Type} (m : JsMap V) : list V := map snd m.

(** ** Outputs *)

(** What can be thrown: a failed database write, a failed provider call. *)
Inductive Error : Type :=
| StorageError
| ProviderError (reason : string).

Inductive Payload : Type :=
| MessagePayload (m : Message)
| UsersPayload (users : list string).

(** What a handler does to the outside: [io.to(room).emit(event, payload)],
    [socket.join(room)], the acknowledgement [callback(data)] of one socket
    ([None] is [{}], [Some e] is [{ error: e }]), [console.error] (seen on
    the server only). *)
Inductive Effect : Type :=
| Emit (room event : string) (payload : Payload)
| SocketJoin (socket room : string)
| Ack (socket : string) (error : option string)
| ConsoleError (label : string) (error : Error).

(** HTTP response bodies; the [details] of a validation failure are not
    represented. *)
Inductive Body : Type :=
| ErrorBody (error : string)
| CodeBody (code : string)
| OkBody
| MessagesBody (messages : list Row).

Record Response : Type := {
  status : Z;
  body : Body
}.

(** ** The external completion provider *)

(** [choices[i]]: [message] may be missing and its [content] may be null. *)
Record Choice : Type := {
  message : option (option string)
}.

(** How the awaited [client.chat.completions.create(...)] settles. *)
Inductive Settled : Type :=
| Fulfilled (choices : list Choice)
| Rejected (reason : string).

(** A [sendAssistantMessage] call parked at its [await]. *)
Record Suspended : Type := {
  sus_code : string;
  sus_content : string;
  sus_apiKey : string
}.

(** ** The world *)

(** What the environment supplies: the n-th reading of [Date.now()], the
    n-th value of [Math.random()], whether the n-th write to the database
    throws, and [process.env.OPENAI_API_KEY]. *)
Record Env : Type := {
  Date_now_at : nat -> Z;
  Math_random_at : nat -> Q;
  write_fails_at : nat -> bool;
  OPENAI_API_KEY : option string
}.

Record World : Type := {
  env : Env;
  ticks : nat;
  draws : nat;
  writes : nat;
  lobbies : gmap string LobbyData;
  lobbyUsers : gmap string (JsMap string);
  socketToLobby : gmap string string;
  socketToNickname : gmap string string;
  db : Database;
  awaiting : list Suspended;
  trace : list Effect
}.

Inductive Outcome (A : Type) : Type :=
| Normal (a : A)
| Thrown (e : Error).
Arguments Normal {A} a.
Arguments Thrown {A} e.

Definition M (A : Type) : Type := World -> Outcome A * World.

Definition ret {A : Type} (a : A) : M A := fun w => (Normal a, w).

Definition bind {A B : Type} (m : M A) (k : A -> M B) : M B :=
  fun w =>
    match m w with
    | (Normal a, w') => k a w'
    | (Thrown e, w') => (Thrown e, w')
    end.

Definition throw {A : Type} (e : Error) : M A := fun w => (Thrown e, w).

(** [try { body } catch (error) { handler }] *)
Definition try_catch {A : Type} (body : M A) (handler : Error -> M A) : M A :=
  fun w =>
    match body w with
    | (Normal a, w') => (Normal a, w')
    | (Thrown e, w') => handler e w'
    end.

(** Calling an [async] function without awaiting it: whatever it throws
    stays in its own promise. *)
Definition detached (m : M unit) : M unit :=
  fun w => (Normal tt, snd (m w)).

Declare Scope js_scope.
Delimit Scope js_scope with js.
Notation "x <- m ;; k" := (bind m (fun x => k))
  (at level 100, m at next level, right associativity) : js_scope.
Notation "m ;; k" := (bind m (fun _ => k))
  (at level 100, right associativity) : js_scope.
Local Open Scope js_scope.

(** ** Primitive operations on the world *)

Definition update_memory
  (f : gmap string LobbyData -> gmap string LobbyData)
  (g : gmap string (JsMap string) -> gmap string (JsMap string))
  (h : gmap string string -> gmap string string)
  (k : gmap string string -> gmap string string) (w : World) : World :=
  {| env := env w; ticks := ticks w; draws := draws w; writes := writes w;
     lobbies := f (lobbies w); lobbyUsers := g (lobbyUsers w);
     socketToLobby := h (socketToLobby w);
     socketToNickname := k (socketToNickname w);
     db := db w; awaiting := awaiting w; trace := trace w |}.

Definition keep {A : Type} (m : A) : A := m.

(** [lobbies.set(k, v)], [lobbyUsers.set(k, v)] and so on. *)
Definition lobbies_set (k : string) (v : LobbyData) : M unit :=
  fun w => (Normal tt, update_memory <[k := v]> keep keep keep w).

Definition lobbyUsers_set (k : string) (v : JsMap string) : M unit :=
  fun w => (Normal tt, update_memory keep <[k := v]> keep keep w).

Definition socketToLobby_set (k v : string) : M unit :=
  fun w => (Normal tt, update_memory keep keep <[k := v]> keep w).

Definition socketToLobby_delete (k : string) : M unit :=
  fun w => (Normal tt, update_memory keep keep (delete k) keep w).

Definition socketToNickname_set (k v : string) : M unit :=
  fun w => (Normal tt, update_memory keep keep keep <[k := v]> w).

Definition socketToNickname_delete (k : string) : M unit :=
  fun w => (Normal tt, update_memory keep keep keep (delete k) w).

Definition lobbies_get (k : string) : M (option LobbyData) :=
  fun w => (Normal (lobbies w !! k), w).

(** [lobbies.has(k)] *)
Definition lobbies_has (k : string) : M bool :=
  fun w => (Normal (bool_decide (is_Some (lobbies w !! k))), w).

Definition lobbyUsers_get (k : string) : M (option (JsMap string)) :=
  fun w => (Normal (lobbyUsers w !! k), w).

Definition socketToLobby_get (k : string) : M (option string) :=
  fun w => (Normal (socketToLobby w !! k), w).

Definition process_env_OPENAI_API_KEY : M (option string) :=
  fun w => (Normal (OPENAI_API_KEY (env w)), w).

(** [Date.now()] *)
Definition Date_now : M Z :=
  fun w =>
    (Normal (Date_now_at (env w) (ticks w)),
     {| env := env w; ticks := S (ticks w); draws := draws w;
        writes := writes w; lobbies := lobbies w; lobbyUsers := lobbyUsers w;
        socketToLobby := socketToLobby w;
        socketToNickname := socketToNickname w;
        db := db w; awaiting := awaiting w; trace := trace w |}).

(** [Math.random()] *)
Definition Math_random : M Q :=
  fun w =>
    (Normal (Math_random_at (env w) (draws w)),
     {| env := env w; ticks := ticks w; draws := S (draws w);
        writes := writes w; lobbies := lobbies w; lobbyUsers := lobbyUsers w;
        socketToLobby := socketToLobby w;
        socketToNickname := socketToNickname w;
        db := db w; awaiting := awaiting w; trace := trace w |}).

(** Appends one output to the trace. *)
Definition perform (e : Effect) : M unit :=
  fun w =>
    (Normal tt,
     {| env := env w; ticks := ticks w; draws := draws w; writes := writes w;
        lobbies := lobbies w; lobbyUsers := lobbyUsers w;
        socketToLobby := socketToLobby w;
        socketToNickname := socketToNickname w;
        db := db w; awaiting := awaiting w; trace := trace w ++ [e] |}).

(** [io.to(room).emit(event, payload)] *)
Definition io_to_emit (room event : string) (payload : Payload) : M unit :=
  perform (Emit room event payload).

(** [callback?.(data)]: nothing happens when the client passed no
    acknowledgement function. *)
Definition callback_opt (callback : bool) (socket : string)
  (error : option string) : M unit :=
  if callback then perform (Ack socket error) else ret tt.

(** [insertMessage.run(lobbyCode, sender, role, content, createdAt)]: the
    statement names no [id] column, so the table's [AUTOINCREMENT] key
    supplies it.  A failed write throws and leaves the table as it was. *)
Definition insertMessage_run (lobbyCode sender role content : string)
  (createdAt : Z) : M RunResult :=
  fun w =>
    let rowid := seq (db w) + 1 in
    if write_fails_at (env w) (writes w) then
      (Thrown StorageError,
       {| env := env w; ticks := ticks w; draws := draws w;
          writes := S (writes w); lobbies := lobbies w;
          lobbyUsers := lobbyUsers w; socketToLobby := socketToLobby w;
          socketToNickname := socketToNickname w;
          db := db w; awaiting := awaiting w; trace := trace w |})
    else
      (Normal {| changes := 1; lastInsertRowid := rowid |},
       {| env := env w; ticks := ticks w; draws := draws w;
          writes := S (writes w); lobbies := lobbies w;
          lobbyUsers := lobbyUsers w; socketToLobby := socketToLobby w;
          socketToNickname := socketToNickname w;
          db := {| rows := rows (db w) ++
                     [{| id := rowid; lobbyCode := lobbyCode;
                         sender := sender; role := role; content := content;
                         createdAt := createdAt |}];
                   seq := rowid |};
          awaiting := awaiting w; trace := trace w |}).

(** [ORDER BY createdAt ASC]: insertion into an already ordered list, after
    every row that is not later. *)
Fixpoint insert_by_createdAt (r : Row) (sorted : list Row) : list Row :=
  match sorted with
  | [] => [r]
  | r' :: rest =>
      if createdAt r <? createdAt r' then r :: r' :: rest
      else r' :: insert_by_createdAt r rest
  end.

Definition order_by_createdAt (l : list Row) : list Row :=
  foldl (fun acc r => insert_by_createdAt r acc) [] l.

(** [WHERE lobbyCode = ?] *)
Definition where_lobbyCode (c : string) (l : list Row) : list Row :=
  List.filter (fun r => String.eqb (lobbyCode r) c) l.

(** [selectMessages.all(code)] *)
Definition selectMessages_all (c : string) : M (list Row) :=
  fun w => (Normal (order_by_createdAt (where_lobbyCode c (rows (db w)))), w).

(** Parks a [sendAssistantMessage] call at its [await]. *)
Definition suspend (s : Suspended) : M unit :=
  fun w =>
    (Normal tt,
     {| env := env w; ticks := ticks w; draws := draws w; writes := writes w;
        lobbies := lobbies w; lobbyUsers := lobbyUsers w;
        socketToLobby := socketToLobby w;
        socketToNickname := socketToNickname w;
        db := db w; awaiting := awaiting w ++ [s]; trace := trace w |}).

(** ** JavaScript idioms *)

(** The value of [s] when it is truthy: [undefined] and the empty string
    are not. *)
Definition truthy (s : option string) : option string :=
  match s with
  | Some t => if String.eqb t "" then None else Some t
  | None => None
  end.

(** [a || b] on possibly undefined strings. *)
Definition or_else (a b : option string) : option string :=
  match truthy a with
  | Some t => Some t
  | None => b
  end.

(** [Math.floor(r * n)] for a reading [r] of [Math.random()] and a small
    whole number [n]: the product is exact, so the result is the floor of
    the rational product. *)
Definition Math_floor_times (r : Q) (n : nat) : Z :=
  Qfloor (r * inject_Z (Z.of_nat n)).

(** ** Lobby codes *)

Definition alphabet : string := "ABCDEFGHJKLMNPQRSTUVWXYZ23456789".

(** [code += alphabet[i]]: reading past the string gives [undefined], which
    [+=] spells out. *)
Definition append_alphabet_at (code : string) (i : Z) : string :=
  match (if 0 <=? i then String.get (Z.to_nat i) alphabet else None) with
  | Some ch => String.append code (String ch EmptyString)
  | None => String.append code "undefined"
  end.

(** The [for] loop of [generateCode], by the number of rounds left. *)
Fixpoint generateCode_loop (rounds : nat) (code : string) : M string :=
  match rounds with
  | O => ret code
  | S rounds' =>
      r <- Math_random ;;
      generateCode_loop rounds'
        (append_alphabet_at code
           (Math_floor_times r (String.length alphabet)))
  end.

Definition generateCode : M string := generateCode_loop 6 "".

(** ** HTTP routes *)

(** [POST /lobby] *)
Definition post_lobby (body : Json) : M Response :=
  match createLobbySchema body with
  | None => ret {| status := 400; body := ErrorBody "Invalid payload" |}
  | Some data =>
      code <- generateCode ;;
      fallback <- process_env_OPENAI_API_KEY ;;
      lobbies_set code
        {| code := code;
           openaiKey := or_else (cl_openaiApiKey data) fallback |} ;;
      lobbyUsers_set code [] ;;
      ret {| status := 200; body := CodeBody code |}
  end.

(** [POST /lobby/join] *)
Definition post_lobby_join (body : Json) : M Response :=
  match joinLobbySchema body with
  | None => ret {| status := 400; body := ErrorBody "Invalid payload" |}
  | Some data =>
      known <- lobbies_has (jl_code data) ;;
      if negb known
      then ret {| status := 404; body := ErrorBody "Lobby not found" |}
      else ret {| status := 200; body := OkBody |}
  end.

(** [GET /lobby/:code/messages] *)
Definition get_lobby_messages (code : string) : M Response :=
  known <- lobbies_has code ;;
  if negb known
  then ret {| status := 404; body := ErrorBody "Lobby not found" |}
  else
    found <- selectMessages_all code ;;
    ret {| status := 200; body := MessagesBody found |}.

(** ** Broadcasts *)

Definition broadcastUsers (code : string) : M unit :=
  entry <- lobbyUsers_get code ;;
  let users :=
    match entry with
    | Some m => jsmap_values m
    | None => []
    end in
  io_to_emit code "users" (UsersPayload users).

Definition no_key_text : string :=
  "No OpenAI API key configured for this lobby.".

Definition unavailable_text : string := "The DM is unavailable right now.".

(** [sendAssistantMessage] up to its [await]: without a key it answers at
    once, otherwise the call is parked until the provider settles. *)
Definition sendAssistantMessage (code content : string) : M unit :=
  lobby <- lobbies_get code ;;
  let apiKey :=
    match lobby with
    | Some l => openaiKey l
    | None => None
    end in
  match truthy apiKey with
  | None =>
      t_id <- Date_now ;;
      t_created <- Date_now ;;
      io_to_emit code "message"
        (MessagePayload
           {| msg_id := t_id; msg_sender := "DM"; msg_role := "assistant";
              msg_content := no_key_text; msg_createdAt := t_created |})
  | Some key =>
      suspend {| sus_code := code; sus_content := content;
                 sus_apiKey := key |}
  end.

(** [completion.choices[0]?.message?.content || 'Ready to keep chatting!'] *)
Definition first_choice_text (choices : list Choice) : string :=
  let text :=
    match choices with
    | c :: _ =>
        match message c with
        | Some t => t
        | None => None
        end
    | [] => None
    end in
  match truthy text with
  | Some t => t
  | None => "Ready to keep chatting!"
  end.

(** The rest of [sendAssistantMessage], from the settled [await] on: the
    [try] body and its [catch]. *)
Definition sendAssistantMessage_resume (s : Suspended) (settled : Settled)
  : M unit :=
  let code := sus_code s in
  try_catch
    (choices <- match settled with
                | Fulfilled choices => ret choices
                | Rejected reason => throw (ProviderError reason)
                end ;;
     let assistantMessage := first_choice_text choices in
     createdAt <- Date_now ;;
     insertMessage_run code "DM" "assistant" assistantMessage createdAt ;;
     io_to_emit code "message"
       (MessagePayload
          {| msg_id := createdAt; msg_sender := "DM";
             msg_role := "assistant"; msg_content := assistantMessage;
             msg_createdAt := createdAt |}))
    (fun error =>
       perform (ConsoleError "OpenAI error" error) ;;
       t_id <- Date_now ;;
       t_created <- Date_now ;;
       io_to_emit code "message"
         (MessagePayload
            {| msg_id := t_id; msg_sender := "DM"; msg_role := "assistant";
               msg_content := unavailable_text;
               msg_createdAt := t_created |})).

(** ** Socket events *)

(** [socket.on('joinLobby', ...)] for the socket [socket_id]. *)
Definition on_joinLobby (socket_id : string) (payload : Json)
  (callback : bool) : M unit :=
  match joinLobbySchema payload with
  | None => callback_opt callback socket_id (Some "Invalid payload")
  | Some data =>
      let code := jl_code data in
      let nickname := jl_nickname data in
      known <- lobbies_has code ;;
      if negb known
      then callback_opt callback socket_id (Some "Lobby not found")
      else
        perform (SocketJoin socket_id code) ;;
        socketToLobby_set socket_id code ;;
        socketToNickname_set socket_id nickname ;;
        entry <- lobbyUsers_get code ;;
        let users :=
          jsmap_set (match entry with Some m => m | None => [] end)
            socket_id nickname in
        lobbyUsers_set code users ;;
        broadcastUsers code ;;
        callback_opt callback socket_id None
  end.

(** [socket.on('message', async ...)]: a [Thrown] outcome is the rejected
    promise of the handler. *)
Definition on_message (socket_id : string) (payload : Json)
  (callback : bool) : M unit :=
  match messageSchema payload with
  | None => callback_opt callback socket_id (Some "Invalid payload")
  | Some data =>
      let code := mi_code data in
      let nickname := mi_nickname data in
      let content := mi_content data in
      known <- lobbies_has code ;;
      if negb known
      then callback_opt callback socket_id (Some "Lobby not found")
      else
        createdAt <- Date_now ;;
        insertMessage_run code nickname "user" content createdAt ;;
        let message :=
          {| msg_id := createdAt; msg_sender := nickname;
             msg_role := "user"; msg_content := content;
             msg_createdAt := createdAt |} in
        io_to_emit code "message" (MessagePayload message) ;;
        detached (sendAssistantMessage code content) ;;
        callback_opt callback socket_id None
  end.

(** [socket.on('disconnect', ...)] *)
Definition on_disconnect (socket_id : string) : M unit :=
  current <- socketToLobby_get socket_id ;;
  match truthy current with
  | None => ret tt
  | Some code =>
      socketToLobby_delete socket_id ;;
      entry <- lobbyUsers_get code ;;
      match entry with
      | Some users =>
          lobbyUsers_set code (jsmap_delete users socket_id) ;;
          broadcastUsers code
      | None => ret tt
      end ;;
      socketToNickname_delete socket_id
  end.

(** The provider settles the [k]-th parked call, which then runs to its
    end. *)
Definition on_settled (k : nat) (settled : Settled) : M unit :=
  fun w =>
    match awaiting w !! k with
    | None => (Normal tt, w)
    | Some s =>
        detached (sendAssistantMessage_resume s settled)
          {| env := env w; ticks := ticks w; draws := draws w;
             writes := writes w; lobbies := lobbies w;
             lobbyUsers := lobbyUsers w; socketToLobby := socketToLobby w;
             socketToNickname := socketToNickname w; db := db w;
             awaiting := take k (awaiting w) ++ drop (S k) (awaiting w);
             trace := trace w |}
    end.

(** ** The server as a transition system *)

Inductive Event : Type :=
| PostLobby (body : Json)
| PostLobbyJoin (body : Json)
| GetLobbyMessages (code : string)
| JoinLobby (socket_id : string) (payload : Json) (callback : bool)
| SendMessage (socket_id : string) (payload : Json) (callback : bool)
| Disconnect (socket_id : string)
| ProviderSettles (k : nat) (settled : Settled).

Definition handle (e : Event) (w : World) : World :=
  match e with
  | PostLobby b => snd (post_lobby b w)
  | PostLobbyJoin b => snd (post_lobby_join b w)
  | GetLobbyMessages c => snd (get_lobby_messages c w)
  | JoinLobby s p cb => snd (on_joinLobby s p cb w)
  | SendMessage s p cb => snd (on_message s p cb w)
  | Disconnect s => snd (on_disconnect s w)
  | ProviderSettles k r => snd (on_settled k r w)
  end.

(** A freshly started process: empty maps, nothing parked, nothing output;
    the database file is whatever earlier runs left. *)
Definition boot (e : Env) (d : Database) : World :=
  {| env := e; ticks := 0; draws := 0; writes := 0;
     lobbies := ∅; lobbyUsers := ∅; socketToLobby := ∅;
     socketToNickname := ∅; db := d; awaiting := []; trace := [] |}.

Inductive reachable : World -> Prop :=
| reachable_boot (e : Env) (d : Database) : reachable (boot e d)
| reachable_step (w : World) (ev : Event) :
    reachable w -> reachable (handle ev w).

(** ** Vocabulary of the statements *)

Definition createdAt_le (a b : Row) : Prop := createdAt a <= createdAt b.

(** The messages of a lobby as the history route returns them. *)
Definition history (c : string) (w : World) : list Row :=
  match fst (get_lobby_messages c w) with
  | Normal {| body := MessagesBody found |} => found
  | _ => []
  end.

(** Two worlds with the same maps, table and parked calls. *)
Definition same_state (w w' : World) : Prop :=
  lobbies w' = lobbies w /\ lobbyUsers w' = lobbyUsers w /\
  socketToLobby w' = socketToLobby w /\
  socketToNickname w' = socketToNickname w /\
  db w' = db w /\ awaiting w' = awaiting w.

(** The acknowledgement a handler hands to [callback?.(...)]. *)
Definition acked (callback : bool) (socket_id : string)
  (error : option string) : list Effect :=
  if callback then [Ack socket_id error] else [].

(** ** A sample run *)

(** A clock that advances by one per reading, draws that stay below one,
    a disk that fails when told to, and a process-wide key when given. *)
Definition sample_env (disk_fails : bool) (key : option string) : Env :=
  {| Date_now_at := fun n => 1700000000000 + Z.of_nat n;
     Math_random_at := fun n => ((Z.of_nat (7 * n + 3) mod 50) # 50)%Q;
     write_fails_at := fun _ => disk_fails;
     OPENAI_API_KEY := key |}.

Definition empty_table : Database := {| rows := []; seq := 0 |}.

Definition alice_creates : Json := JObject [("nickname", JString "Alice")].

Definition sample_created (disk_fails : bool) (key : option string) : World :=
  handle (PostLobby alice_creates) (boot (sample_env disk_fails key) empty_table).

Definition alice_joins : Json :=
  JObject [("code", JString "BGLRV2"); ("nickname", JString "Alice")].

Definition sample_joined (disk_fails : bool) (key : option string) : World :=
  handle (JoinLobby "s1" alice_joins true) (sample_created disk_fails key).

Definition says (nickname text : string) : list (string * Json) :=
  [("code", JString "BGLRV2"); ("nickname", JString nickname);
   ("content", JString text)].

(** The characters of [s] all occur in [alphabet]. *)
Definition in_alphabet (s : string) : Prop :=
  Forall (fun ch => In ch (String.list_ascii_of_string alphabet))
         (String.list_ascii_of_string s).

(** Every reading of [Math.random()] lies in [0, 1). *)
Definition random_in_unit_interval (e : Env) : Prop :=
  forall n : nat, (0 <= Math_random_at e n)%Q /\ (Math_random_at e n < 1)%Q.

(** A [message] payload that passes [messageSchema]: three string fields,
    the content of 1 to 400 characters. *)
Definition well_formed_send (o : list (string * Json))
  (c nickname text : string) : Prop :=
  prop o "code" = JString c /\ prop o "nickname" = JString nickname /\
  prop o "content" = JString text /\
  (1 <= String.length text <= 400)%nat.

(** The row a send stores and the message it broadcasts. *)
Definition user_row (w : World) (c nickname text : string) : Row :=
  {| id := seq (db w) + 1; lobbyCode := c; sender := nickname;
     role := "user"; content := text;
     createdAt := Date_now_at (env w) (ticks w) |}.

Definition user_message (w : World) (nickname text : string) : Message :=
  {| msg_id := Date_now_at (env w) (ticks w); msg_sender := nickname;
     msg_role := "user"; msg_content := text;
     msg_createdAt := Date_now_at (env w) (ticks w) |}.

(** The fixed notice sent by the assistant path, with the two clock
    readings taken for it. *)
Definition notice (text : string) (t_id t_created : Z) : Message :=
  {| msg_id := t_id; msg_sender := "DM"; msg_role := "assistant";
     msg_content := text; msg_createdAt := t_created |}.

Definition hello : list (string * Json) := says "Alice" "hello".

(** Alice's send in the sample lobby. *)
Definition sample_sent (disk_fails : bool) (key : option string) : World :=
  handle (SendMessage "s1" (JObject hello) true)
         (sample_joined disk_fails key).

(** The provider then turns the parked call down. *)
Definition sample_provider_failed (key : option string) : World :=
  handle (ProviderSettles 0 (Rejected "insufficient_quota"))
         (sample_sent false key).

(** A sender label of 40 characters. *)
Definition long_label : string :=
  "0123456789012345678901234567890123456789".

(** What every reachable world satisfies: a socket's recorded lobby is a
    non-empty code that has a roster, and no roster lists a socket twice. *)
Definition well_kept (w : World) : Prop :=
  (forall s L : string,
     socketToLobby w !! s = Some L ->
     L <> "" /\ is_Some (lobbyUsers w !! L)) /\
  (forall (L : string) (users : JsMap string),
     lobbyUsers w !! L = Some users -> NoDup (map fst users)).

(** ** Proof automation *)

(** Runs the primitive operations of a handler on a world given by its
    fields. *)
Ltac js_run_in H :=
  cbv beta iota zeta delta
    [bind ret throw try_catch detached perform io_to_emit callback_opt
     Date_now Math_random insertMessage_run suspend lobbies_get lobbies_has
     lobbyUsers_get socketToLobby_get lobbies_set lobbyUsers_set
     socketToLobby_set socketToLobby_delete socketToNickname_set
     socketToNickname_delete update_memory keep process_env_OPENAI_API_KEY
     selectMessages_all broadcastUsers env ticks draws writes lobbies
     lobbyUsers socketToLobby socketToNickname db awaiting trace fst snd negb]
    in H.

Ltac js_run :=
  cbv beta iota zeta delta
    [bind ret throw try_catch detached perform io_to_emit callback_opt
     Date_now Math_random insertMessage_run suspend lobbies_get lobbies_has
     lobbyUsers_get socketToLobby_get lobbies_set lobbyUsers_set
     socketToLobby_set socketToLobby_delete socketToNickname_set
     socketToNickname_delete update_memory keep process_env_OPENAI_API_KEY
     selectMessages_all broadcastUsers env ticks draws writes lobbies
     lobbyUsers socketToLobby socketToNickname db awaiting trace fst snd negb].

(** ** Vocabulary for joins, rosters and runs *)

(** A [joinLobby] payload that passes [joinLobbySchema]. *)
Definition well_formed_join (o : list (string * Json)) (c nickname : string)
  : Prop :=
  prop o "code" = JString c /\ (4 <= String.length c <= 10)%nat /\
  prop o "nickname" = JString nickname /\
  (1 <= String.length nickname <= 32)%nat.

(** The roster kept for a code, empty when there is none. *)
Definition roster_of (w : World) (c : string) : JsMap string :=
  match lobbyUsers w !! c with
  | Some m => m
  | None => []
  end.

(** The world after a sequence of events, oldest first. *)
Definition run (evs : list Event) (w : World) : World :=
  foldl (fun v ev => handle ev v) w evs.

(** A display name the join schema lets through. *)
Definition valid_name (n : string) : Prop :=
  (1 <= String.length n <= 32)%nat.

(** Outputs that are acknowledgements only. *)
Definition only_acks (l : list Effect) : Prop :=
  Forall (fun e => match e with Ack _ _ => True | _ => False end) l.

(** The row and the message of a reply by the assistant. *)
Definition reply_row (w : World) (c text : string) : Row :=
  {| id := seq (db w) + 1; lobbyCode := c; sender := "DM";
     role := "assistant"; content := text;
     createdAt := Date_now_at (env w) (ticks w) |}.

Definition reply_message (w : World) (text : string) : Message :=
  {| msg_id := Date_now_at (env w) (ticks w); msg_sender := "DM";
     msg_role := "assistant"; msg_content := text;
     msg_createdAt := Date_now_at (env w) (ticks w) |}.

(** The list of parked calls without its [k]-th entry. *)
Definition without {A : Type} (k : nat) (l : list A) : list A :=
  take k l ++ drop (S k) l.

(** The maps of two worlds agree. *)
Definition same_maps (w w' : World) : Prop :=
  lobbies w' = lobbies w /\ lobbyUsers w' = lobbyUsers w /\
  socketToLobby w' = socketToLobby w /\
  socketToNickname w' = socketToNickname w.

(** Everything one event can do to the maps, the table, the parked calls
    and the outputs: a summary that every handler is shown to stay
    within. *)
Inductive Change (w w' : World) : Prop :=
| Ch_quiet (acks : list Effect) :
    same_state w w' -> trace w' = trace w ++ acks -> only_acks acks ->
    Change w w'
| Ch_created (c : string) (key : option string) :
    lobbies w' = <[c := {| code := c; openaiKey := key |}]> (lobbies w) ->
    lobbyUsers w' = <[c := []]> (lobbyUsers w) ->
    socketToLobby w' = socketToLobby w ->
    socketToNickname w' = socketToNickname w ->
    db w' = db w -> awaiting w' = awaiting w -> trace w' = trace w ->
    Change w w'
| Ch_joined (s c n : string) (acks : list Effect) :
    is_Some (lobbies w !! c) -> (4 <= String.length c <= 10)%nat ->
    valid_name n ->
    lobbies w' = lobbies w ->
    lobbyUsers w' = <[c := jsmap_set (roster_of w c) s n]> (lobbyUsers w) ->
    socketToLobby w' = <[s := c]> (socketToLobby w) ->
    socketToNickname w' = <[s := n]> (socketToNickname w) ->
    db w' = db w -> awaiting w' = awaiting w ->
    trace w' =
      trace w ++
      [SocketJoin s c;
       Emit c "users"
         (UsersPayload (jsmap_values (jsmap_set (roster_of w c) s n)))] ++
      acks ->
    only_acks acks ->
    Change w w'
| Ch_left (s L : string) :
    socketToLobby w !! s = Some L ->
    lobbies w' = lobbies w ->
    lobbyUsers w' =
      match lobbyUsers w !! L with
      | Some users => <[L := jsmap_delete users s]> (lobbyUsers w)
      | None => lobbyUsers w
      end ->
    socketToLobby w' = delete s (socketToLobby w) ->
    socketToNickname w' = delete s (socketToNickname w) ->
    db w' = db w -> awaiting w' = awaiting w ->
    trace w' =
      trace w ++
      match lobbyUsers w !! L with
      | Some users =>
          [Emit L "users"
             (UsersPayload (jsmap_values (jsmap_delete users s)))]
      | None => []
      end ->
    Change w w'
| Ch_sent (c nickname text : string) (parked : list Suspended)
    (notices acks : list Effect) :
    is_Some (lobbies w !! c) -> (1 <= String.length text <= 400)%nat ->
    same_maps w w' ->
    db w' = {| rows := rows (db w) ++ [user_row w c nickname text];
               seq := seq (db w) + 1 |} ->
    awaiting w' = awaiting w ++ parked ->
    Forall (fun p => sus_code p = c /\ sus_content p = text) parked ->
    Forall (fun e => exists t_id t_created,
              e = Emit c "message"
                    (MessagePayload (notice no_key_text t_id t_created)))
           notices ->
    (length parked + length notices = 1)%nat ->
    trace w' =
      trace w ++
      Emit c "message" (MessagePayload (user_message w nickname text))
      :: notices ++ acks ->
    only_acks acks ->
    Change w w'
| Ch_replied (k : nat) (s : Suspended) (text : string) :
    awaiting w !! k = Some s -> text <> "" ->
    same_maps w w' ->
    db w' = {| rows := rows (db w) ++ [reply_row w (sus_code s) text];
               seq := seq (db w) + 1 |} ->
    awaiting w' = without k (awaiting w) ->
    trace w' =
      trace w ++
      [Emit (sus_code s) "message" (MessagePayload (reply_message w text))] ->
    Change w w'
| Ch_reply_failed (k : nat) (s : Suspended) (error : Error)
    (t_id t_created : Z) :
    awaiting w !! k = Some s ->
    same_maps w w' -> db w' = db w ->
    awaiting w' = without k (awaiting w) ->
    trace w' =
      trace w ++
      [ConsoleError "OpenAI error" error;
       Emit (sus_code s) "message"
         (MessagePayload (notice unavailable_text t_id t_created))] ->
    Change w w'.

(** What every reachable world satisfies, part by part: the registry keeps
    each lobby under its own code and with a roster; a socket's recorded
    lobby is registered and its code has 4 to 10 characters; the two socket
    indexes hold the same sockets; every listed or recorded display name
    passed the join schema; every parked call belongs to a registered lobby
    and carries content of 1 to 400 characters. *)
Definition con_registry (w : World) : Prop :=
  forall (c : string) (l : LobbyData),
    lobbies w !! c = Some l -> code l = c /\ is_Some (lobbyUsers w !! c).

Definition con_sockets (w : World) : Prop :=
  forall s c : string,
    socketToLobby w !! s = Some c ->
    is_Some (lobbies w !! c) /\ (4 <= String.length c <= 10)%nat.

Definition con_indexes (w : World) : Prop :=
  forall s : string,
    socketToLobby w !! s = None <-> socketToNickname w !! s = None.

Definition con_rosters (w : World) : Prop :=
  forall (c : string) (m : JsMap string) (n : string),
    lobbyUsers w !! c = Some m -> n ∈ jsmap_values m -> valid_name n.

Definition con_names (w : World) : Prop :=
  forall s n : string, socketToNickname w !! s = Some n -> valid_name n.

Definition con_parked (w : World) : Prop :=
  forall p : Suspended,
    p ∈ awaiting w ->
    is_Some (lobbies w !! sus_code p) /\
    (1 <= String.length (sus_content p) <= 400)%nat.

Definition consistent (w : World) : Prop :=
  con_registry w /\ con_sockets w /\ con_indexes w /\ con_rosters w /\
  con_names w /\ con_parked w.

(** What a broadcast message may look like: a user's message with content
    of 1 to 400 characters and its timestamp as identifier, or a message of
    the assistant, sent as [DM] with non-empty content. *)
Definition lawful_message (m : Message) : Prop :=
  (msg_role m = "user" /\ (1 <= String.length (msg_content m) <= 400)%nat /\
   msg_id m = msg_createdAt m) \/
  (msg_role m = "assistant" /\ msg_sender m = "DM" /\ msg_content m <> "").

(** What an output may look like in a world: events go to registered
    lobbies, [users] events carry valid names, [message] events lawful
    messages. *)
Definition lawful (w : World) (e : Effect) : Prop :=
  match e with
  | Emit room event (UsersPayload l) =>
      event = "users" /\ is_Some (lobbies w !! room) /\
      Forall valid_name l
  | Emit room event (MessagePayload m) =>
      event = "message" /\ is_Some (lobbies w !! room) /\ lawful_message m
  | SocketJoin _ room => is_Some (lobbies w !! room)
  | Ack _ _ => True
  | ConsoleError _ _ => True
  end.

(** Splits a change into its cases, naming what each case gives. *)
Ltac change_cases H :=
  destruct H as
    [ acks (Hlb & Hlu & Hsl & Hsn & Hdb & Haw) Htr Hacks
    | c key Hlb Hlu Hsl Hsn Hdb Haw Htr
    | s c n acks Hreg Hclen Hn Hlb Hlu Hsl Hsn Hdb Haw Htr Hacks
    | s L HL Hlb Hlu Hsl Hsn Hdb Haw Htr
    | c n t parked notices acks Hreg Hlen (Hlb & Hlu & Hsl & Hsn) Hdb Haw
        Hparked Hnotices Hone Htr Hacks
    | k s t Hk Ht (Hlb & Hlu & Hsl & Hsn) Hdb Haw Htr
    | k s err t_id t_created Hk (Hlb & Hlu & Hsl & Hsn) Hdb Haw Htr ].

(** Rowids go up in writing order and none exceeds the table's counter. *)
Definition keyed (d : Database) : Prop :=
  StronglySorted Z.lt (map id (rows d)) /\
  Forall (fun r => id r <= seq d) (rows d).

(** What a row written by the server looks like: a user's row with content
    of 1 to 400 characters, or a row of the assistant, sent as [DM] with
    non-empty content. *)
Definition lawful_row (r : Row) : Prop :=
  (role r = "user" /\ (1 <= String.length (content r) <= 400)%nat) \/
  (role r = "assistant" /\ sender r = "DM" /\ content r <> "").

(** The events of the sample run, oldest first. *)
Definition sample_events : list Event :=
  [PostLobby alice_creates; JoinLobby "s1" alice_joins true;
   SendMessage "s1" (JObject hello) true].

(** The sample run with a second lobby created after Alice joined the
    first. *)
Definition sample_two_lobbies : World :=
  handle (PostLobby alice_creates) (sample_joined false None).

(** The same run continued: Alice's socket, already listed in the first
    lobby, joins the second one as well. *)
Definition alice_joins_second : Json :=
  JObject [("code", JString "6BFLQV"); ("nickname", JString "Alice")].

Definition sample_second_join : World :=
  handle (JoinLobby "s1" alice_joins_second true) sample_two_lobbies.

Definition sample_second_join_left : World :=
  handle (Disconnect "s1") sample_second_join.

(** An environment whose draws are all zero, so that every created lobby
    gets the same code. *)
Definition repeating_env : Env :=
  {| Date_now_at := fun n => 1700000000000 + Z.of_nat n;
     Math_random_at := fun _ => 0%Q;
     write_fails_at := fun _ => false;
     OPENAI_API_KEY := Some "sk-default" |}.

(** A lobby created in that environment, with Alice in it. *)
Definition sample_repeating : World :=
  handle (JoinLobby "s1"
            (JObject [("code", JString "AAAAAA");
                      ("nickname", JString "Alice")]) true)
    (handle (PostLobby alice_creates) (boot repeating_env empty_table)).

(** A create-lobby body that passes [createLobbySchema]: a nickname of 1 to
    32 characters and, when a key is given, one of 1 to 200 characters. *)
Definition well_formed_create (o : list (string * Json)) (nickname : string)
  (key : option string) : Prop :=
  prop o "nickname" = JString nickname /\
  (1 <= String.length nickname <= 32)%nat /\
  match key with
  | Some k =>
      prop o "openaiApiKey" = JString k /\
      (1 <= String.length k <= 200)%nat
  | None => prop o "openaiApiKey" = JUndefined
  end.

(** A create-lobby body the schema turns down: not an object, or a nickname
    that is not a string of 1 to 32 characters, or a key that is present
    without being a string of 1 to 200 characters. *)
Definition malformed_create (b : Json) : Prop :=
  match b with
  | JObject o =>
      (forall n : string,
         prop o "nickname" = JString n ->
         (String.length n = 0 \/ 32 < String.length n)%nat) \/
      (prop o "openaiApiKey" <> JUndefined /\
       forall k : string,
         prop o "openaiApiKey" = JString k ->
         (String.length k = 0 \/ 200 < String.length k)%nat)
  | _ => True
  end.

(** The sample run with a key, on a disk that works for Alice's message and
    fails from then on. *)
Definition failing_later_env : Env :=
  {| Date_now_at := fun n => 1700000000000 + Z.of_nat n;
     Math_random_at := fun n => ((Z.of_nat (7 * n + 3) mod 50) # 50)%Q;
     write_fails_at := fun n => negb (Nat.eqb n 0);
     OPENAI_API_KEY := Some "sk-sample" |}.

Definition sample_sent_failing_later : World :=
  run sample_events (boot failing_later_env empty_table).

(** An output that is addressed to the room [c], if it is addressed to a
    room at all. *)
Definition addressed_to (c : string) (e : Effect) : Prop :=
  match e with
  | Emit room _ _ => room = c
  | SocketJoin _ room => room = c
  | Ack _ _ => True
  | ConsoleError _ _ => True
  end.

(** ** The mobile client ([mobile/App.tsx]) *)

Module App.

Inductive Screen : Type := home | lobby.

(** The component's state hooks and its socket ref ([None] is [null]). *)
Record State : Type := {
  screen : Screen;
  nickname : string;
  lobbyCode : string;
  serverUrl : string;
  apiKey : string;
  users : list string;
  messages : list Message;
  inputMessage : string;
  socketRef : option string
}.

(** What a handler does to the outside: [socket.emit(event, payload, ack)],
    [Alert.alert(title, message)], and [fetch(url, { method, body })] with
    the JSON value its body text stands for. *)
Inductive Effect : Type :=
| SocketEmit (event : string) (payload : Json)
| Alert (title message : string)
| Fetch (method url : string) (body : option Json).

(** White space and line terminators among the code units below 256, which
    are the ones a [string] here can hold. *)
Definition is_space (ch : Ascii.ascii) : bool :=
  let n := Ascii.nat_of_ascii ch in
  ((9 <=? n)%nat && (n <=? 13)%nat) || (n =? 32)%nat || (n =? 160)%nat.

Fixpoint drop_spaces (l : list Ascii.ascii) : list Ascii.ascii :=
  match l with
  | [] => []
  | ch :: rest => if is_space ch then drop_spaces rest else l
  end.

(** [s.trim()] *)
Definition trim (s : string) : string :=
  String.string_of_list_ascii
    (rev (drop_spaces (rev (drop_spaces (String.list_ascii_of_string s))))).

(** [!s] for a string [s]. *)
Definition not_ (s : string) : bool := String.eqb s "".

(** [!socketRef.current] *)
Definition no_socket (a : State) : bool :=
  match socketRef a with
  | Some _ => false
  | None => true
  end.

(** [handleSend]: the new state and what is sent. *)
Definition handleSend (a : State) : State * list Effect :=
  if not_ (trim (inputMessage a)) || no_socket a then (a, [])
  else
    let content := inputMessage a in
    ({| screen := screen a; nickname := nickname a;
        lobbyCode := lobbyCode a; serverUrl := serverUrl a;
        apiKey := apiKey a; users := users a; messages := messages a;
        inputMessage := ""; socketRef := socketRef a |},
     [SocketEmit "message"
        (JObject [("code", JString (lobbyCode a));
                  ("nickname", JString (nickname a));
                  ("content", JString content)])]).

(** The acknowledgement callback given to that emit; [response] is the
    [error] field of the acknowledgement, if any. *)
Definition handleSend_ack (response : option string) : list Effect :=
  match truthy response with
  | Some e => [Alert "Message failed" e]
  | None => []
  end.

(** [JSON.stringify({ nickname, openaiApiKey: apiKey || undefined })] as the
    server parses it: a property whose value is [undefined] is left out. *)
Definition create_body (a : State) : Json :=
  JObject
    (("nickname", JString (nickname a)) ::
     (if String.eqb (apiKey a) "" then []
      else [("openaiApiKey", JString (apiKey a))])).

(** [handleCreate] up to its first [await]: the validation alert, or the
    request to [POST /lobby]. *)
Definition handleCreate_request (a : State) : list Effect :=
  if not_ (trim (nickname a)) then [Alert "Validation" "Nickname is required"]
  else [Fetch "POST" (String.append (serverUrl a) "/lobby")
          (Some (create_body a))].

(** [JSON.stringify({ nickname, code: lobbyCode })] as the server parses
    it. *)
Definition join_body (a : State) : Json :=
  JObject [("nickname", JString (nickname a));
           ("code", JString (lobbyCode a))].

(** [handleJoin] up to its first [await]. *)
Definition handleJoin_request (a : State) : list Effect :=
  if not_ (trim (nickname a)) || not_ (trim (lobbyCode a))
  then [Alert "Validation" "Nickname and lobby code are required"]
  else [Fetch "POST" (String.append (serverUrl a) "/lobby/join")
          (Some (join_body a))].

End App.

(** A client on the lobby screen with something typed. *)
Definition sample_app (typed : string) : App.State :=
  {| App.screen := App.lobby; App.nickname := "Alice";
     App.lobbyCode := "BGLRV2"; App.serverUrl := "http://localhost:3001";
     App.apiKey := ""; App.users := ["Alice"]; App.messages := [];
     App.inputMessage := typed; App.socketRef := Some "s1" |}.

(** A string made of white space only (the empty string included). *)
Definition blank (s : string) : Prop :=
  Forall (fun ch => App.is_space ch = true) (String.list_ascii_of_string s).

(** * Properties *)

(** ** Ordering of fetched rows *)

Lemma insert_by_createdAt_perm (r : Row) (l : list Row) :
  Permutation (insert_by_createdAt r l) (r :: l).
Proof.
  induction l as [|r' l IH]; simpl.
  - reflexivity.
  - destruct (createdAt r <? createdAt r'); [reflexivity|].
    rewrite IH. apply perm_swap.
Qed.

Lemma insert_by_createdAt_hd (r a : Row) (l : list Row) :
  createdAt a <= createdAt r ->
  HdRel createdAt_le a l -> HdRel createdAt_le a (insert_by_createdAt r l).
Proof.
  intros Har Hal. destruct l as [|r' l]; simpl.
  - constructor. exact Har.
  - destruct (createdAt r <? createdAt r'); constructor.
    + exact Har.
    + inversion Hal; assumption.
Qed.

Lemma insert_by_createdAt_sorted (r : Row) (l : list Row) :
  Sorted createdAt_le l -> Sorted createdAt_le (insert_by_createdAt r l).
Proof.
  induction 1 as [|r' l Hs IH Hhd]; simpl.
  - repeat constructor.
  - destruct (createdAt r <? createdAt r') eqn:Hlt.
    + apply Z.ltb_lt in Hlt.
      constructor; [constructor; assumption|].
      constructor. unfold createdAt_le. lia.
    + apply Z.ltb_ge in Hlt.
      constructor; [exact IH|].
      apply insert_by_createdAt_hd; assumption.
Qed.

Lemma foldl_insert_sorted (l acc : list Row) :
  Sorted createdAt_le acc ->
  Sorted createdAt_le (foldl (fun acc r => insert_by_createdAt r acc) acc l).
Proof.
  revert acc. induction l as [|r l IH]; intros acc Hacc; simpl.
  - exact Hacc.
  - apply IH, insert_by_createdAt_sorted, Hacc.
Qed.

Lemma foldl_insert_perm (l acc : list Row) :
  Permutation (foldl (fun acc r => insert_by_createdAt r acc) acc l)
              (acc ++ l).
Proof.
  revert acc. induction l as [|r l IH]; intros acc; simpl.
  - rewrite app_nil_r. reflexivity.
  - rewrite IH, insert_by_createdAt_perm.
    apply Permutation_middle.
Qed.

Lemma order_by_createdAt_sorted (l : list Row) :
  Sorted createdAt_le (order_by_createdAt l).
Proof. apply foldl_insert_sorted. constructor. Qed.

Lemma order_by_createdAt_perm (l : list Row) :
  Permutation (order_by_createdAt l) l.
Proof. apply (foldl_insert_perm l []). Qed.

Lemma where_lobbyCode_In (c : string) (l : list Row) (r : Row) :
  In r (where_lobbyCode c l) <-> In r l /\ lobbyCode r = c.
Proof.
  unfold where_lobbyCode. rewrite filter_In, String.eqb_eq. reflexivity.
Qed.

Lemma where_lobbyCode_app (c : string) (l1 l2 : list Row) :
  where_lobbyCode c (l1 ++ l2) = where_lobbyCode c l1 ++ where_lobbyCode c l2.
Proof. apply List.filter_app. Qed.

(** ** Reading the registry *)

Lemma lobbies_has_true (w : World) (c : string) :
  is_Some (lobbies w !! c) -> lobbies_has c w = (Normal true, w).
Proof.
  intros H. unfold lobbies_has. rewrite bool_decide_eq_true_2; auto.
Qed.

Lemma lobbies_has_false (w : World) (c : string) :
  lobbies w !! c = None -> lobbies_has c w = (Normal false, w).
Proof.
  intros H. unfold lobbies_has. rewrite bool_decide_eq_false_2; auto.
  rewrite H. intros [x Hx]. discriminate.
Qed.

(** ** History *)

(** C8. [GET /lobby/:code/messages] answers 404 "Lobby not found" when the
    lobby is not registered; otherwise it answers with exactly the stored
    rows of that lobby (each of them, as many times as stored, and no row of
    another lobby), in ascending order of [createdAt].  Neither case changes
    the world. *)
Theorem fetchHistory_sorted_rows_of_lobby (w : World) (c : string) :
  get_lobby_messages c w =
    match lobbies w !! c with
    | None =>
        (Normal {| status := 404; body := ErrorBody "Lobby not found" |}, w)
    | Some _ =>
        (Normal {| status := 200;
                   body := MessagesBody
                     (order_by_createdAt (where_lobbyCode c (rows (db w)))) |},
         w)
    end
  /\ Sorted createdAt_le (order_by_createdAt (where_lobbyCode c (rows (db w))))
  /\ Permutation (order_by_createdAt (where_lobbyCode c (rows (db w))))
       (where_lobbyCode c (rows (db w)))
  /\ (forall r : Row,
        In r (order_by_createdAt (where_lobbyCode c (rows (db w)))) <->
        In r (rows (db w)) /\ lobbyCode r = c)
  /\ length (order_by_createdAt (where_lobbyCode c (rows (db w)))) =
     length (where_lobbyCode c (rows (db w))).
Proof.
  split; [|split; [|split; [|split]]].
  - unfold get_lobby_messages, bind.
    destruct (lobbies w !! c) as [l|] eqn:Hl.
    + rewrite lobbies_has_true by (rewrite Hl; eauto). reflexivity.
    + rewrite lobbies_has_false by exact Hl. reflexivity.
  - apply order_by_createdAt_sorted.
  - apply order_by_createdAt_perm.
  - intros r. rewrite <- where_lobbyCode_In.
    split; apply Permutation_in;
      [|symmetry]; apply order_by_createdAt_perm.
  - apply Permutation_length, order_by_createdAt_perm.
Qed.

(** ** Rejected requests *)

Lemma callback_opt_spec (callback : bool) (s : string) (e : option string)
  (w : World) :
  fst (callback_opt callback s e w) = Normal tt /\
  same_state w (snd (callback_opt callback s e w)) /\
  trace (snd (callback_opt callback s e w)) = trace w ++ acked callback s e.
Proof.
  unfold same_state, acked.
  destruct callback; simpl; rewrite ?app_nil_r; tauto.
Qed.

Lemma string_min_max_out (lo hi : nat) (s : string) :
  (String.length s < lo \/ hi < String.length s)%nat ->
  z.string_min_max lo hi (JString s) = None.
Proof.
  intros H. unfold z.string_min_max.
  destruct (lo <=? String.length s)%nat eqn:E1;
    destruct (String.length s <=? hi)%nat eqn:E2; simpl; try reflexivity.
  apply Nat.leb_le in E1, E2. lia.
Qed.

Lemma string_min_max_in (lo hi : nat) (s : string) :
  (lo <= String.length s <= hi)%nat ->
  z.string_min_max lo hi (JString s) = Some s.
Proof.
  intros [H1 H2]. unfold z.string_min_max.
  apply Nat.leb_le in H1, H2. rewrite H1, H2. reflexivity.
Qed.

(** C6. A [message] event whose [content] is a string of length 0 or of
    length above 400 is turned down: the handler returns normally, the maps,
    the table and the parked calls are what they were, and the only output
    is the acknowledgement [{ error: 'Invalid payload' }] handed to the
    sender's callback (nothing at all when the sender passed none); in
    particular nothing is emitted to the lobby. *)
Theorem send_bad_length_rejected (w : World) (socket_id : string)
  (o : list (string * Json)) (text : string) (callback : bool) :
  prop o "content" = JString text ->
  (String.length text = 0 \/ 400 < String.length text)%nat ->
  fst (on_message socket_id (JObject o) callback w) = Normal tt /\
  same_state w (snd (on_message socket_id (JObject o) callback w)) /\
  trace (snd (on_message socket_id (JObject o) callback w)) =
    trace w ++ acked callback socket_id (Some "Invalid payload").
Proof.
  intros Hc Hlen.
  assert (Hp : messageSchema (JObject o) = None).
  { unfold messageSchema. rewrite Hc, string_min_max_out by lia.
    destruct (z.string (prop o "code")), (z.string (prop o "nickname"));
      reflexivity. }
  unfold on_message. rewrite Hp. apply callback_opt_spec.
Qed.

Lemma send_bad_length_rejected_witness :
  (String.length "" = 0 \/ 400 < String.length "")%nat /\
  trace (snd (on_message "s1" (JObject (says "Alice" "")) true
                (sample_joined false None))) =
    trace (sample_joined false None) ++ [Ack "s1" (Some "Invalid payload")].
Proof.
  split; [left; reflexivity|].
  apply (send_bad_length_rejected (sample_joined false None) "s1"
           (says "Alice" "") "" true); [reflexivity | left; reflexivity].
Defined.

(** ** Unknown lobbies *)

(** C7. A join that names a code with no registered lobby never succeeds,
    on either surface.  [POST /lobby/join] answers with an error body, 404
    "Lobby not found" when the payload passes the schema and 400 "Invalid
    payload" otherwise, and leaves the world as it was.  The [joinLobby]
    event leaves the maps, the table and the parked calls as they were,
    joins no room, emits no roster, and its only output is the
    acknowledgement carrying the same error text. *)
Theorem join_unknown_lobby_rejected (w : World) (socket_id : string)
  (o : list (string * Json)) (c : string) (callback : bool) :
  prop o "code" = JString c ->
  lobbies w !! c = None ->
  exists (st : Z) (error : string),
    ((st = 404 /\ error = "Lobby not found" /\
      is_Some (joinLobbySchema (JObject o))) \/
     (st = 400 /\ error = "Invalid payload" /\
      joinLobbySchema (JObject o) = None)) /\
    post_lobby_join (JObject o) w =
      (Normal {| status := st; body := ErrorBody error |}, w) /\
    fst (on_joinLobby socket_id (JObject o) callback w) = Normal tt /\
    same_state w (snd (on_joinLobby socket_id (JObject o) callback w)) /\
    trace (snd (on_joinLobby socket_id (JObject o) callback w)) =
      trace w ++ acked callback socket_id (Some error).
Proof.
  intros Hc Hnone.
  destruct (joinLobbySchema (JObject o)) as [d|] eqn:Hp.
  - assert (Hd : jl_code d = c).
    { unfold joinLobbySchema in Hp. rewrite Hc in Hp.
      unfold z.string_min_max in Hp at 1.
      destruct ((4 <=? String.length c)%nat && (String.length c <=? 10)%nat);
        [|discriminate].
      destruct (z.string_min_max 1 32 (prop o "nickname")); [|discriminate].
      injection Hp as <-. reflexivity. }
    exists 404, "Lobby not found". split; [left; eauto|].
    unfold post_lobby_join, on_joinLobby, bind. rewrite Hp, Hd.
    rewrite (lobbies_has_false w c Hnone). simpl negb. cbv iota.
    split; [reflexivity|]. apply callback_opt_spec.
  - exists 400, "Invalid payload". split; [right; eauto|].
    unfold post_lobby_join, on_joinLobby. rewrite Hp.
    split; [reflexivity|]. apply callback_opt_spec.
Qed.

Lemma join_unknown_lobby_rejected_witness :
  exists (st : Z) (error : string),
    ((st = 404 /\ error = "Lobby not found" /\
      is_Some (joinLobbySchema
                 (JObject [("code", JString "ZZZZZZ");
                           ("nickname", JString "Bob")]))) \/
     (st = 400 /\ error = "Invalid payload" /\
      joinLobbySchema
        (JObject [("code", JString "ZZZZZZ");
                  ("nickname", JString "Bob")]) = None)) /\
    post_lobby_join
      (JObject [("code", JString "ZZZZZZ"); ("nickname", JString "Bob")])
      (sample_joined false None) =
      (Normal {| status := st; body := ErrorBody error |},
       sample_joined false None) /\
    fst (on_joinLobby "s2"
           (JObject [("code", JString "ZZZZZZ"); ("nickname", JString "Bob")])
           true (sample_joined false None)) = Normal tt /\
    same_state (sample_joined false None)
      (snd (on_joinLobby "s2"
              (JObject [("code", JString "ZZZZZZ");
                        ("nickname", JString "Bob")])
              true (sample_joined false None))) /\
    trace (snd (on_joinLobby "s2"
                  (JObject [("code", JString "ZZZZZZ");
                            ("nickname", JString "Bob")])
                  true (sample_joined false None))) =
      trace (sample_joined false None) ++ acked true "s2" (Some error).
Proof.
  apply (join_unknown_lobby_rejected (sample_joined false None) "s2"
           [("code", JString "ZZZZZZ"); ("nickname", JString "Bob")]
           "ZZZZZZ" true); [reflexivity | vm_compute; reflexivity].
Defined.

(** ** Lobby codes *)

Lemma Math_floor_times_range (r : Q) (n : nat) :
  (0 <= r)%Q -> (r < 1)%Q -> (0 < n)%nat ->
  0 <= Math_floor_times r n < Z.of_nat n.
Proof.
  destruct r as [a b]. unfold Qle, Qlt, Math_floor_times, Qfloor; simpl.
  intros H0 H1 Hn.
  rewrite Pos.mul_1_r.
  assert (Ha : 0 <= a < Z.pos b) by lia.
  split.
  - apply Z.div_pos; nia.
  - apply Z.div_lt_upper_bound; nia.
Qed.

Lemma get_in_range (s : string) (n : nat) :
  (n < String.length s)%nat ->
  exists ch, String.get n s = Some ch /\ In ch (String.list_ascii_of_string s).
Proof.
  revert n. induction s as [|a s IH]; intros n Hn; simpl in Hn.
  - lia.
  - destruct n as [|n]; simpl.
    + exists a. auto.
    + destruct (IH n) as (ch & Hg & Hin); [lia|].
      exists ch. auto.
Qed.

Lemma list_ascii_of_string_append (s t : string) :
  String.list_ascii_of_string (String.append s t) =
  String.list_ascii_of_string s ++ String.list_ascii_of_string t.
Proof. induction s as [|a s IH]; simpl; [reflexivity|]. rewrite IH. reflexivity. Qed.

Lemma length_string_append (s t : string) :
  String.length (String.append s t) = (String.length s + String.length t)%nat.
Proof. induction s as [|a s IH]; simpl; [reflexivity|]. rewrite IH. reflexivity. Qed.

Lemma append_alphabet_at_ok (code : string) (i : Z) :
  0 <= i < Z.of_nat (String.length alphabet) ->
  String.length (append_alphabet_at code i) = S (String.length code) /\
  (in_alphabet code -> in_alphabet (append_alphabet_at code i)).
Proof.
  intros Hi. unfold append_alphabet_at.
  destruct (0 <=? i) eqn:E; [|apply Z.leb_gt in E; lia].
  destruct (get_in_range alphabet (Z.to_nat i)) as (ch & Hg & Hin); [lia|].
  rewrite Hg. split.
  - rewrite length_string_append. simpl. lia.
  - unfold in_alphabet. rewrite list_ascii_of_string_append. simpl.
    intros H. apply Forall_app. split; [exact H|]. constructor; auto.
Qed.

Lemma generateCode_loop_ok (rounds : nat) (code : string) (w : World) :
  random_in_unit_interval (env w) ->
  exists (out : string) (w' : World),
    generateCode_loop rounds code w = (Normal out, w') /\
    String.length out = (String.length code + rounds)%nat /\
    (in_alphabet code -> in_alphabet out) /\
    same_state w w' /\ trace w' = trace w /\ env w' = env w.
Proof.
  revert code w. induction rounds as [|rounds IH]; intros code w Hr.
  - exists code, w. simpl. unfold ret, same_state.
    rewrite Nat.add_0_r. tauto.
  - simpl. unfold bind, Math_random.
    set (i := Math_floor_times _ _).
    assert (Hi : 0 <= i < Z.of_nat (String.length alphabet)).
    { apply Math_floor_times_range; try apply Hr. simpl. lia. }
    destruct (append_alphabet_at_ok code i Hi) as [Hlen Hin].
    match goal with
    | |- context [generateCode_loop rounds ?c ?v] =>
        destruct (IH c v) as (out & w' & Hrun & Hl & Ha & Hs & Ht & He)
    end; [exact Hr|].
    exists out, w'. rewrite Hrun.
    split; [reflexivity|]. split; [lia|]. split; [tauto|].
    split; [exact Hs|]. split; [exact Ht | exact He].
Qed.

(** C5. On a body whose nickname is a string of 1 to 32 characters and whose
    credential is absent or a string of 1 to 200 characters, and with every
    reading of [Math.random()] in [0, 1), [POST /lobby] answers 200 with a
    code of exactly 6 characters, each of them one of the 32 symbols of
    [alphabet]; the lobby is registered under that code. *)
Theorem createLobby_code_shape (w : World) (o : list (string * Json))
  (nickname : string) (key : option string) :
  prop o "nickname" = JString nickname ->
  (1 <= String.length nickname <= 32)%nat ->
  prop o "openaiApiKey" =
    match key with Some k => JString k | None => JUndefined end ->
  match key with
  | Some k => (1 <= String.length k <= 200)%nat
  | None => True
  end ->
  random_in_unit_interval (env w) ->
  exists c : string,
    fst (post_lobby (JObject o) w) =
      Normal {| status := 200; body := CodeBody c |} /\
    String.length c = 6%nat /\ in_alphabet c /\
    String.length alphabet = 32%nat /\
    is_Some (lobbies (snd (post_lobby (JObject o) w)) !! c).
Proof.
  intros Hn Hnlen Hk Hklen Hr.
  assert (Hp : exists d, createLobbySchema (JObject o) = Some d).
  { unfold createLobbySchema. rewrite Hn, Hk.
    rewrite string_min_max_in by exact Hnlen.
    destruct key as [k|]; unfold z.optional.
    - rewrite string_min_max_in by exact Hklen. eauto.
    - eauto. }
  destruct Hp as [d Hp].
  destruct (generateCode_loop_ok 6 "" w Hr)
    as (c & w' & Hrun & Hl & Ha & _).
  exists c. unfold post_lobby. rewrite Hp.
  unfold bind, generateCode. rewrite Hrun. simpl.
  split; [reflexivity|]. split; [exact Hl|].
  split; [apply Ha; constructor|]. split; [reflexivity|].
  unfold keep. rewrite lookup_insert_eq. eauto.
Qed.

Lemma sample_env_random (disk_fails : bool) (key : option string) :
  random_in_unit_interval (sample_env disk_fails key).
Proof.
  intros n. unfold sample_env, Math_random_at.
  set (x := Z.of_nat (7 * n + 3) mod 50).
  assert (Hx : 0 <= x < 50) by (apply Z.mod_pos_bound; lia).
  unfold Qle, Qlt, Qnum, Qden. lia.
Qed.

Lemma createLobby_code_shape_witness :
  exists c : string,
    fst (post_lobby alice_creates (boot (sample_env false None) empty_table)) =
      Normal {| status := 200; body := CodeBody c |} /\
    String.length c = 6%nat /\ in_alphabet c /\
    String.length alphabet = 32%nat /\
    is_Some (lobbies (snd (post_lobby alice_creates
                             (boot (sample_env false None) empty_table)))
               !! c).
Proof.
  apply (createLobby_code_shape (boot (sample_env false None) empty_table)
           [("nickname", JString "Alice")] "Alice" None).
  - reflexivity.
  - simpl. lia.
  - reflexivity.
  - exact I.
  - apply sample_env_random.
Defined.

(** ** Accepted sends *)

Lemma messageSchema_well_formed (o : list (string * Json))
  (c nickname text : string) :
  well_formed_send o c nickname text ->
  messageSchema (JObject o) =
    Some {| mi_code := c; mi_nickname := nickname; mi_content := text |}.
Proof.
  intros (Hc & Hn & Ht & Hlen). unfold messageSchema.
  rewrite Hc, Hn, Ht, string_min_max_in by exact Hlen. reflexivity.
Qed.

(** What an accepted send does, by whether the lobby holds a usable key. *)
Lemma on_message_accepted (w : World) (socket_id : string)
  (o : list (string * Json)) (c nickname text : string) (callback : bool)
  (l : LobbyData) :
  well_formed_send o c nickname text ->
  lobbies w !! c = Some l ->
  write_fails_at (env w) (writes w) = false ->
  let w' := snd (on_message socket_id (JObject o) callback w) in
  fst (on_message socket_id (JObject o) callback w) = Normal tt /\
  lobbies w' = lobbies w /\ lobbyUsers w' = lobbyUsers w /\
  socketToLobby w' = socketToLobby w /\
  socketToNickname w' = socketToNickname w /\
  db w' = {| rows := rows (db w) ++ [user_row w c nickname text];
             seq := seq (db w) + 1 |} /\
  match truthy (openaiKey l) with
  | None =>
      awaiting w' = awaiting w /\
      trace w' =
        trace w ++
        [Emit c "message" (MessagePayload (user_message w nickname text));
         Emit c "message"
           (MessagePayload
              (notice no_key_text
                 (Date_now_at (env w) (S (ticks w)))
                 (Date_now_at (env w) (S (S (ticks w))))))] ++
        acked callback socket_id None
  | Some key =>
      awaiting w' =
        awaiting w ++
        [{| sus_code := c; sus_content := text; sus_apiKey := key |}] /\
      trace w' =
        trace w ++
        [Emit c "message" (MessagePayload (user_message w nickname text))] ++
        acked callback socket_id None
  end.
Proof.
  intros Hwf Hl Hw. cbv zeta.
  remember (on_message socket_id (JObject o) callback w) as r eqn:Hr.
  unfold on_message in Hr.
  rewrite (messageSchema_well_formed _ _ _ _ Hwf) in Hr.
  cbn [mi_code mi_nickname mi_content] in Hr.
  unfold sendAssistantMessage in Hr.
  unfold user_row, user_message, notice, acked.
  destruct w as [e tk dr wr lb lu sl sn d aw tr]. simpl in Hl, Hw.
  js_run_in Hr. rewrite Hl in Hr.
  rewrite bool_decide_eq_true_2 in Hr by eauto.
  rewrite Hw in Hr. js_run_in Hr. rewrite Hl in Hr.
  destruct (truthy (openaiKey l)) as [key|]; destruct callback;
    js_run_in Hr; subst r; simpl;
    rewrite <- ?app_assoc; simpl; rewrite ?app_nil_r; repeat split.
Qed.

Lemma history_registered (w : World) (c : string) :
  is_Some (lobbies w !! c) ->
  history c w = order_by_createdAt (where_lobbyCode c (rows (db w))).
Proof.
  intros H. unfold history, get_lobby_messages, bind.
  rewrite lobbies_has_true by exact H. reflexivity.
Qed.

Lemma where_lobbyCode_user_row (w : World) (c nickname text : string) :
  where_lobbyCode c (rows (db w) ++ [user_row w c nickname text]) =
  where_lobbyCode c (rows (db w)) ++ [user_row w c nickname text].
Proof.
  rewrite where_lobbyCode_app. f_equal.
  unfold where_lobbyCode, user_row. simpl. rewrite String.eqb_refl.
  reflexivity.
Qed.

(** C10. The sender label of an accepted send is the payload's [nickname]
    as given: for every string [nickname] (no bound on its length, the empty
    string included) and every world (whatever name the socket registered
    when it joined), the stored row and the broadcast message carry exactly
    that string as their sender. *)
Theorem sender_label_verbatim (w : World) (socket_id : string)
  (o : list (string * Json)) (c nickname text : string) (callback : bool) :
  well_formed_send o c nickname text ->
  is_Some (lobbies w !! c) ->
  write_fails_at (env w) (writes w) = false ->
  let w' := snd (on_message socket_id (JObject o) callback w) in
  fst (on_message socket_id (JObject o) callback w) = Normal tt /\
  rows (db w') = rows (db w) ++ [user_row w c nickname text] /\
  sender (user_row w c nickname text) = nickname /\
  msg_sender (user_message w nickname text) = nickname /\
  exists rest : list Effect,
    trace w' =
      trace w ++
      Emit c "message" (MessagePayload (user_message w nickname text)) :: rest.
Proof.
  intros Hwf [l Hl] Hw.
  destruct (on_message_accepted w socket_id o c nickname text callback l
              Hwf Hl Hw) as (Hfst & _ & _ & _ & _ & Hdb & Hcase).
  cbv zeta. split; [exact Hfst|]. split; [rewrite Hdb; reflexivity|].
  split; [reflexivity|]. split; [reflexivity|].
  destruct (truthy (openaiKey l)); destruct Hcase as [_ ->]; eauto.
Qed.

Lemma sender_label_verbatim_witness :
  socketToNickname (sample_joined false None) !! "s1" = Some "Alice" /\
  (32 < String.length long_label)%nat /\
  let w := sample_joined false None in
  let w' := snd (on_message "s1" (JObject (says long_label "hello")) true w) in
  fst (on_message "s1" (JObject (says long_label "hello")) true w) =
    Normal tt /\
  rows (db w') = rows (db w) ++ [user_row w "BGLRV2" long_label "hello"] /\
  sender (user_row w "BGLRV2" long_label "hello") = long_label /\
  msg_sender (user_message w long_label "hello") = long_label /\
  exists rest : list Effect,
    trace w' =
      trace w ++
      Emit "BGLRV2" "message"
        (MessagePayload (user_message w long_label "hello")) :: rest.
Proof.
  split; [vm_compute; reflexivity|]. split; [vm_compute; lia|].
  apply (sender_label_verbatim (sample_joined false None) "s1"
           (says long_label "hello") "BGLRV2" long_label "hello" true).
  - repeat split; simpl; lia.
  - vm_compute. eauto.
  - vm_compute. reflexivity.
Defined.

(** An empty sender label is taken as well. *)
Example empty_sender_label_stored :
  map sender (history "BGLRV2"
     (handle (SendMessage "s1" (JObject (says "" "hello")) true)
        (sample_joined false None))) = [""].
Proof. vm_compute. reflexivity. Qed.

(** ** Settled provider calls *)

Lemma on_settled_rejected (w : World) (k : nat) (s : Suspended)
  (reason : string) :
  awaiting w !! k = Some s ->
  let w' := snd (on_settled k (Rejected reason) w) in
  fst (on_settled k (Rejected reason) w) = Normal tt /\
  lobbies w' = lobbies w /\ lobbyUsers w' = lobbyUsers w /\
  socketToLobby w' = socketToLobby w /\
  socketToNickname w' = socketToNickname w /\
  db w' = db w /\
  awaiting w' = take k (awaiting w) ++ drop (S k) (awaiting w) /\
  trace w' =
    trace w ++
    [ConsoleError "OpenAI error" (ProviderError reason);
     Emit (sus_code s) "message"
       (MessagePayload
          (notice unavailable_text
             (Date_now_at (env w) (ticks w))
             (Date_now_at (env w) (S (ticks w)))))].
Proof.
  intros Hk. cbv zeta.
  remember (on_settled k (Rejected reason) w) as r eqn:Hr.
  unfold on_settled in Hr. rewrite Hk in Hr.
  unfold sendAssistantMessage_resume, notice in *.
  destruct w as [e tk dr wr lb lu sl sn d aw tr].
  js_run_in Hr. subst r. simpl.
  rewrite <- app_assoc. repeat split.
Qed.

(** A call that the provider answers, when the write of the reply goes
    through. *)
Lemma on_settled_fulfilled (w : World) (k : nat) (s : Suspended)
  (choices : list Choice) :
  awaiting w !! k = Some s ->
  write_fails_at (env w) (writes w) = false ->
  let now := Date_now_at (env w) (ticks w) in
  let w' := snd (on_settled k (Fulfilled choices) w) in
  fst (on_settled k (Fulfilled choices) w) = Normal tt /\
  lobbies w' = lobbies w /\
  db w' =
    {| rows := rows (db w) ++
         [{| id := seq (db w) + 1; lobbyCode := sus_code s; sender := "DM";
             role := "assistant"; content := first_choice_text choices;
             createdAt := now |}];
       seq := seq (db w) + 1 |} /\
  trace w' =
    trace w ++
    [Emit (sus_code s) "message"
       (MessagePayload
          {| msg_id := now; msg_sender := "DM"; msg_role := "assistant";
             msg_content := first_choice_text choices;
             msg_createdAt := now |})].
Proof.
  intros Hk Hw. cbv zeta.
  remember (on_settled k (Fulfilled choices) w) as r eqn:Hr.
  unfold on_settled in Hr. rewrite Hk in Hr.
  unfold sendAssistantMessage_resume in Hr.
  destruct w as [e tk dr wr lb lu sl sn d aw tr]. simpl in Hw.
  js_run_in Hr. rewrite Hw in Hr. js_run_in Hr. subst r. simpl.
  repeat split.
Qed.

(** ** The sample run, computed *)

Lemma sample_history_no_key :
  history "BGLRV2" (sample_sent false None) =
    [{| id := 1; lobbyCode := "BGLRV2"; sender := "Alice"; role := "user";
        content := "hello"; createdAt := 1700000000000 |}].
Proof. vm_compute. reflexivity. Qed.

Lemma sample_history_provider_failed :
  history "BGLRV2" (sample_provider_failed (Some "sk-sample")) =
    [{| id := 1; lobbyCode := "BGLRV2"; sender := "Alice"; role := "user";
        content := "hello"; createdAt := 1700000000000 |}].
Proof. vm_compute. reflexivity. Qed.

Lemma sample_trace_failed_write :
  trace (sample_sent true None) =
    [SocketJoin "s1" "BGLRV2";
     Emit "BGLRV2" "users" (UsersPayload ["Alice"]);
     Ack "s1" None].
Proof. vm_compute. reflexivity. Qed.

Lemma sample_joined_lobby_of_s1 :
  socketToLobby (sample_joined false None) !! "s1" = Some "BGLRV2".
Proof. vm_compute. reflexivity. Qed.

(** ** Identifiers *)

(** C2, as stated, does not hold: after Alice's send into an empty table
    the history holds her one message, whose identifier is 1 while its
    [createdAt] is the clock reading; the write itself returned 1 as well. *)
Lemma stored_id_is_not_timestamp :
  exists r : Row,
    history "BGLRV2" (sample_sent false None) = [r] /\
    id r = 1 /\ createdAt r = 1700000000000 /\ id r <> createdAt r /\
    fst (insertMessage_run "BGLRV2" "Alice" "user" "hello" 1700000000000
           (sample_joined false None)) =
      Normal {| changes := 1; lastInsertRowid := 1 |}.
Proof.
  eexists. split; [apply sample_history_no_key|].
  split; [reflexivity|]. split; [reflexivity|].
  split; [discriminate|]. vm_compute. reflexivity.
Qed.

(** C2, amended.  On an accepted send the broadcast message carries the
    clock reading both as [id] and as [createdAt].  The stored row carries
    that reading as [createdAt] only: its [id] is the next rowid of the
    table, one more than the largest handed out so far, which is also what
    the write returns; the history of the lobby then contains that row.  The
    same holds for a reply of the provider: broadcast with the clock reading
    as [id] and [createdAt], stored under the next rowid. *)
Theorem ids_of_an_accepted_send (w : World) (socket_id : string)
  (o : list (string * Json)) (c nickname text : string) (callback : bool) :
  well_formed_send o c nickname text ->
  is_Some (lobbies w !! c) ->
  write_fails_at (env w) (writes w) = false ->
  let now := Date_now_at (env w) (ticks w) in
  let w' := snd (on_message socket_id (JObject o) callback w) in
  (exists (m : Message) (rest : list Effect),
     trace w' = trace w ++ Emit c "message" (MessagePayload m) :: rest /\
     msg_id m = now /\ msg_createdAt m = now) /\
  (exists r : Row,
     rows (db w') = rows (db w) ++ [r] /\
     createdAt r = now /\ id r = seq (db w) + 1 /\
     In r (history c w')) /\
  seq (db w') = seq (db w) + 1 /\
  fst (insertMessage_run c nickname "user" text now w) =
    Normal {| changes := 1; lastInsertRowid := seq (db w) + 1 |} /\
  forall (w2 : World) (k : nat) (s : Suspended) (choices : list Choice),
    awaiting w2 !! k = Some s ->
    write_fails_at (env w2) (writes w2) = false ->
    let now2 := Date_now_at (env w2) (ticks w2) in
    let w3 := snd (on_settled k (Fulfilled choices) w2) in
    (exists m : Message,
       trace w3 =
         trace w2 ++ [Emit (sus_code s) "message" (MessagePayload m)] /\
       msg_role m = "assistant" /\
       msg_id m = now2 /\ msg_createdAt m = now2) /\
    (exists r : Row,
       rows (db w3) = rows (db w2) ++ [r] /\ role r = "assistant" /\
       createdAt r = now2 /\ id r = seq (db w2) + 1).
Proof.
  intros Hwf [l Hl] Hw.
  destruct (on_message_accepted w socket_id o c nickname text callback l
              Hwf Hl Hw) as (_ & Hlob & _ & _ & _ & Hdb & Hcase).
  cbv zeta. split; [|split; [|split; [|split]]].
  - exists (user_message w nickname text).
    destruct (truthy (openaiKey l)); destruct Hcase as [_ ->]; eauto.
  - exists (user_row w c nickname text).
    rewrite Hdb. repeat split.
    rewrite history_registered by (rewrite Hlob, Hl; eauto).
    rewrite Hdb. simpl rows.
    apply (Permutation_in _ (Permutation_sym (order_by_createdAt_perm _))).
    rewrite where_lobbyCode_user_row. apply in_or_app. right. left.
    reflexivity.
  - rewrite Hdb. reflexivity.
  - unfold insertMessage_run. rewrite Hw. reflexivity.
  - intros w2 k s choices Hk Hw2.
    destruct (on_settled_fulfilled w2 k s choices Hk Hw2)
      as (_ & _ & Hdb2 & Htr2).
    split.
    + eexists. split; [exact Htr2|]. repeat split.
    + eexists. rewrite Hdb2. repeat split.
Qed.

Lemma ids_of_an_accepted_send_witness :
  let w := sample_joined false None in
  let now := Date_now_at (env w) (ticks w) in
  let w' := snd (on_message "s1" (JObject hello) true w) in
  (exists (m : Message) (rest : list Effect),
     trace w' = trace w ++ Emit "BGLRV2" "message" (MessagePayload m) :: rest /\
     msg_id m = now /\ msg_createdAt m = now) /\
  (exists r : Row,
     rows (db w') = rows (db w) ++ [r] /\
     createdAt r = now /\ id r = seq (db w) + 1 /\
     In r (history "BGLRV2" w')) /\
  seq (db w') = seq (db w) + 1 /\
  fst (insertMessage_run "BGLRV2" "Alice" "user" "hello" now w) =
    Normal {| changes := 1; lastInsertRowid := seq (db w) + 1 |} /\
  forall (w2 : World) (k : nat) (s : Suspended) (choices : list Choice),
    awaiting w2 !! k = Some s ->
    write_fails_at (env w2) (writes w2) = false ->
    let now2 := Date_now_at (env w2) (ticks w2) in
    let w3 := snd (on_settled k (Fulfilled choices) w2) in
    (exists m : Message,
       trace w3 =
         trace w2 ++ [Emit (sus_code s) "message" (MessagePayload m)] /\
       msg_role m = "assistant" /\
       msg_id m = now2 /\ msg_createdAt m = now2) /\
    (exists r : Row,
       rows (db w3) = rows (db w2) ++ [r] /\ role r = "assistant" /\
       createdAt r = now2 /\ id r = seq (db w2) + 1).
Proof.
  apply (ids_of_an_accepted_send (sample_joined false None) "s1" hello
           "BGLRV2" "Alice" "hello" true).
  - repeat split; simpl; lia.
  - vm_compute. eauto.
  - vm_compute. reflexivity.
Defined.

(** A reply of the provider in the sample lobby: stored under rowid 2 with
    the clock reading as [createdAt], after Alice's row. *)
Example sample_reply_ids :
  map (fun r => (id r, role r, createdAt r))
    (history "BGLRV2"
       (handle (ProviderSettles 0
                  (Fulfilled [{| message := Some (Some "Welcome!") |}]))
          (sample_sent false (Some "sk-sample")))) =
  [(1, "user", 1700000000000); (2, "assistant", 1700000000001)].
Proof. vm_compute. reflexivity. Qed.

(** ** The assistant without a key *)

(** C1, as stated, does not hold: in the sample lobby, which holds no key,
    Alice's send makes the server broadcast the assistant's notice, yet the
    history of the lobby afterwards holds her message alone and no row of
    role [assistant]. *)
Lemma no_key_notice_not_in_history :
  (exists t_id t_created : Z,
     In (Emit "BGLRV2" "message"
           (MessagePayload (notice no_key_text t_id t_created)))
        (trace (sample_sent false None))) /\
  map role (history "BGLRV2" (sample_sent false None)) = ["user"] /\
  ~ (exists r : Row,
       In r (history "BGLRV2" (sample_sent false None)) /\
       role r = "assistant").
Proof.
  split; [|split].
  - exists 1700000000001, 1700000000002. vm_compute. tauto.
  - rewrite sample_history_no_key. reflexivity.
  - intros (r & Hin & Hrole). rewrite sample_history_no_key in Hin.
    destruct Hin as [<-|[]]. discriminate.
Qed.

(** C1, amended.  When the lobby holds no usable key, an accepted send
    makes the server emit to the lobby, right after the user's message,
    exactly one message of role [assistant] from [DM] with the fixed text
    [no_key_text]; no provider call is parked.  That notice is not written
    to the table: the send adds the user's row and nothing else, and the
    history of the lobby grows by that one row. *)
Theorem no_key_notice_broadcast_only (w : World) (socket_id : string)
  (o : list (string * Json)) (c nickname text : string) (callback : bool)
  (l : LobbyData) :
  well_formed_send o c nickname text ->
  lobbies w !! c = Some l ->
  truthy (openaiKey l) = None ->
  write_fails_at (env w) (writes w) = false ->
  let w' := snd (on_message socket_id (JObject o) callback w) in
  trace w' =
    trace w ++
    [Emit c "message" (MessagePayload (user_message w nickname text));
     Emit c "message"
       (MessagePayload
          (notice no_key_text
             (Date_now_at (env w) (S (ticks w)))
             (Date_now_at (env w) (S (S (ticks w))))))] ++
    acked callback socket_id None /\
  awaiting w' = awaiting w /\
  rows (db w') = rows (db w) ++ [user_row w c nickname text] /\
  history c w' =
    order_by_createdAt
      (where_lobbyCode c (rows (db w)) ++ [user_row w c nickname text]).
Proof.
  intros Hwf Hl Hkey Hw.
  destruct (on_message_accepted w socket_id o c nickname text callback l
              Hwf Hl Hw) as (_ & Hlob & _ & _ & _ & Hdb & Hcase).
  rewrite Hkey in Hcase. destruct Hcase as [Haw Htr].
  cbv zeta. split; [exact Htr|]. split; [exact Haw|].
  split; [rewrite Hdb; reflexivity|].
  rewrite history_registered by (rewrite Hlob, Hl; eauto).
  rewrite Hdb. simpl rows. rewrite where_lobbyCode_user_row. reflexivity.
Qed.

Lemma no_key_notice_broadcast_only_witness :
  let w := sample_joined false None in
  let w' := snd (on_message "s1" (JObject hello) true w) in
  trace w' =
    trace w ++
    [Emit "BGLRV2" "message" (MessagePayload (user_message w "Alice" "hello"));
     Emit "BGLRV2" "message"
       (MessagePayload
          (notice no_key_text
             (Date_now_at (env w) (S (ticks w)))
             (Date_now_at (env w) (S (S (ticks w))))))] ++
    acked true "s1" None /\
  awaiting w' = awaiting w /\
  rows (db w') = rows (db w) ++ [user_row w "BGLRV2" "Alice" "hello"] /\
  history "BGLRV2" w' =
    order_by_createdAt
      (where_lobbyCode "BGLRV2" (rows (db w)) ++
       [user_row w "BGLRV2" "Alice" "hello"]).
Proof.
  apply (no_key_notice_broadcast_only (sample_joined false None) "s1" hello
           "BGLRV2" "Alice" "hello" true
           {| code := "BGLRV2"; openaiKey := None |}).
  - repeat split; simpl; lia.
  - vm_compute. reflexivity.
  - vm_compute. reflexivity.
  - vm_compute. reflexivity.
Defined.

(** ** Failing writes *)

(** C3, as stated, does not hold: with a disk that refuses the write,
    Alice's send ends in the thrown storage error and the server has output
    nothing for it, neither the message to the lobby nor an
    acknowledgement. *)
Lemma failed_write_stops_broadcast :
  fst (on_message "s1" (JObject hello) true (sample_joined true None)) =
    Thrown StorageError /\
  trace (sample_sent true None) = trace (sample_joined true None) /\
  ~ (exists m : Message,
       In (Emit "BGLRV2" "message" (MessagePayload m))
          (trace (sample_sent true None))).
Proof.
  split; [vm_compute; reflexivity|]. split; [vm_compute; reflexivity|].
  intros (m & Hin). rewrite sample_trace_failed_write in Hin.
  destruct Hin as [H|[H|[H|[]]]]; discriminate.
Qed.

(** C3, amended.  When the write of a well-formed send to a registered
    lobby fails, the handler ends there with the storage error thrown inside
    its own promise: the maps, the table and the parked calls are what they
    were and the server outputs nothing, so the message is not broadcast, no
    assistant response is started, and the sender receives no
    acknowledgement at all, neither [{}] nor an error. *)
Theorem failed_write_aborts_send (w : World) (socket_id : string)
  (o : list (string * Json)) (c nickname text : string) (callback : bool) :
  well_formed_send o c nickname text ->
  is_Some (lobbies w !! c) ->
  write_fails_at (env w) (writes w) = true ->
  fst (on_message socket_id (JObject o) callback w) = Thrown StorageError /\
  same_state w (snd (on_message socket_id (JObject o) callback w)) /\
  trace (snd (on_message socket_id (JObject o) callback w)) = trace w.
Proof.
  intros Hwf [l Hl] Hw.
  remember (on_message socket_id (JObject o) callback w) as r eqn:Hr.
  unfold on_message in Hr.
  rewrite (messageSchema_well_formed _ _ _ _ Hwf) in Hr.
  cbn [mi_code mi_nickname mi_content] in Hr.
  unfold same_state.
  destruct w as [e tk dr wr lb lu sl sn d aw tr]. simpl in Hl, Hw.
  js_run_in Hr. rewrite Hl in Hr.
  rewrite bool_decide_eq_true_2 in Hr by eauto.
  rewrite Hw in Hr. subst r. simpl. repeat split.
Qed.

Lemma failed_write_aborts_send_witness :
  fst (on_message "s1" (JObject hello) true (sample_joined true None)) =
    Thrown StorageError /\
  same_state (sample_joined true None)
    (snd (on_message "s1" (JObject hello) true (sample_joined true None))) /\
  trace (snd (on_message "s1" (JObject hello) true (sample_joined true None)))
    = trace (sample_joined true None).
Proof.
  apply (failed_write_aborts_send (sample_joined true None) "s1" hello
           "BGLRV2" "Alice" "hello" true).
  - repeat split; simpl; lia.
  - vm_compute. eauto.
  - vm_compute. reflexivity.
Defined.

(** ** Provider failures *)

(** C4, as stated, does not hold: in a sample lobby that holds a key, the
    provider turns down the call parked by Alice's send; the server then
    broadcasts the notice, but the history of the lobby still holds her
    message alone, with no row of role [assistant]. *)
Lemma provider_failure_notice_not_in_history :
  (exists t_id t_created : Z,
     In (Emit "BGLRV2" "message"
           (MessagePayload (notice unavailable_text t_id t_created)))
        (trace (sample_provider_failed (Some "sk-sample")))) /\
  rows (db (sample_provider_failed (Some "sk-sample"))) =
    rows (db (sample_sent false (Some "sk-sample"))) /\
  map role (history "BGLRV2" (sample_provider_failed (Some "sk-sample"))) =
    ["user"] /\
  ~ (exists r : Row,
       In r (history "BGLRV2" (sample_provider_failed (Some "sk-sample"))) /\
       role r = "assistant").
Proof.
  split; [|split; [|split]].
  - exists 1700000000001, 1700000000002. vm_compute. tauto.
  - vm_compute. reflexivity.
  - rewrite sample_history_provider_failed. reflexivity.
  - intros (r & Hin & Hrole). rewrite sample_history_provider_failed in Hin.
    destruct Hin as [<-|[]]. discriminate.
Qed.

(** C4, amended.  In a lobby that holds a usable key an accepted send
    broadcasts the user's message, parks one provider call and acknowledges
    the sender with [{}].  Whenever that call is later turned down, for
    whatever reason, the handler ends normally; it logs the error on the
    server and emits to the lobby exactly one message of role [assistant]
    from [DM] whose text is the fixed [unavailable_text], whatever the
    reason was.  That notice is not written to the table, which stays as it
    was, and the parked call is gone. *)
Theorem provider_failure_notice_broadcast_only (w : World)
  (socket_id : string) (o : list (string * Json)) (c nickname text : string)
  (callback : bool) (l : LobbyData) (key : string) :
  well_formed_send o c nickname text ->
  lobbies w !! c = Some l ->
  truthy (openaiKey l) = Some key ->
  write_fails_at (env w) (writes w) = false ->
  let parked := {| sus_code := c; sus_content := text; sus_apiKey := key |} in
  let w1 := snd (on_message socket_id (JObject o) callback w) in
  fst (on_message socket_id (JObject o) callback w) = Normal tt /\
  trace w1 =
    trace w ++
    [Emit c "message" (MessagePayload (user_message w nickname text))] ++
    acked callback socket_id None /\
  awaiting w1 = awaiting w ++ [parked] /\
  forall (w2 : World) (k : nat) (reason : string),
    awaiting w2 !! k = Some parked ->
    let w3 := snd (on_settled k (Rejected reason) w2) in
    fst (on_settled k (Rejected reason) w2) = Normal tt /\
    trace w3 =
      trace w2 ++
      [ConsoleError "OpenAI error" (ProviderError reason);
       Emit c "message"
         (MessagePayload
            (notice unavailable_text
               (Date_now_at (env w2) (ticks w2))
               (Date_now_at (env w2) (S (ticks w2)))))] /\
    db w3 = db w2 /\
    history c w3 = history c w2 /\
    awaiting w3 = take k (awaiting w2) ++ drop (S k) (awaiting w2).
Proof.
  intros Hwf Hl Hkey Hw.
  destruct (on_message_accepted w socket_id o c nickname text callback l
              Hwf Hl Hw) as (Hfst & _ & _ & _ & _ & _ & Hcase).
  rewrite Hkey in Hcase. destruct Hcase as [Haw Htr].
  cbv zeta. split; [exact Hfst|]. split; [exact Htr|]. split; [exact Haw|].
  intros w2 k reason Hk.
  destruct (on_settled_rejected w2 k _ reason Hk)
    as (Hfst' & Hlob & _ & _ & _ & Hdb & Haw' & Htr').
  split; [exact Hfst'|]. split; [exact Htr'|]. split; [exact Hdb|].
  split; [|exact Haw'].
  unfold history, get_lobby_messages, bind, lobbies_has, selectMessages_all.
  rewrite Hlob.
  destruct (bool_decide (is_Some (lobbies w2 !! c))); simpl;
    [rewrite Hdb|]; reflexivity.
Qed.

Lemma provider_failure_notice_broadcast_only_witness :
  let w := sample_joined false (Some "sk-sample") in
  let parked :=
    {| sus_code := "BGLRV2"; sus_content := "hello";
       sus_apiKey := "sk-sample" |} in
  let w1 := snd (on_message "s1" (JObject hello) true w) in
  fst (on_message "s1" (JObject hello) true w) = Normal tt /\
  trace w1 =
    trace w ++
    [Emit "BGLRV2" "message" (MessagePayload (user_message w "Alice" "hello"))]
    ++ acked true "s1" None /\
  awaiting w1 = awaiting w ++ [parked] /\
  forall (w2 : World) (k : nat) (reason : string),
    awaiting w2 !! k = Some parked ->
    let w3 := snd (on_settled k (Rejected reason) w2) in
    fst (on_settled k (Rejected reason) w2) = Normal tt /\
    trace w3 =
      trace w2 ++
      [ConsoleError "OpenAI error" (ProviderError reason);
       Emit "BGLRV2" "message"
         (MessagePayload
            (notice unavailable_text
               (Date_now_at (env w2) (ticks w2))
               (Date_now_at (env w2) (S (ticks w2)))))] /\
    db w3 = db w2 /\
    history "BGLRV2" w3 = history "BGLRV2" w2 /\
    awaiting w3 = take k (awaiting w2) ++ drop (S k) (awaiting w2).
Proof.
  apply (provider_failure_notice_broadcast_only
           (sample_joined false (Some "sk-sample")) "s1" hello
           "BGLRV2" "Alice" "hello" true
           {| code := "BGLRV2"; openaiKey := Some "sk-sample" |} "sk-sample").
  - repeat split; simpl; lia.
  - vm_compute. reflexivity.
  - vm_compute. reflexivity.
  - vm_compute. reflexivity.
Defined.

(** ** Rosters *)

Section JsMapFacts.
Context {V : Type}.
Implicit Types (m : JsMap V) (k : string) (v : V).

Lemma jsmap_set_keys m k v (k' : string) :
  k' ∈ map fst (jsmap_set m k v) -> k' = k \/ k' ∈ map fst m.
Proof.
  induction m as [|[k0 v0] m IH]; simpl.
  - rewrite list_elem_of_singleton. auto.
  - destruct (String.eqb k0 k) eqn:E; simpl; rewrite !elem_of_cons.
    + tauto.
    + intros [H|H]; [tauto|]. destruct (IH H); tauto.
Qed.

Lemma jsmap_set_NoDup m k v :
  NoDup (map fst m) -> NoDup (map fst (jsmap_set m k v)).
Proof.
  induction m as [|[k0 v0] m IH]; simpl; intros Hnd.
  - apply NoDup_singleton.
  - apply NoDup_cons in Hnd as [Hnotin Hrest].
    destruct (String.eqb k0 k) eqn:E; simpl; apply NoDup_cons.
    + split; assumption.
    + split; [|apply IH; exact Hrest].
      intros Hin. apply jsmap_set_keys in Hin as [->|Hin].
      * rewrite String.eqb_refl in E. discriminate.
      * contradiction.
Qed.

Lemma jsmap_delete_keys m k (k' : string) :
  k' ∈ map fst (jsmap_delete m k) -> k' ∈ map fst m.
Proof.
  induction m as [|[k0 v0] m IH]; simpl; [tauto|].
  destruct (String.eqb k0 k); simpl; rewrite !elem_of_cons; [tauto|].
  intros [H|H]; [tauto|]. right. apply IH, H.
Qed.

Lemma jsmap_delete_NoDup m k :
  NoDup (map fst m) -> NoDup (map fst (jsmap_delete m k)).
Proof.
  induction m as [|[k0 v0] m IH]; simpl; intros Hnd; [constructor|].
  apply NoDup_cons in Hnd as [Hnotin Hrest].
  destruct (String.eqb k0 k); simpl; [exact Hrest|].
  apply NoDup_cons. split; [|apply IH; exact Hrest].
  intros Hin. apply Hnotin. eapply jsmap_delete_keys, Hin.
Qed.

Lemma jsmap_get_absent m k :
  k ∉ map fst m -> jsmap_get m k = None.
Proof.
  induction m as [|[k0 v0] m IH]; simpl; [reflexivity|].
  rewrite elem_of_cons. intros Hnotin.
  destruct (String.eqb k0 k) eqn:E.
  - apply String.eqb_eq in E. subst. tauto.
  - apply IH. tauto.
Qed.

Lemma jsmap_get_delete m k :
  NoDup (map fst m) -> jsmap_get (jsmap_delete m k) k = None.
Proof.
  induction m as [|[k0 v0] m IH]; simpl; intros Hnd; [reflexivity|].
  apply NoDup_cons in Hnd as [Hnotin Hrest].
  destruct (String.eqb k0 k) eqn:E; simpl.
  - apply String.eqb_eq in E. subst. apply jsmap_get_absent, Hnotin.
  - rewrite E. apply IH, Hrest.
Qed.

End JsMapFacts.

Lemma truthy_nonempty (s : string) : s <> "" -> truthy (Some s) = Some s.
Proof.
  intros H. unfold truthy. destruct (String.eqb s "") eqn:E; [|reflexivity].
  apply String.eqb_eq in E. contradiction.
Qed.

Lemma generateCode_loop_runs (rounds : nat) (code : string) (w : World) :
  exists (out : string) (w' : World),
    generateCode_loop rounds code w = (Normal out, w') /\
    same_state w w' /\ trace w' = trace w /\ env w' = env w.
Proof.
  revert code w. induction rounds as [|rounds IH]; intros code w.
  - exists code, w. simpl. unfold ret, same_state. tauto.
  - simpl. unfold bind, Math_random.
    match goal with
    | |- context [generateCode_loop rounds ?c ?v] =>
        destruct (IH c v) as (out & w' & Hrun & Hs & Ht & He)
    end.
    exists out, w'. rewrite Hrun. auto.
Qed.

(** ** What every reachable world satisfies *)

Lemma well_kept_same_membership (w w' : World) :
  lobbyUsers w' = lobbyUsers w -> socketToLobby w' = socketToLobby w ->
  well_kept w -> well_kept w'.
Proof. unfold well_kept. intros -> ->. tauto. Qed.

Lemma on_message_membership (w : World) (s : string) (p : Json)
  (callback : bool) :
  lobbyUsers (snd (on_message s p callback w)) = lobbyUsers w /\
  socketToLobby (snd (on_message s p callback w)) = socketToLobby w.
Proof.
  unfold on_message. destruct (messageSchema p) as [d|].
  - remember (snd _) as w' eqn:Hr.
    unfold sendAssistantMessage in Hr.
    destruct w as [e tk dr wr lb lu sl sn d0 aw tr].
    js_run_in Hr.
    destruct (bool_decide (is_Some (lb !! mi_code d))); js_run_in Hr.
    + destruct (write_fails_at e wr); js_run_in Hr;
        [subst w'; split; reflexivity|].
      destruct (truthy match lb !! mi_code d with
                       | Some l => openaiKey l
                       | None => None
                       end);
        js_run_in Hr; destruct callback; js_run_in Hr; subst w';
        split; reflexivity.
    + destruct callback; js_run_in Hr; subst w'; split; reflexivity.
  - destruct (callback_opt_spec callback s (Some "Invalid payload") w)
      as (_ & (_ & Hlu & Hsl & _) & _).
    split; assumption.
Qed.

Lemma on_settled_membership (w : World) (k : nat) (settled : Settled) :
  lobbyUsers (snd (on_settled k settled w)) = lobbyUsers w /\
  socketToLobby (snd (on_settled k settled w)) = socketToLobby w.
Proof.
  unfold on_settled. destruct (awaiting w !! k) as [parked|];
    [|split; reflexivity].
  remember (snd _) as w' eqn:Hr.
  unfold sendAssistantMessage_resume in Hr.
  destruct w as [e tk dr wr lb lu sl sn d0 aw tr].
  destruct settled as [choices|reason]; js_run_in Hr.
  - destruct (write_fails_at e wr); js_run_in Hr; subst w';
      split; reflexivity.
  - subst w'; split; reflexivity.
Qed.

Lemma joinLobbySchema_code_nonempty (p : Json) (d : JoinLobbyInput) :
  joinLobbySchema p = Some d -> jl_code d <> "".
Proof.
  unfold joinLobbySchema. destruct p as [| | | | |?|o]; try discriminate.
  unfold z.string_min_max at 1.
  destruct (prop o "code") as [| | | |c| |]; try discriminate.
  destruct (4 <=? String.length c)%nat eqn:E; [|discriminate].
  destruct (String.length c <=? 10)%nat; simpl; [|discriminate].
  destruct (z.string_min_max 1 32 (prop o "nickname")); [|discriminate].
  intros [= <-]. simpl. intros ->. discriminate.
Qed.

Lemma well_kept_join (w w' : World) (s c nickname : string) :
  c <> "" ->
  socketToLobby w' = <[s := c]> (socketToLobby w) ->
  lobbyUsers w' =
    <[c := jsmap_set
             (match lobbyUsers w !! c with Some m => m | None => [] end)
             s nickname]> (lobbyUsers w) ->
  well_kept w -> well_kept w'.
Proof.
  intros Hc Hsl Hlu [I1 I2]. unfold well_kept. rewrite Hsl, Hlu. split.
  - intros s' L HL. apply lookup_insert_Some in HL as [[_ <-]|[_ HL]].
    + split; [exact Hc|]. rewrite lookup_insert_eq. eauto.
    + destruct (I1 _ _ HL) as [Hne Hsome]. split; [exact Hne|].
      apply lookup_insert_is_Some'. auto.
  - intros L users HL. apply lookup_insert_Some in HL as [[_ <-]|[_ HL]].
    + apply jsmap_set_NoDup.
      destruct (lobbyUsers w !! c) as [m|] eqn:E; [eapply I2, E|constructor].
    + eapply I2, HL.
Qed.

Lemma well_kept_leave (w w' : World) (s L : string) (users : JsMap string) :
  lobbyUsers w !! L = Some users ->
  socketToLobby w' = delete s (socketToLobby w) ->
  lobbyUsers w' = <[L := jsmap_delete users s]> (lobbyUsers w) ->
  well_kept w -> well_kept w'.
Proof.
  intros HLu Hsl Hlu [I1 I2]. unfold well_kept. rewrite Hsl, Hlu. split.
  - intros s' L' HL. apply lookup_delete_Some in HL as [_ HL].
    destruct (I1 _ _ HL) as [Hne Hsome]. split; [exact Hne|].
    apply lookup_insert_is_Some'. auto.
  - intros L' users' HL. apply lookup_insert_Some in HL as [[_ <-]|[_ HL]].
    + apply jsmap_delete_NoDup. eapply I2, HLu.
    + eapply I2, HL.
Qed.

Lemma well_kept_create (w w' : World) (c : string) :
  socketToLobby w' = socketToLobby w ->
  lobbyUsers w' = <[c := []]> (lobbyUsers w) ->
  well_kept w -> well_kept w'.
Proof.
  intros Hsl Hlu [I1 I2]. unfold well_kept. rewrite Hsl, Hlu. split.
  - intros s' L HL. destruct (I1 _ _ HL) as [Hne Hsome].
    split; [exact Hne|]. apply lookup_insert_is_Some'. auto.
  - intros L users HL. apply lookup_insert_Some in HL as [[_ <-]|[_ HL]].
    + constructor.
    + eapply I2, HL.
Qed.

Lemma post_lobby_well_kept (w : World) (b : Json) :
  well_kept w -> well_kept (snd (post_lobby b w)).
Proof.
  intros Hw. unfold post_lobby.
  destruct (createLobbySchema b) as [d|]; [|exact Hw].
  destruct (generateCode_loop_runs 6 "" w)
    as (c & w' & Hrun & (_ & Hlu & Hsl & _) & _).
  unfold bind, generateCode. rewrite Hrun.
  apply (well_kept_create w _ c); [| |exact Hw].
  - simpl. exact Hsl.
  - simpl. unfold keep. rewrite Hlu. reflexivity.
Qed.

Lemma on_joinLobby_well_kept (w : World) (s : string) (p : Json)
  (callback : bool) :
  well_kept w -> well_kept (snd (on_joinLobby s p callback w)).
Proof.
  intros Hw. unfold on_joinLobby.
  destruct (joinLobbySchema p) as [d|] eqn:Hp.
  - pose proof (joinLobbySchema_code_nonempty p d Hp) as Hne.
    remember (snd _) as w' eqn:Hr.
    destruct w as [e tk dr wr lb lu sl sn db0 aw tr].
    js_run_in Hr.
    destruct (bool_decide (is_Some (lb !! jl_code d))); js_run_in Hr.
    + destruct callback; js_run_in Hr; subst w';
        (match type of Hw with
         | well_kept ?w0 =>
             apply (well_kept_join w0 _ s (jl_code d) (jl_nickname d) Hne)
         end; [reflexivity | reflexivity | exact Hw]).
    + destruct callback; js_run_in Hr; subst w'; exact Hw.
  - destruct (callback_opt_spec callback s (Some "Invalid payload") w)
      as (_ & (_ & Hlu & Hsl & _) & _).
    apply (well_kept_same_membership w _ Hlu Hsl Hw).
Qed.

Lemma on_disconnect_well_kept (w : World) (s : string) :
  well_kept w -> well_kept (snd (on_disconnect s w)).
Proof.
  intros Hw. unfold on_disconnect.
  remember (snd _) as w' eqn:Hr.
  destruct w as [e tk dr wr lb lu sl sn db0 aw tr].
  js_run_in Hr.
  destruct (truthy (sl !! s)) as [L|]; js_run_in Hr; [|subst w'; exact Hw].
  destruct (lu !! L) as [users|] eqn:HL; js_run_in Hr; subst w'.
  - match type of Hw with
    | well_kept ?w0 => apply (well_kept_leave w0 _ s L users HL)
    end; [reflexivity | reflexivity | exact Hw].
  - destruct Hw as [I1 I2]. split; simpl in *.
    + intros s' L' H. apply lookup_delete_Some in H as [_ H]. eauto.
    + exact I2.
Qed.

Lemma reachable_well_kept (w : World) : reachable w -> well_kept w.
Proof.
  induction 1 as [e d|w ev Hreach IH].
  - split; simpl; intros ? ? H; rewrite lookup_empty in H; discriminate.
  - destruct ev as [b|b|c|s p cb|s p cb|s|k r]; simpl.
    + apply post_lobby_well_kept, IH.
    + unfold post_lobby_join.
      destruct (joinLobbySchema b); [|exact IH].
      unfold bind, lobbies_has.
      destruct (bool_decide _); exact IH.
    + unfold get_lobby_messages, bind, lobbies_has.
      destruct (bool_decide _); exact IH.
    + apply on_joinLobby_well_kept, IH.
    + destruct (on_message_membership w s p cb) as [Hlu Hsl].
      apply (well_kept_same_membership w _ Hlu Hsl IH).
    + apply on_disconnect_well_kept, IH.
    + destruct (on_settled_membership w k r) as [Hlu Hsl].
      apply (well_kept_same_membership w _ Hlu Hsl IH).
Qed.

(** ** Leaving *)

Lemma sample_second_join_left_outputs :
  drop (length (trace sample_second_join)) (trace sample_second_join_left) =
    [Emit "6BFLQV" "users" (UsersPayload [])].
Proof. vm_compute. reflexivity. Qed.

(** C9, as stated, does not hold: Alice's socket joins the first lobby and
    then the second, so that it is listed in both rosters while the lobby
    recorded for it is the second.  Its disconnect ends normally and clears
    the second roster, yet the first roster still lists it afterwards, and
    the one [users] event that the disconnect emits goes to the second
    lobby: the first lobby, of which the socket was a member, gets no roster
    at all. *)
Lemma disconnect_keeps_earlier_roster :
  reachable sample_second_join /\
  jsmap_get (roster_of sample_second_join "BGLRV2") "s1" = Some "Alice" /\
  jsmap_get (roster_of sample_second_join "6BFLQV") "s1" = Some "Alice" /\
  socketToLobby sample_second_join !! "s1" = Some "6BFLQV" /\
  fst (on_disconnect "s1" sample_second_join) = Normal tt /\
  jsmap_get (roster_of sample_second_join_left "BGLRV2") "s1" =
    Some "Alice" /\
  lobbyUsers sample_second_join_left !! "BGLRV2" =
    lobbyUsers sample_second_join !! "BGLRV2" /\
  trace sample_second_join_left =
    trace sample_second_join ++ [Emit "6BFLQV" "users" (UsersPayload [])] /\
  ~ (exists p : Payload,
       In (Emit "BGLRV2" "users" p)
          (drop (length (trace sample_second_join))
                (trace sample_second_join_left))).
Proof.
  split.
  { unfold sample_second_join, sample_two_lobbies, sample_joined,
      sample_created.
    repeat apply reachable_step. apply reachable_boot. }
  split; [vm_compute; reflexivity|]. split; [vm_compute; reflexivity|].
  split; [vm_compute; reflexivity|]. split; [vm_compute; reflexivity|].
  split; [vm_compute; reflexivity|]. split; [vm_compute; reflexivity|].
  split; [vm_compute; reflexivity|].
  intros (p & Hin). rewrite sample_second_join_left_outputs in Hin.
  destruct Hin as [H|[]]. discriminate.
Qed.

(** C9, amended.  In every reachable world, disconnecting a socket whose
    recorded lobby (the one it joined last) is [L] ends normally, forgets
    the socket's lobby and nickname,
    replaces [L]'s roster by the roster without that socket (which then no
    longer lists it) while every other roster stays as it was, and emits
    exactly one [users] event, to [L], carrying the names of the roster after
    the removal; a second disconnect of that socket then does nothing.
    Disconnecting a socket with no recorded lobby leaves the world as it is
    and outputs nothing. *)
Theorem disconnect_updates_roster_once (w : World) (s : string) :
  reachable w ->
  match socketToLobby w !! s with
  | Some L =>
      exists users : JsMap string,
        lobbyUsers w !! L = Some users /\
        fst (on_disconnect s w) = Normal tt /\
        lobbyUsers (snd (on_disconnect s w)) =
          <[L := jsmap_delete users s]> (lobbyUsers w) /\
        jsmap_get (jsmap_delete users s) s = None /\
        socketToLobby (snd (on_disconnect s w)) = delete s (socketToLobby w) /\
        socketToNickname (snd (on_disconnect s w)) =
          delete s (socketToNickname w) /\
        trace (snd (on_disconnect s w)) =
          trace w ++
          [Emit L "users"
             (UsersPayload (jsmap_values (jsmap_delete users s)))] /\
        on_disconnect s (snd (on_disconnect s w)) =
          (Normal tt, snd (on_disconnect s w))
  | None => on_disconnect s w = (Normal tt, w)
  end.
Proof.
  intros Hreach. destruct (reachable_well_kept w Hreach) as [I1 I2].
  destruct (socketToLobby w !! s) as [L|] eqn:HL.
  - destruct (I1 s L HL) as [Hne [users Hu]].
    exists users. split; [exact Hu|].
    assert (Hrun : on_disconnect s w =
      (Normal tt,
       {| env := env w; ticks := ticks w; draws := draws w;
          writes := writes w; lobbies := lobbies w;
          lobbyUsers := <[L := jsmap_delete users s]> (lobbyUsers w);
          socketToLobby := delete s (socketToLobby w);
          socketToNickname := delete s (socketToNickname w);
          db := db w; awaiting := awaiting w;
          trace := trace w ++
            [Emit L "users"
               (UsersPayload (jsmap_values (jsmap_delete users s)))] |})).
    { unfold on_disconnect.
      destruct w as [e tk dr wr lb lu sl sn db0 aw tr]. simpl in HL, Hu.
      js_run. rewrite HL, (truthy_nonempty L Hne). js_run.
      rewrite Hu. js_run. rewrite lookup_insert_eq. reflexivity. }
    rewrite Hrun. simpl.
    repeat split.
    + apply jsmap_get_delete. eapply I2, Hu.
    + unfold on_disconnect. js_run. rewrite lookup_delete_eq. reflexivity.
  - unfold on_disconnect. destruct w as [e tk dr wr lb lu sl sn db0 aw tr].
    simpl in HL. js_run. rewrite HL. reflexivity.
Qed.

Lemma disconnect_updates_roster_once_witness :
  exists users : JsMap string,
    lobbyUsers (sample_joined false None) !! "BGLRV2" = Some users /\
    fst (on_disconnect "s1" (sample_joined false None)) = Normal tt /\
    lobbyUsers (snd (on_disconnect "s1" (sample_joined false None))) =
      <[ "BGLRV2" := jsmap_delete users "s1" ]>
        (lobbyUsers (sample_joined false None)) /\
    jsmap_get (jsmap_delete users "s1") "s1" = None /\
    socketToLobby (snd (on_disconnect "s1" (sample_joined false None))) =
      delete "s1" (socketToLobby (sample_joined false None)) /\
    socketToNickname (snd (on_disconnect "s1" (sample_joined false None))) =
      delete "s1" (socketToNickname (sample_joined false None)) /\
    trace (snd (on_disconnect "s1" (sample_joined false None))) =
      trace (sample_joined false None) ++
      [Emit "BGLRV2" "users"
         (UsersPayload (jsmap_values (jsmap_delete users "s1")))] /\
    on_disconnect "s1" (snd (on_disconnect "s1" (sample_joined false None))) =
      (Normal tt, snd (on_disconnect "s1" (sample_joined false None))).
Proof.
  pose proof (disconnect_updates_roster_once (sample_joined false None) "s1"
                (reachable_step _ _ (reachable_step _ _ (reachable_boot _ _))))
    as H.
  rewrite sample_joined_lobby_of_s1 in H. exact H.
Defined.

(** The sample run, as the server outputs it: the roster on Alice's join,
    her message, the notice, and the empty roster when she leaves. *)
Example sample_run_outputs :
  trace (handle (Disconnect "s1") (sample_sent false None)) =
    [SocketJoin "s1" "BGLRV2";
     Emit "BGLRV2" "users" (UsersPayload ["Alice"]);
     Ack "s1" None;
     Emit "BGLRV2" "message"
       (MessagePayload
          {| msg_id := 1700000000000; msg_sender := "Alice";
             msg_role := "user"; msg_content := "hello";
             msg_createdAt := 1700000000000 |});
     Emit "BGLRV2" "message"
       (MessagePayload
          {| msg_id := 1700000000001; msg_sender := "DM";
             msg_role := "assistant";
             msg_content := "No OpenAI API key configured for this lobby.";
             msg_createdAt := 1700000000002 |});
     Ack "s1" None;
     Emit "BGLRV2" "users" (UsersPayload [])].
Proof. vm_compute. reflexivity. Qed.

(** Rows come back by [createdAt], whatever the order they were written
    in, and rows of other lobbies stay out. *)
Example history_orders_by_createdAt :
  let row (i : Z) (c : string) (t : Z) :=
    {| id := i; lobbyCode := c; sender := "Alice"; role := "user";
       content := "hi"; createdAt := t |} in
  order_by_createdAt
    (where_lobbyCode "BGLRV2"
       [row 1 "BGLRV2" 30; row 2 "QQQQQQ" 5; row 3 "BGLRV2" 10;
        row 4 "BGLRV2" 20; row 5 "BGLRV2" 10]) =
  [row 3 "BGLRV2" 10; row 5 "BGLRV2" 10; row 4 "BGLRV2" 20;
   row 1 "BGLRV2" 30].
Proof. reflexivity. Qed.

Example generateCode_sample :
  fst (generateCode (boot (sample_env false None) empty_table)) =
    Normal "BGLRV2".
Proof. vm_compute. reflexivity. Qed.

(** * Further properties of the handlers *)

(** ** More on JavaScript maps *)

Section JsMapMore.
Context {V : Type}.
Implicit Types (m : JsMap V) (k : string) (v : V).

Lemma jsmap_get_set_eq m k v : jsmap_get (jsmap_set m k v) k = Some v.
Proof.
  induction m as [|[k0 v0] m IH]; simpl.
  - rewrite String.eqb_refl. reflexivity.
  - destruct (String.eqb k0 k) eqn:E; simpl; rewrite E; auto.
Qed.

Lemma jsmap_get_set_ne m k v (k' : string) :
  k <> k' -> jsmap_get (jsmap_set m k v) k' = jsmap_get m k'.
Proof.
  intros Hne. induction m as [|[k0 v0] m IH]; simpl.
  - destruct (String.eqb k k') eqn:E; [|reflexivity].
    apply String.eqb_eq in E. contradiction.
  - destruct (String.eqb k0 k) eqn:E; simpl.
    + apply String.eqb_eq in E. subst k0.
      destruct (String.eqb k k') eqn:E'; [|reflexivity].
      apply String.eqb_eq in E'. contradiction.
    + rewrite IH. reflexivity.
Qed.

Lemma jsmap_set_fresh m k v :
  k ∉ map fst m -> jsmap_set m k v = m ++ [(k, v)].
Proof.
  induction m as [|[k0 v0] m IH]; simpl; [reflexivity|].
  rewrite elem_of_cons. intros Hnotin.
  destruct (String.eqb k0 k) eqn:E.
  - apply String.eqb_eq in E. subst. tauto.
  - rewrite IH by tauto. reflexivity.
Qed.

Lemma jsmap_set_present_keys m k v :
  map fst (jsmap_set m k v) = map fst m \/ k ∉ map fst m.
Proof.
  induction m as [|[k0 v0] m IH]; simpl.
  - right. apply not_elem_of_nil.
  - destruct (String.eqb k0 k) eqn:E; simpl; [left; reflexivity|].
    destruct IH as [->|Hnotin]; [left; reflexivity|].
    right. rewrite elem_of_cons. intros [->|Hin]; [|contradiction].
    rewrite String.eqb_refl in E. discriminate.
Qed.

Lemma jsmap_set_keys_listed m k v :
  k ∈ map fst m -> map fst (jsmap_set m k v) = map fst m.
Proof.
  intros Hin. destruct (jsmap_set_present_keys m k v); [assumption|].
  contradiction.
Qed.

Lemma jsmap_delete_set_fresh m k v :
  k ∉ map fst m -> jsmap_delete (jsmap_set m k v) k = m.
Proof.
  induction m as [|[k0 v0] m IH]; simpl.
  - rewrite String.eqb_refl. reflexivity.
  - rewrite elem_of_cons. intros Hnotin.
    destruct (String.eqb k0 k) eqn:E.
    + apply String.eqb_eq in E. subst. tauto.
    + simpl. rewrite E, IH by tauto. reflexivity.
Qed.

Lemma jsmap_get_listed m k v :
  jsmap_get m k = Some v -> k ∈ map fst m /\ v ∈ jsmap_values m.
Proof.
  unfold jsmap_values.
  induction m as [|[k0 v0] m IH]; simpl; [discriminate|].
  rewrite !elem_of_cons.
  destruct (String.eqb k0 k) eqn:E.
  - apply String.eqb_eq in E. intros [= ->]. auto.
  - intros H. destruct (IH H). auto.
Qed.

Lemma jsmap_set_values m k v (x : V) :
  x ∈ jsmap_values (jsmap_set m k v) -> x = v \/ x ∈ jsmap_values m.
Proof.
  unfold jsmap_values.
  induction m as [|[k0 v0] m IH]; simpl.
  - rewrite list_elem_of_singleton. auto.
  - destruct (String.eqb k0 k); simpl; rewrite !elem_of_cons.
    + tauto.
    + intros [H|H]; [tauto|]. destruct (IH H); tauto.
Qed.

Lemma jsmap_delete_values m k (x : V) :
  x ∈ jsmap_values (jsmap_delete m k) -> x ∈ jsmap_values m.
Proof.
  unfold jsmap_values.
  induction m as [|[k0 v0] m IH]; simpl; [tauto|].
  destruct (String.eqb k0 k); simpl; rewrite !elem_of_cons; [tauto|].
  intros [H|H]; [tauto|]. right. apply IH, H.
Qed.

Lemma jsmap_delete_other m k (k' : string) :
  k <> k' -> jsmap_get (jsmap_delete m k) k' = jsmap_get m k'.
Proof.
  intros Hne. induction m as [|[k0 v0] m IH]; simpl; [reflexivity|].
  destruct (String.eqb k0 k) eqn:E; simpl.
  - apply String.eqb_eq in E. subst k0.
    destruct (String.eqb k k') eqn:E'; [|reflexivity].
    apply String.eqb_eq in E'. contradiction.
  - rewrite IH. reflexivity.
Qed.

End JsMapMore.

(** ** Joining and leaving, step by step *)

Lemma joinLobbySchema_well_formed (o : list (string * Json))
  (c nickname : string) :
  well_formed_join o c nickname ->
  joinLobbySchema (JObject o) =
    Some {| jl_code := c; jl_nickname := nickname |}.
Proof.
  intros (Hc & Hclen & Hn & Hnlen). unfold joinLobbySchema.
  rewrite Hc, Hn, !string_min_max_in by assumption. reflexivity.
Qed.

(** The world an accepted join leaves. *)
Lemma on_joinLobby_run (w : World) (s : string) (o : list (string * Json))
  (c nickname : string) (callback : bool) :
  well_formed_join o c nickname ->
  is_Some (lobbies w !! c) ->
  on_joinLobby s (JObject o) callback w =
    (Normal tt,
     {| env := env w; ticks := ticks w; draws := draws w;
        writes := writes w; lobbies := lobbies w;
        lobbyUsers :=
          <[c := jsmap_set (roster_of w c) s nickname]> (lobbyUsers w);
        socketToLobby := <[s := c]> (socketToLobby w);
        socketToNickname := <[s := nickname]> (socketToNickname w);
        db := db w; awaiting := awaiting w;
        trace :=
          trace w ++
          [SocketJoin s c;
           Emit c "users"
             (UsersPayload
                (jsmap_values (jsmap_set (roster_of w c) s nickname)))] ++
          acked callback s None |}).
Proof.
  intros Hwf Hreg. unfold on_joinLobby, roster_of, acked.
  rewrite (joinLobbySchema_well_formed _ _ _ Hwf).
  cbn [jl_code jl_nickname].
  destruct w as [e tk dr wr lb lu sl sn d aw tr]. simpl in Hreg.
  js_run. rewrite bool_decide_eq_true_2 by exact Hreg.
  js_run. rewrite lookup_insert_eq.
  destruct callback; js_run; rewrite <- ?app_assoc; simpl;
    rewrite ?app_nil_r; reflexivity.
Qed.

(** The world a disconnect leaves when the socket's lobby has a roster. *)
Lemma on_disconnect_run (w : World) (s L : string) (users : JsMap string) :
  socketToLobby w !! s = Some L -> L <> "" ->
  lobbyUsers w !! L = Some users ->
  on_disconnect s w =
    (Normal tt,
     {| env := env w; ticks := ticks w; draws := draws w;
        writes := writes w; lobbies := lobbies w;
        lobbyUsers := <[L := jsmap_delete users s]> (lobbyUsers w);
        socketToLobby := delete s (socketToLobby w);
        socketToNickname := delete s (socketToNickname w);
        db := db w; awaiting := awaiting w;
        trace := trace w ++
          [Emit L "users"
             (UsersPayload (jsmap_values (jsmap_delete users s)))] |}).
Proof.
  intros HL Hne Hu. unfold on_disconnect.
  destruct w as [e tk dr wr lb lu sl sn db0 aw tr]. simpl in HL, Hu.
  js_run. rewrite HL, (truthy_nonempty L Hne). js_run.
  rewrite Hu. js_run. rewrite lookup_insert_eq. reflexivity.
Qed.

(** ** What the schemas let through *)

Lemma z_string_inv (v : Json) (s : string) :
  z.string v = Some s -> v = JString s.
Proof. destruct v; simpl; try discriminate. intros [= ->]. reflexivity. Qed.

Lemma string_min_max_inv (lo hi : nat) (v : Json) (s : string) :
  z.string_min_max lo hi v = Some s ->
  v = JString s /\ (lo <= String.length s <= hi)%nat.
Proof.
  destruct v as [| | | |t| |]; simpl; try discriminate.
  destruct (lo <=? String.length t)%nat eqn:E1;
    destruct (String.length t <=? hi)%nat eqn:E2; simpl; try discriminate.
  intros [= ->]. apply Nat.leb_le in E1, E2. auto.
Qed.

Lemma string_min_max_some (lo hi : nat) (v : Json) :
  is_Some (z.string_min_max lo hi v) <->
  exists s, v = JString s /\ (lo <= String.length s <= hi)%nat.
Proof.
  split.
  - intros [s Hs]. exists s. apply string_min_max_inv, Hs.
  - intros (s & -> & Hlen). rewrite string_min_max_in by exact Hlen. eauto.
Qed.

Lemma messageSchema_inv (p : Json) (d : MessageInput) :
  messageSchema p = Some d ->
  exists o, p = JObject o /\
    well_formed_send o (mi_code d) (mi_nickname d) (mi_content d).
Proof.
  unfold messageSchema. destruct p as [| | | | | |o]; try discriminate.
  destruct (z.string (prop o "code")) as [c|] eqn:Hc; [|discriminate].
  destruct (z.string (prop o "nickname")) as [n|] eqn:Hn; [|discriminate].
  destruct (z.string_min_max 1 400 (prop o "content")) as [t|] eqn:Ht;
    [|discriminate].
  intros [= <-]. exists o. split; [reflexivity|].
  apply z_string_inv in Hc, Hn. apply string_min_max_inv in Ht as [Ht Hlen].
  unfold well_formed_send. simpl. auto.
Qed.

Lemma joinLobbySchema_inv (p : Json) (d : JoinLobbyInput) :
  joinLobbySchema p = Some d ->
  exists o, p = JObject o /\ well_formed_join o (jl_code d) (jl_nickname d).
Proof.
  unfold joinLobbySchema. destruct p as [| | | | | |o]; try discriminate.
  destruct (z.string_min_max 4 10 (prop o "code")) as [c|] eqn:Hc;
    [|discriminate].
  destruct (z.string_min_max 1 32 (prop o "nickname")) as [n|] eqn:Hn;
    [|discriminate].
  intros [= <-]. exists o. split; [reflexivity|].
  apply string_min_max_inv in Hc as [Hc Hclen], Hn as [Hn Hnlen].
  unfold well_formed_join. simpl. auto.
Qed.

(** ** Every way a handler can end *)

Lemma on_message_unknown_lobby (w : World) (s : string)
  (o : list (string * Json)) (c nickname text : string) (callback : bool) :
  well_formed_send o c nickname text ->
  lobbies w !! c = None ->
  on_message s (JObject o) callback w =
    callback_opt callback s (Some "Lobby not found") w.
Proof.
  intros Hwf Hnone. unfold on_message.
  rewrite (messageSchema_well_formed _ _ _ _ Hwf).
  cbn [mi_code mi_nickname mi_content].
  unfold bind at 1. rewrite (lobbies_has_false w c Hnone). reflexivity.
Qed.

Lemma on_message_write_failed (w : World) (s : string)
  (o : list (string * Json)) (c nickname text : string) (callback : bool) :
  well_formed_send o c nickname text ->
  is_Some (lobbies w !! c) ->
  write_fails_at (env w) (writes w) = true ->
  on_message s (JObject o) callback w =
    (Thrown StorageError,
     {| env := env w; ticks := S (ticks w); draws := draws w;
        writes := S (writes w); lobbies := lobbies w;
        lobbyUsers := lobbyUsers w; socketToLobby := socketToLobby w;
        socketToNickname := socketToNickname w; db := db w;
        awaiting := awaiting w; trace := trace w |}).
Proof.
  intros Hwf Hreg Hw. unfold on_message.
  rewrite (messageSchema_well_formed _ _ _ _ Hwf).
  cbn [mi_code mi_nickname mi_content].
  destruct w as [e tk dr wr lb lu sl sn d aw tr]. simpl in Hreg, Hw.
  js_run. rewrite bool_decide_eq_true_2 by exact Hreg.
  rewrite Hw. reflexivity.
Qed.

Lemma truthy_some (s : option string) (t : string) :
  truthy s = Some t -> s = Some t /\ t <> "".
Proof.
  unfold truthy. destruct s as [u|]; [|discriminate].
  destruct (String.eqb u "") eqn:E; [discriminate|].
  intros [= ->]. split; [reflexivity|].
  intros ->. discriminate.
Qed.

Lemma first_choice_text_nonempty (choices : list Choice) :
  first_choice_text choices <> "".
Proof.
  unfold first_choice_text.
  destruct (truthy _) as [t|] eqn:E.
  - apply truthy_some in E. tauto.
  - discriminate.
Qed.

(** The world a settled call leaves when its reply is written. *)
Lemma on_settled_fulfilled_run (w : World) (k : nat) (s : Suspended)
  (choices : list Choice) :
  awaiting w !! k = Some s ->
  write_fails_at (env w) (writes w) = false ->
  on_settled k (Fulfilled choices) w =
    (Normal tt,
     {| env := env w; ticks := S (ticks w); draws := draws w;
        writes := S (writes w); lobbies := lobbies w;
        lobbyUsers := lobbyUsers w; socketToLobby := socketToLobby w;
        socketToNickname := socketToNickname w;
        db := {| rows := rows (db w) ++
                   [reply_row w (sus_code s) (first_choice_text choices)];
                 seq := seq (db w) + 1 |};
        awaiting := without k (awaiting w);
        trace := trace w ++
          [Emit (sus_code s) "message"
             (MessagePayload
                (reply_message w (first_choice_text choices)))] |}).
Proof.
  intros Hk Hw. unfold on_settled. rewrite Hk.
  unfold sendAssistantMessage_resume, reply_row, reply_message, without.
  destruct w as [e tk dr wr lb lu sl sn d aw tr]. simpl in Hw.
  js_run. rewrite Hw. reflexivity.
Qed.

(** The world a settled call leaves when the write of its reply fails: the
    [catch] block takes over. *)
Lemma on_settled_write_failed_run (w : World) (k : nat) (s : Suspended)
  (choices : list Choice) :
  awaiting w !! k = Some s ->
  write_fails_at (env w) (writes w) = true ->
  on_settled k (Fulfilled choices) w =
    (Normal tt,
     {| env := env w; ticks := S (S (S (ticks w))); draws := draws w;
        writes := S (writes w); lobbies := lobbies w;
        lobbyUsers := lobbyUsers w; socketToLobby := socketToLobby w;
        socketToNickname := socketToNickname w; db := db w;
        awaiting := without k (awaiting w);
        trace := trace w ++
          [ConsoleError "OpenAI error" StorageError;
           Emit (sus_code s) "message"
             (MessagePayload
                (notice unavailable_text
                   (Date_now_at (env w) (S (ticks w)))
                   (Date_now_at (env w) (S (S (ticks w))))))] |}).
Proof.
  intros Hk Hw. unfold on_settled. rewrite Hk.
  unfold sendAssistantMessage_resume, notice, without.
  destruct w as [e tk dr wr lb lu sl sn d aw tr]. simpl in Hw.
  js_run. rewrite Hw. js_run. rewrite <- app_assoc. reflexivity.
Qed.

(** The world a created lobby leaves. *)
Lemma post_lobby_created (w : World) (b : Json) (d : CreateLobbyInput) :
  createLobbySchema b = Some d ->
  exists (c : string) (w1 : World),
    generateCode w = (Normal c, w1) /\
    fst (post_lobby b w) = Normal {| status := 200; body := CodeBody c |} /\
    lobbies (snd (post_lobby b w)) =
      <[c := {| code := c;
                openaiKey := or_else (cl_openaiApiKey d)
                               (OPENAI_API_KEY (env w)) |}]> (lobbies w) /\
    lobbyUsers (snd (post_lobby b w)) = <[c := []]> (lobbyUsers w) /\
    socketToLobby (snd (post_lobby b w)) = socketToLobby w /\
    socketToNickname (snd (post_lobby b w)) = socketToNickname w /\
    db (snd (post_lobby b w)) = db w /\
    awaiting (snd (post_lobby b w)) = awaiting w /\
    trace (snd (post_lobby b w)) = trace w.
Proof.
  intros Hd.
  destruct (generateCode_loop_runs 6 "" w)
    as (c & w1 & Hrun & (Hlb & Hlu & Hsl & Hsn & Hdb & Haw) & Htr & Henv).
  exists c, w1. split; [exact Hrun|].
  unfold post_lobby. rewrite Hd. unfold bind, generateCode. rewrite Hrun.
  simpl. unfold keep. rewrite Hlb, Hlu, Henv. auto 10.
Qed.

Lemma acked_only_acks (callback : bool) (s : string) (e : option string) :
  only_acks (acked callback s e).
Proof. destruct callback; repeat constructor. Qed.

Lemma callback_opt_Change (callback : bool) (s : string) (e : option string)
  (w : World) :
  Change w (snd (callback_opt callback s e w)).
Proof.
  destruct (callback_opt_spec callback s e w) as (_ & Hsame & Htr).
  apply (Ch_quiet _ _ _ Hsame Htr), acked_only_acks.
Qed.

Lemma same_world_Change (w : World) : Change w w.
Proof.
  apply (Ch_quiet w w []); [repeat split | symmetry; apply app_nil_r |].
  constructor.
Qed.

Lemma on_joinLobby_unknown (w : World) (s : string)
  (o : list (string * Json)) (c nickname : string) (callback : bool) :
  well_formed_join o c nickname ->
  lobbies w !! c = None ->
  on_joinLobby s (JObject o) callback w =
    callback_opt callback s (Some "Lobby not found") w.
Proof.
  intros Hwf Hnone. unfold on_joinLobby.
  rewrite (joinLobbySchema_well_formed _ _ _ Hwf). cbn [jl_code jl_nickname].
  unfold bind at 1. rewrite (lobbies_has_false w c Hnone). reflexivity.
Qed.

Lemma on_disconnect_no_entry (w : World) (s : string) :
  truthy (socketToLobby w !! s) = None -> on_disconnect s w = (Normal tt, w).
Proof.
  intros H. unfold on_disconnect.
  destruct w as [e tk dr wr lb lu sl sn d aw tr]. simpl in H.
  js_run. rewrite H. reflexivity.
Qed.

Lemma on_disconnect_no_roster (w : World) (s L : string) :
  socketToLobby w !! s = Some L -> L <> "" -> lobbyUsers w !! L = None ->
  on_disconnect s w =
    (Normal tt,
     {| env := env w; ticks := ticks w; draws := draws w;
        writes := writes w; lobbies := lobbies w;
        lobbyUsers := lobbyUsers w;
        socketToLobby := delete s (socketToLobby w);
        socketToNickname := delete s (socketToNickname w);
        db := db w; awaiting := awaiting w; trace := trace w |}).
Proof.
  intros HL Hne Hu. unfold on_disconnect.
  destruct w as [e tk dr wr lb lu sl sn db0 aw tr]. simpl in HL, Hu.
  js_run. rewrite HL, (truthy_nonempty L Hne). js_run.
  rewrite Hu. reflexivity.
Qed.

Lemma on_message_Change (w : World) (s : string) (p : Json)
  (callback : bool) :
  Change w (snd (on_message s p callback w)).
Proof.
  destruct (messageSchema p) as [d|] eqn:Hp.
  - destruct (messageSchema_inv p d Hp) as (o & -> & Hwf).
    set (c := mi_code d) in *. set (n := mi_nickname d) in *.
    set (t := mi_content d) in *.
    destruct (lobbies w !! c) as [l|] eqn:Hl.
    + destruct (write_fails_at (env w) (writes w)) eqn:Hw.
      * rewrite (on_message_write_failed w s o c n t callback Hwf)
          by (rewrite ?Hl; eauto).
        apply (Ch_quiet _ _ []); simpl;
          [repeat split | symmetry; apply app_nil_r | constructor].
      * destruct (on_message_accepted w s o c n t callback l Hwf Hl Hw)
          as (_ & Hlb & Hlu & Hsl & Hsn & Hdb & Hcase).
        destruct Hwf as (_ & _ & _ & Hlen).
        destruct (truthy (openaiKey l)) as [key|]; destruct Hcase as [Haw Htr].
        -- apply (Ch_sent _ _ c n t
                    [{| sus_code := c; sus_content := t; sus_apiKey := key |}]
                    [] (acked callback s None));
             solve [ assumption | exact Htr | apply acked_only_acks
                   | rewrite Hl; eauto | repeat split; assumption
                   | repeat constructor; eauto ].
        -- apply (Ch_sent _ _ c n t []
                    [Emit c "message"
                       (MessagePayload
                          (notice no_key_text
                             (Date_now_at (env w) (S (ticks w)))
                             (Date_now_at (env w) (S (S (ticks w))))))]
                    (acked callback s None));
             solve [ assumption | exact Htr | apply acked_only_acks
                   | rewrite Hl; eauto | repeat split; assumption
                   | rewrite Haw, app_nil_r; reflexivity
                   | repeat constructor; eauto ].
    + rewrite (on_message_unknown_lobby w s o c n t callback Hwf Hl).
      apply callback_opt_Change.
  - unfold on_message. rewrite Hp. apply callback_opt_Change.
Qed.

Lemma on_joinLobby_Change (w : World) (s : string) (p : Json)
  (callback : bool) :
  Change w (snd (on_joinLobby s p callback w)).
Proof.
  destruct (joinLobbySchema p) as [d|] eqn:Hp.
  - destruct (joinLobbySchema_inv p d Hp) as (o & -> & Hwf).
    set (c := jl_code d) in *. set (n := jl_nickname d) in *.
    destruct (lobbies w !! c) as [l|] eqn:Hl.
    + rewrite (on_joinLobby_run w s o c n callback Hwf) by (rewrite Hl; eauto).
      destruct Hwf as (_ & Hclen & _ & Hnlen).
      apply (Ch_joined _ _ s c n (acked callback s None)); simpl;
        try reflexivity; try assumption.
      * rewrite Hl. eauto.
      * apply acked_only_acks.
    + rewrite (on_joinLobby_unknown w s o c n callback Hwf Hl).
      apply callback_opt_Change.
  - unfold on_joinLobby. rewrite Hp. apply callback_opt_Change.
Qed.

Lemma on_disconnect_Change (w : World) (s : string) :
  Change w (snd (on_disconnect s w)).
Proof.
  destruct (socketToLobby w !! s) as [L|] eqn:HL.
  - destruct (decide (L = "")) as [->|Hne].
    + rewrite on_disconnect_no_entry by (rewrite HL; reflexivity).
      apply same_world_Change.
    + destruct (lobbyUsers w !! L) as [users|] eqn:Hu.
      * rewrite (on_disconnect_run w s L users HL Hne Hu).
        apply (Ch_left _ _ s L HL); simpl; rewrite ?Hu; reflexivity.
      * rewrite (on_disconnect_no_roster w s L HL Hne Hu).
        apply (Ch_left _ _ s L HL); simpl; rewrite ?Hu, ?app_nil_r;
          reflexivity.
  - rewrite on_disconnect_no_entry by (rewrite HL; reflexivity).
    apply same_world_Change.
Qed.

Lemma on_settled_Change (w : World) (k : nat) (r : Settled) :
  Change w (snd (on_settled k r w)).
Proof.
  destruct (awaiting w !! k) as [s|] eqn:Hk.
  - destruct r as [choices|reason].
    + destruct (write_fails_at (env w) (writes w)) eqn:Hw.
      * rewrite (on_settled_write_failed_run w k s choices Hk Hw).
        apply (Ch_reply_failed _ _ k s StorageError
                 (Date_now_at (env w) (S (ticks w)))
                 (Date_now_at (env w) (S (S (ticks w)))) Hk);
          simpl; repeat split.
      * rewrite (on_settled_fulfilled_run w k s choices Hk Hw).
        apply (Ch_replied _ _ k s (first_choice_text choices) Hk);
          simpl; repeat split.
        apply first_choice_text_nonempty.
    + destruct (on_settled_rejected w k s reason Hk)
        as (_ & Hlb & Hlu & Hsl & Hsn & Hdb & Haw & Htr).
      apply (Ch_reply_failed _ _ k s (ProviderError reason)
               (Date_now_at (env w) (ticks w))
               (Date_now_at (env w) (S (ticks w))) Hk);
        try assumption. repeat split; assumption.
  - unfold on_settled. rewrite Hk. apply same_world_Change.
Qed.

(** Every event stays within the summary. *)
Lemma handle_Change (ev : Event) (w : World) : Change w (handle ev w).
Proof.
  destruct ev as [b|b|c|s p cb|s p cb|s|k r]; simpl.
  - destruct (createLobbySchema b) as [d|] eqn:Hd.
    + destruct (post_lobby_created w b d Hd)
        as (c & w1 & _ & _ & Hlb & Hlu & Hsl & Hsn & Hdb & Haw & Htr).
      eapply Ch_created; eassumption.
    + unfold post_lobby. rewrite Hd. apply same_world_Change.
  - unfold post_lobby_join.
    destruct (joinLobbySchema b); [|apply same_world_Change].
    unfold bind, lobbies_has.
    destruct (bool_decide _); apply same_world_Change.
  - unfold get_lobby_messages, bind, lobbies_has.
    destruct (bool_decide _); apply same_world_Change.
  - apply on_joinLobby_Change.
  - apply on_message_Change.
  - apply on_disconnect_Change.
  - apply on_settled_Change.
Qed.

(** ** Invariants of the summary *)

Lemma Change_registered (w w' : World) (c0 : string) :
  Change w w' -> is_Some (lobbies w !! c0) -> is_Some (lobbies w' !! c0).
Proof.
  intros H Hreg0. change_cases H; rewrite Hlb; try exact Hreg0.
  apply lookup_insert_is_Some'. auto.
Qed.

Lemma Change_con_registry (w w' : World) :
  Change w w' -> con_registry w -> con_registry w'.
Proof.
  intros H I. unfold con_registry in *.
  change_cases H; rewrite Hlb, Hlu; try exact I.
  - intros c0 l0 Hl0. apply lookup_insert_Some in Hl0 as [[<- <-]|[Hne Hl0]].
    + split; [reflexivity|]. rewrite lookup_insert_eq. eauto.
    + destruct (I _ _ Hl0) as [Hc Hr]. split; [exact Hc|].
      apply lookup_insert_is_Some'. auto.
  - intros c0 l0 Hl0. destruct (I _ _ Hl0) as [Hc Hr]. split; [exact Hc|].
    apply lookup_insert_is_Some'. auto.
  - intros c0 l0 Hl0. destruct (I _ _ Hl0) as [Hc Hr]. split; [exact Hc|].
    destruct (lobbyUsers w !! L); [|exact Hr].
    apply lookup_insert_is_Some'. auto.
Qed.

Lemma Change_con_sockets (w w' : World) :
  Change w w' -> con_sockets w -> con_sockets w'.
Proof.
  intros H I. unfold con_sockets in *.
  change_cases H; rewrite Hlb, Hsl; try exact I.
  - intros s0 c0 H0. destruct (I _ _ H0) as [Hr Hlen0]. split; [|exact Hlen0].
    apply lookup_insert_is_Some'. auto.
  - intros s0 c0 H0. apply lookup_insert_Some in H0 as [[_ <-]|[_ H0]].
    + auto.
    + apply I in H0. exact H0.
  - intros s0 c0 H0. apply lookup_delete_Some in H0 as [_ H0]. eauto.
Qed.

Lemma Change_con_indexes (w w' : World) :
  Change w w' -> con_indexes w -> con_indexes w'.
Proof.
  intros H I. unfold con_indexes in *.
  change_cases H; rewrite Hsl, Hsn; try exact I.
  - intros s0. rewrite !lookup_insert_None. specialize (I s0). tauto.
  - intros s0. rewrite !lookup_delete_None. specialize (I s0). tauto.
Qed.

Lemma Change_con_rosters (w w' : World) :
  Change w w' -> con_rosters w -> con_rosters w'.
Proof.
  intros H I. unfold con_rosters in *.
  change_cases H; rewrite Hlu; try exact I.
  - intros c0 m0 n0 Hm0 Hin.
    apply lookup_insert_Some in Hm0 as [[_ <-]|[_ Hm0]]; [|eauto].
    apply elem_of_nil in Hin. contradiction.
  - intros c0 m0 n0 Hm0 Hin.
    apply lookup_insert_Some in Hm0 as [[_ <-]|[_ Hm0]]; [|eauto].
    apply jsmap_set_values in Hin as [->|Hin]; [exact Hn|].
    unfold roster_of in Hin.
    destruct (lobbyUsers w !! c) as [m|] eqn:E; [eauto|].
    apply elem_of_nil in Hin. contradiction.
  - destruct (lobbyUsers w !! L) as [users|] eqn:E; [|exact I].
    intros c0 m0 n0 Hm0 Hin.
    apply lookup_insert_Some in Hm0 as [[_ <-]|[_ Hm0]]; [|eauto].
    apply jsmap_delete_values in Hin. eauto.
Qed.

Lemma Change_con_names (w w' : World) :
  Change w w' -> con_names w -> con_names w'.
Proof.
  intros H I. unfold con_names in *.
  change_cases H; rewrite Hsn; try exact I.
  - intros s0 n0 H0. apply lookup_insert_Some in H0 as [[_ <-]|[_ H0]];
      [exact Hn|eauto].
  - intros s0 n0 H0. apply lookup_delete_Some in H0 as [_ H0]. eauto.
Qed.

Lemma elem_of_without {A : Type} (k : nat) (l : list A) (x : A) :
  x ∈ without k l -> x ∈ l.
Proof.
  unfold without. rewrite elem_of_app. intros [H|H].
  - eapply subseteq_take, H.
  - eapply subseteq_drop, H.
Qed.

Lemma Change_con_parked (w w' : World) :
  Change w w' -> con_parked w -> con_parked w'.
Proof.
  intros H I. unfold con_parked in *.
  change_cases H; rewrite Hlb, Haw; try exact I.
  - intros p Hp. destruct (I p Hp) as [Hr Hl]. split; [|exact Hl].
    apply lookup_insert_is_Some'. auto.
  - intros p Hp. apply elem_of_app in Hp as [Hp|Hp]; [eauto|].
    rewrite Forall_forall in Hparked.
    destruct (Hparked p Hp) as [-> ->]. auto.
  - intros p Hp. apply elem_of_without in Hp. eauto.
  - intros p Hp. apply elem_of_without in Hp. eauto.
Qed.

Lemma Change_consistent (w w' : World) :
  Change w w' -> consistent w -> consistent w'.
Proof.
  intros H (I1 & I2 & I3 & I4 & I5 & I6).
  split; [apply (Change_con_registry w w' H I1)|].
  split; [apply (Change_con_sockets w w' H I2)|].
  split; [apply (Change_con_indexes w w' H I3)|].
  split; [apply (Change_con_rosters w w' H I4)|].
  split; [apply (Change_con_names w w' H I5)|].
  apply (Change_con_parked w w' H I6).
Qed.

Lemma boot_consistent (e : Env) (d : Database) : consistent (boot e d).
Proof.
  unfold consistent, con_registry, con_sockets, con_indexes, con_rosters,
    con_names, con_parked. simpl.
  split; [intros c l H; rewrite lookup_empty in H; discriminate|].
  split; [intros s c H; rewrite lookup_empty in H; discriminate|].
  split; [intros s; rewrite !lookup_empty; tauto|].
  split; [intros c m n H; rewrite lookup_empty in H; discriminate|].
  split; [intros s n H; rewrite lookup_empty in H; discriminate|].
  intros p Hp. apply elem_of_nil in Hp. contradiction.
Qed.

Lemma reachable_consistent (w : World) : reachable w -> consistent w.
Proof.
  induction 1 as [e d|w ev Hreach IH].
  - apply boot_consistent.
  - apply (Change_consistent w _ (handle_Change ev w) IH).
Qed.

Lemma only_acks_lawful (w : World) (acks : list Effect) :
  only_acks acks -> Forall (lawful w) acks.
Proof.
  unfold only_acks. intros H. eapply Forall_impl; [exact H|].
  intros [] H'; simpl in *; tauto.
Qed.

Lemma lawful_later (w w' : World) (e : Effect) :
  Change w w' -> lawful w e -> lawful w' e.
Proof.
  intros H. destruct e as [room event [m|l]|s room| |]; simpl; try tauto.
  - intros (He & Hr & Hm). eauto using Change_registered.
  - intros (He & Hr & Hl). eauto using Change_registered.
  - eauto using Change_registered.
Qed.

Lemma roster_values_valid (w : World) (c : string) :
  con_rosters w -> Forall valid_name (jsmap_values (roster_of w c)).
Proof.
  intros I. apply Forall_forall. intros n Hin. unfold roster_of in Hin.
  destruct (lobbyUsers w !! c) as [m|] eqn:E; [eapply I; eauto|].
  apply elem_of_nil in Hin. contradiction.
Qed.

(** What an event adds to the outputs is lawful in the world it leaves. *)
Lemma Change_lawful (w w' : World) :
  Change w w' -> consistent w ->
  Forall (lawful w) (trace w) -> Forall (lawful w') (trace w').
Proof.
  intros H (I1 & I2 & I3 & I4 & I5 & I6) Hold.
  assert (Hold' : Forall (lawful w') (trace w)).
  { eapply Forall_impl; [exact Hold|]. intros e. apply lawful_later, H. }
  assert (Hreg' : forall c0, is_Some (lobbies w !! c0) ->
                             is_Some (lobbies w' !! c0)).
  { intros c0. apply Change_registered, H. }
  change_cases H; rewrite Htr; try exact Hold';
    apply Forall_app; (split; [exact Hold'|]).
  - apply only_acks_lawful, Hacks.
  - constructor; [simpl; auto|]. constructor.
    + simpl. split; [reflexivity|]. split; [auto|].
      apply Forall_forall. intros x Hx.
      apply jsmap_set_values in Hx as [->|Hx]; [exact Hn|].
      pose proof (roster_values_valid w c I4) as Hv.
      rewrite Forall_forall in Hv. auto.
    + apply only_acks_lawful, Hacks.
  - destruct (lobbyUsers w !! L) as [users|] eqn:E; [|constructor].
    constructor; [|constructor]. simpl. split; [reflexivity|].
    split; [apply Hreg', (I2 _ _ HL)|].
    apply Forall_forall. intros x Hx. apply jsmap_delete_values in Hx.
    eapply I4; eauto.
  - constructor.
    + simpl. split; [reflexivity|]. split; [auto|]. left. auto.
    + apply Forall_app. split; [|apply only_acks_lawful, Hacks].
      eapply Forall_impl; [exact Hnotices|].
      intros e (t1 & t2 & ->). simpl. split; [reflexivity|].
      split; [auto|]. right. repeat split. discriminate.
  - constructor; [|constructor]. simpl. split; [reflexivity|].
    split; [|right; auto].
    apply Hreg', I6. eapply list_elem_of_lookup_2, Hk.
  - constructor; [exact I|]. constructor; [|constructor].
    simpl. split; [reflexivity|]. split.
    + apply Hreg', I6. eapply list_elem_of_lookup_2, Hk.
    + right. repeat split. discriminate.
Qed.

Lemma reachable_lawful (w : World) :
  reachable w -> Forall (lawful w) (trace w).
Proof.
  induction 1 as [e d|w ev Hreach IH].
  - constructor.
  - apply (Change_lawful w _ (handle_Change ev w)
             (reachable_consistent w Hreach) IH).
Qed.

(** ** The table over a run *)

Lemma run_cons (ev : Event) (evs : list Event) (w : World) :
  run (ev :: evs) w = run evs (handle ev w).
Proof. reflexivity. Qed.

Lemma run_reachable (evs : list Event) (w : World) :
  reachable w -> reachable (run evs w).
Proof.
  revert w. induction evs as [|ev evs IH]; intros w Hw; [exact Hw|].
  rewrite run_cons. apply IH, reachable_step, Hw.
Qed.

(** What one event adds to the table. *)
Lemma Change_rows (w w' : World) :
  Change w w' ->
  exists added : list Row,
    rows (db w') = rows (db w) ++ added /\
    (length added <= 1)%nat /\
    seq (db w') = seq (db w) + Z.of_nat (length added) /\
    Forall (fun r => id r = seq (db w) + 1 /\ lawful_row r /\
                     (con_parked w -> is_Some (lobbies w !! lobbyCode r)))
           added.
Proof.
  intros H.
  change_cases H; rewrite Hdb;
    try (exists []; rewrite app_nil_r, Z.add_0_r; simpl;
         repeat split; [lia | constructor]).
  - exists [user_row w c n t]. simpl. repeat split; try lia.
    constructor; [|constructor]. simpl. split; [reflexivity|].
    split; [left; auto|auto].
  - exists [reply_row w (sus_code s) t]. simpl. repeat split; try lia.
    constructor; [|constructor]. simpl. split; [reflexivity|].
    split; [right; auto|].
    intros I6. apply I6. eapply list_elem_of_lookup_2, Hk.
Qed.

Lemma sample_sent_reachable (disk_fails : bool) (key : option string) :
  reachable (sample_sent disk_fails key).
Proof. repeat apply reachable_step. apply reachable_boot. Qed.

Lemma sample_joined_reachable (disk_fails : bool) (key : option string) :
  reachable (sample_joined disk_fails key).
Proof. repeat apply reachable_step. apply reachable_boot. Qed.

(** X14. No event deletes or rewrites a stored row: after any sequence of
    events the table starts with the rows it had, in the same order, and it
    has grown by at most one row per event. *)
Theorem table_append_only (evs : list Event) (w : World) :
  rows (db w) `prefix_of` rows (db (run evs w)) /\
  (length (rows (db (run evs w))) <= length (rows (db w)) + length evs)%nat.
Proof.
  revert w. induction evs as [|ev evs IH]; intros w.
  - simpl. split; [reflexivity|lia].
  - rewrite run_cons. destruct (IH (handle ev w)) as [Hpre Hlen].
    destruct (Change_rows w _ (handle_Change ev w))
      as (added & Hrows & Hone & _).
    rewrite Hrows in Hpre, Hlen. rewrite length_app in Hlen. split.
    + eapply prefix_app_l, Hpre.
    + simpl. lia.
Qed.

Lemma keyed_Change (w w' : World) :
  Change w w' -> keyed (db w) -> keyed (db w').
Proof.
  intros H [Hs Hle].
  destruct (Change_rows w w' H) as (added & Hrows & Hone & Hseq & Hadded).
  unfold keyed. rewrite Hrows, Hseq, map_app. split.
  - apply StronglySorted_app. split; [|split; [exact Hs|]].
    + intros x1 x2 H1 H2.
      apply list_elem_of_In, in_map_iff in H1 as (r1 & <- & H1).
      apply list_elem_of_In, in_map_iff in H2 as (r2 & <- & H2).
      apply list_elem_of_In in H1, H2.
      rewrite Forall_forall in Hle, Hadded.
      specialize (Hle r1 H1). destruct (Hadded r2 H2) as [-> _]. lia.
    + destruct added as [|r [|r' added]]; simpl in *; try lia;
        repeat constructor.
  - apply Forall_app. split.
    + eapply Forall_impl; [exact Hle|]. intros r Hr. simpl in Hr. lia.
    + apply Forall_forall. intros r Hin. rewrite Forall_forall in Hadded.
      destruct (Hadded r Hin) as [-> _].
      destruct added as [|r0 rest];
        [apply elem_of_nil in Hin; contradiction|].
      cbn [length]. lia.
Qed.

(** X15. Rowids stay in step with the writing order: if the table starts
    with rowids that go up and do not exceed its counter, then after any
    sequence of events they still do, so no two stored rows share an
    identifier. *)
Theorem rowids_stay_increasing (evs : list Event) (w : World) :
  keyed (db w) ->
  keyed (db (run evs w)) /\ NoDup (map id (rows (db (run evs w)))).
Proof.
  intros Hk.
  assert (Hk' : keyed (db (run evs w))).
  { revert w Hk. induction evs as [|ev evs IH]; intros w Hk; [exact Hk|].
    rewrite run_cons. apply IH, (keyed_Change w _ (handle_Change ev w) Hk). }
  split; [exact Hk'|]. destruct Hk' as [Hs _].
  induction Hs as [|x l Hs IH Hall]; constructor; [|exact IH].
  intros Hin. rewrite Forall_forall in Hall. specialize (Hall x Hin). lia.
Qed.

Lemma rowids_stay_increasing_witness :
  keyed (db (run sample_events (boot (sample_env false None) empty_table))) /\
  NoDup (map id (rows (db (run sample_events
                             (boot (sample_env false None) empty_table))))).
Proof.
  apply (rowids_stay_increasing sample_events
           (boot (sample_env false None) empty_table)).
  split; constructor.
Defined.

Lemma run_registered (evs : list Event) (w : World) (c : string) :
  is_Some (lobbies w !! c) -> is_Some (lobbies (run evs w) !! c).
Proof.
  revert w. induction evs as [|ev evs IH]; intros w Hreg; [exact Hreg|].
  rewrite run_cons. apply IH.
  apply (Change_registered w _ c (handle_Change ev w) Hreg).
Qed.

(** X17. A registered lobby stays registered, whatever happens next: no
    sequence of events removes a code from the registry, so its history
    route keeps answering 200 and joins naming it keep passing the lobby
    check. *)
Theorem lobbies_persist (evs : list Event) (w : World) (c : string) :
  is_Some (lobbies w !! c) ->
  is_Some (lobbies (run evs w) !! c) /\
  exists found : list Row,
    fst (get_lobby_messages c (run evs w)) =
      Normal {| status := 200; body := MessagesBody found |}.
Proof.
  intros Hreg. pose proof (run_registered evs w c Hreg) as Hreg'.
  split; [exact Hreg'|].
  unfold get_lobby_messages, bind.
  rewrite (lobbies_has_true _ c Hreg'). simpl. eauto.
Qed.

Lemma lobbies_persist_witness :
  is_Some (lobbies (run [Disconnect "s1"; PostLobby alice_creates]
                      (sample_sent false None)) !! "BGLRV2") /\
  exists found : list Row,
    fst (get_lobby_messages "BGLRV2"
           (run [Disconnect "s1"; PostLobby alice_creates]
              (sample_sent false None))) =
      Normal {| status := 200; body := MessagesBody found |}.
Proof.
  apply (lobbies_persist [Disconnect "s1"; PostLobby alice_creates]
           (sample_sent false None) "BGLRV2").
  vm_compute. eauto.
Defined.

(** X16. Every row the server writes is well formed and belongs to a lobby:
    from a reachable world on, the rows added by any sequence of events are
    user rows with content of 1 to 400 characters or assistant rows sent as
    [DM] with non-empty content, and each carries the code of a lobby that
    is registered. *)
Theorem written_rows_lawful (evs : list Event) (w : World) :
  reachable w ->
  exists added : list Row,
    rows (db (run evs w)) = rows (db w) ++ added /\
    Forall (fun r => lawful_row r /\
                     is_Some (lobbies (run evs w) !! lobbyCode r)) added.
Proof.
  revert w. induction evs as [|ev evs IH]; intros w Hreach.
  - exists []. rewrite app_nil_r. split; [reflexivity|constructor].
  - rewrite run_cons.
    destruct (IH (handle ev w) (reachable_step w ev Hreach))
      as (later & Hrows & Hlater).
    destruct (Change_rows w _ (handle_Change ev w))
      as (added & Hadd & _ & _ & Hadded).
    exists (added ++ later). rewrite Hrows, Hadd, app_assoc.
    split; [reflexivity|]. apply Forall_app. split; [|exact Hlater].
    eapply Forall_impl; [exact Hadded|]. intros r (_ & Hrow & Hreg).
    split; [exact Hrow|]. apply run_registered.
    apply (Change_registered w _ _ (handle_Change ev w)).
    apply Hreg, (reachable_consistent w Hreach).
Qed.

Lemma written_rows_lawful_witness :
  exists added : list Row,
    rows (db (run [SendMessage "s1" (JObject hello) true]
                (sample_joined false None))) =
      rows (db (sample_joined false None)) ++ added /\
    Forall (fun r => lawful_row r /\
              is_Some (lobbies (run [SendMessage "s1" (JObject hello) true]
                                  (sample_joined false None))
                         !! lobbyCode r)) added.
Proof.
  apply (written_rows_lawful [SendMessage "s1" (JObject hello) true]
           (sample_joined false None)).
  apply sample_joined_reachable.
Defined.

(** ** What holds in every reachable world *)

(** X18. The registry is keyed by the lobby's own code and every registered
    lobby has a roster: in every reachable world, the record stored under a
    code carries that code, and [lobbyUsers] has an entry for it. *)
Theorem registry_keyed_by_code (w : World) (c : string) (l : LobbyData) :
  reachable w -> lobbies w !! c = Some l ->
  code l = c /\ is_Some (lobbyUsers w !! c).
Proof.
  intros Hreach Hl.
  destruct (reachable_consistent w Hreach) as (I1 & _). exact (I1 c l Hl).
Qed.

Lemma registry_keyed_by_code_witness :
  code {| code := "BGLRV2"; openaiKey := None |} = "BGLRV2" /\
  is_Some (lobbyUsers (sample_sent false None) !! "BGLRV2").
Proof.
  apply (registry_keyed_by_code (sample_sent false None) "BGLRV2"
           {| code := "BGLRV2"; openaiKey := None |}).
  - apply sample_sent_reachable.
  - vm_compute. reflexivity.
Defined.

(** X19. The two connection indexes stay in step and point at real lobbies:
    in every reachable world, a socket with a recorded lobby has a recorded
    nickname of 1 to 32 characters, its lobby is registered and has a code
    of 4 to 10 characters; a socket without a recorded lobby has no recorded
    nickname either. *)
Theorem socket_indexes_in_step (w : World) (s : string) :
  reachable w ->
  match socketToLobby w !! s with
  | Some c =>
      is_Some (lobbies w !! c) /\ (4 <= String.length c <= 10)%nat /\
      exists n : string, socketToNickname w !! s = Some n /\ valid_name n
  | None => socketToNickname w !! s = None
  end.
Proof.
  intros Hreach.
  destruct (reachable_consistent w Hreach) as (_ & I2 & I3 & _ & I5 & _).
  destruct (socketToLobby w !! s) as [c|] eqn:Hc.
  - destruct (I2 s c Hc) as [Hreg Hlen]. split; [exact Hreg|].
    split; [exact Hlen|].
    destruct (socketToNickname w !! s) as [n|] eqn:Hn.
    + exists n. split; [reflexivity|]. apply (I5 s n Hn).
    + apply I3 in Hn. congruence.
  - apply I3, Hc.
Qed.

Lemma socket_indexes_in_step_witness :
  is_Some (lobbies (sample_joined false None) !! "BGLRV2") /\
  (4 <= String.length "BGLRV2" <= 10)%nat /\
  exists n : string,
    socketToNickname (sample_joined false None) !! "s1" = Some n /\
    valid_name n.
Proof.
  pose proof (socket_indexes_in_step (sample_joined false None) "s1"
                (sample_joined_reachable false None)) as H.
  rewrite sample_joined_lobby_of_s1 in H. exact H.
Defined.

(** X20. Rosters hold each connection once and only names that passed the
    join schema: in every reachable world, no roster lists a socket twice
    and every listed display name has 1 to 32 characters. *)
Theorem rosters_well_formed (w : World) (c : string) (m : JsMap string) :
  reachable w -> lobbyUsers w !! c = Some m ->
  NoDup (map fst m) /\ Forall valid_name (jsmap_values m).
Proof.
  intros Hreach Hm. split.
  - destruct (reachable_well_kept w Hreach) as [_ I]. exact (I c m Hm).
  - destruct (reachable_consistent w Hreach) as (_ & _ & _ & I4 & _).
    apply Forall_forall. intros n Hn. exact (I4 c m n Hm Hn).
Qed.

Lemma rosters_well_formed_witness :
  NoDup (map fst [("s1", "Alice")]) /\
  Forall valid_name (jsmap_values [("s1", "Alice")]).
Proof.
  apply (rosters_well_formed (sample_joined false None) "BGLRV2"
           [("s1", "Alice")]).
  - apply sample_joined_reachable.
  - vm_compute. reflexivity.
Defined.

(** X21. The server only ever emits lawful events: in every reachable world,
    each event in the output went to a registered lobby; a [users] event
    carries only names of 1 to 32 characters; a [message] event carries
    either a user's message, with content of 1 to 400 characters and its
    timestamp as identifier, or a message of the assistant, sent as [DM]
    with non-empty content; no other event name is used. *)
Theorem outputs_lawful (w : World) (e : Effect) :
  reachable w -> e ∈ trace w -> lawful w e.
Proof.
  intros Hreach Hin.
  pose proof (reachable_lawful w Hreach) as H.
  rewrite Forall_forall in H. exact (H e Hin).
Qed.

Lemma outputs_lawful_witness :
  lawful (sample_sent false None)
    (Emit "BGLRV2" "users" (UsersPayload ["Alice"])).
Proof.
  apply (outputs_lawful (sample_sent false None)
           (Emit "BGLRV2" "users" (UsersPayload ["Alice"]))).
  - apply sample_sent_reachable.
  - apply list_elem_of_In. vm_compute. tauto.
Defined.

(** ** Joining *)

Lemma roster_of_after_join (w : World) (s : string)
  (o : list (string * Json)) (c n : string) (callback : bool) :
  well_formed_join o c n -> is_Some (lobbies w !! c) ->
  roster_of (snd (on_joinLobby s (JObject o) callback w)) c =
    jsmap_set (roster_of w c) s n.
Proof.
  intros Hwf Hreg. rewrite (on_joinLobby_run w s o c n callback Hwf Hreg).
  unfold roster_of at 1. simpl. rewrite lookup_insert_eq. reflexivity.
Qed.

(** X1. An accepted live join (payload passing the schema, lobby
    registered) ends normally, records the socket's lobby and nickname,
    lists the socket under that nickname in the lobby's roster, and outputs
    [socket.join], exactly one [users] event to the lobby carrying the names
    of the updated roster (the new name among them), then the
    acknowledgement [{}].  The registry, the table, the other rosters and
    the other entries of this roster are left as they were. *)
Theorem join_accepted (w : World) (s : string) (o : list (string * Json))
  (c n : string) (callback : bool) :
  well_formed_join o c n -> is_Some (lobbies w !! c) ->
  let w' := snd (on_joinLobby s (JObject o) callback w) in
  fst (on_joinLobby s (JObject o) callback w) = Normal tt /\
  socketToLobby w' !! s = Some c /\ socketToNickname w' !! s = Some n /\
  jsmap_get (roster_of w' c) s = Some n /\
  n ∈ jsmap_values (roster_of w' c) /\
  trace w' =
    trace w ++
    [SocketJoin s c;
     Emit c "users" (UsersPayload (jsmap_values (roster_of w' c)))] ++
    acked callback s None /\
  lobbies w' = lobbies w /\ db w' = db w /\
  (forall c' : string, c' <> c -> lobbyUsers w' !! c' = lobbyUsers w !! c') /\
  (forall s' : string,
     s' <> s -> jsmap_get (roster_of w' c) s' = jsmap_get (roster_of w c) s').
Proof.
  intros Hwf Hreg. cbv zeta.
  rewrite (roster_of_after_join w s o c n callback Hwf Hreg).
  rewrite (on_joinLobby_run w s o c n callback Hwf Hreg). simpl.
  split; [reflexivity|]. split; [apply lookup_insert_eq|].
  split; [apply lookup_insert_eq|]. split; [apply jsmap_get_set_eq|].
  split; [eapply jsmap_get_listed, jsmap_get_set_eq|].
  split; [reflexivity|]. split; [reflexivity|]. split; [reflexivity|].
  split.
  - intros c' Hne. apply lookup_insert_ne. congruence.
  - intros s' Hne. apply jsmap_get_set_ne. congruence.
Qed.

Lemma join_accepted_witness :
  let w := sample_created false None in
  let w' := snd (on_joinLobby "s1" alice_joins true w) in
  fst (on_joinLobby "s1" alice_joins true w) = Normal tt /\
  socketToLobby w' !! "s1" = Some "BGLRV2" /\
  socketToNickname w' !! "s1" = Some "Alice" /\
  jsmap_get (roster_of w' "BGLRV2") "s1" = Some "Alice" /\
  "Alice" ∈ jsmap_values (roster_of w' "BGLRV2") /\
  trace w' =
    trace w ++
    [SocketJoin "s1" "BGLRV2";
     Emit "BGLRV2" "users"
       (UsersPayload (jsmap_values (roster_of w' "BGLRV2")))] ++
    acked true "s1" None /\
  lobbies w' = lobbies w /\ db w' = db w /\
  (forall c' : string,
     c' <> "BGLRV2" -> lobbyUsers w' !! c' = lobbyUsers w !! c') /\
  (forall s' : string,
     s' <> "s1" ->
     jsmap_get (roster_of w' "BGLRV2") s' =
     jsmap_get (roster_of w "BGLRV2") s').
Proof.
  apply (join_accepted (sample_created false None) "s1"
           [("code", JString "BGLRV2"); ("nickname", JString "Alice")]
           "BGLRV2" "Alice" true).
  - repeat split; simpl; lia.
  - vm_compute. eauto.
Defined.

(** X2. Rosters keep joining order: when the joining socket is not yet
    listed in the lobby's roster, an accepted join puts it at the end, so
    the [users] event carries the previous names followed by the new one. *)
Theorem fresh_join_appends (w : World) (s : string)
  (o : list (string * Json)) (c n : string) (callback : bool) :
  well_formed_join o c n -> is_Some (lobbies w !! c) ->
  s ∉ map fst (roster_of w c) ->
  let w' := snd (on_joinLobby s (JObject o) callback w) in
  roster_of w' c = roster_of w c ++ [(s, n)] /\
  trace w' =
    trace w ++
    [SocketJoin s c;
     Emit c "users" (UsersPayload (jsmap_values (roster_of w c) ++ [n]))] ++
    acked callback s None.
Proof.
  intros Hwf Hreg Hfresh. cbv zeta.
  rewrite (roster_of_after_join w s o c n callback Hwf Hreg).
  rewrite (on_joinLobby_run w s o c n callback Hwf Hreg). simpl.
  rewrite (jsmap_set_fresh _ _ _ Hfresh). split; [reflexivity|].
  unfold jsmap_values. rewrite map_app. reflexivity.
Qed.

Lemma fresh_join_appends_witness :
  let w := sample_joined false None in
  let o := [("code", JString "BGLRV2"); ("nickname", JString "Bob")] in
  let w' := snd (on_joinLobby "s2" (JObject o) false w) in
  roster_of w' "BGLRV2" = roster_of w "BGLRV2" ++ [("s2", "Bob")] /\
  trace w' =
    trace w ++
    [SocketJoin "s2" "BGLRV2";
     Emit "BGLRV2" "users"
       (UsersPayload (jsmap_values (roster_of w "BGLRV2") ++ ["Bob"]))] ++
    acked false "s2" None.
Proof.
  apply (fresh_join_appends (sample_joined false None) "s2"
           [("code", JString "BGLRV2"); ("nickname", JString "Bob")]
           "BGLRV2" "Bob" false).
  - repeat split; simpl; lia.
  - vm_compute. eauto.
  - vm_compute. intros H. apply list_elem_of_singleton in H. discriminate.
Defined.

(** X3. Joining again is an overwrite, not a second entry: when the socket
    is already listed in the lobby's roster, an accepted join keeps the
    roster's sockets and their order, so its size, and only replaces the
    name listed for that socket. *)
Theorem rejoin_overwrites (w : World) (s : string)
  (o : list (string * Json)) (c n : string) (callback : bool) :
  well_formed_join o c n -> is_Some (lobbies w !! c) ->
  s ∈ map fst (roster_of w c) ->
  let w' := snd (on_joinLobby s (JObject o) callback w) in
  map fst (roster_of w' c) = map fst (roster_of w c) /\
  length (roster_of w' c) = length (roster_of w c) /\
  jsmap_get (roster_of w' c) s = Some n /\
  socketToNickname w' !! s = Some n.
Proof.
  intros Hwf Hreg Hin. cbv zeta.
  rewrite (roster_of_after_join w s o c n callback Hwf Hreg).
  pose proof (jsmap_set_keys_listed (roster_of w c) s n Hin) as Hkeys.
  split; [exact Hkeys|]. split.
  - rewrite <- (length_map fst), Hkeys, length_map. reflexivity.
  - split; [apply jsmap_get_set_eq|].
    rewrite (on_joinLobby_run w s o c n callback Hwf Hreg). simpl.
    apply lookup_insert_eq.
Qed.

Lemma rejoin_overwrites_witness :
  let w := sample_joined false None in
  let o := [("code", JString "BGLRV2"); ("nickname", JString "Alicia")] in
  let w' := snd (on_joinLobby "s1" (JObject o) false w) in
  map fst (roster_of w' "BGLRV2") = map fst (roster_of w "BGLRV2") /\
  length (roster_of w' "BGLRV2") = length (roster_of w "BGLRV2") /\
  jsmap_get (roster_of w' "BGLRV2") "s1" = Some "Alicia" /\
  socketToNickname w' !! "s1" = Some "Alicia".
Proof.
  apply (rejoin_overwrites (sample_joined false None) "s1"
           [("code", JString "BGLRV2"); ("nickname", JString "Alicia")]
           "BGLRV2" "Alicia" false).
  - repeat split; simpl; lia.
  - vm_compute. eauto.
  - vm_compute. apply list_elem_of_singleton. reflexivity.
Defined.

Lemma well_formed_join_nonempty (o : list (string * Json)) (c n : string) :
  well_formed_join o c n -> c <> "".
Proof. intros (_ & Hlen & _) ->. simpl in Hlen. lia. Qed.

(** The world left by an accepted join followed by that socket's
    disconnect. *)
Lemma join_then_disconnect_run (w : World) (s : string)
  (o : list (string * Json)) (c n : string) (callback : bool) :
  well_formed_join o c n -> is_Some (lobbies w !! c) ->
  on_disconnect s (snd (on_joinLobby s (JObject o) callback w)) =
    (Normal tt,
     {| env := env w; ticks := ticks w; draws := draws w;
        writes := writes w; lobbies := lobbies w;
        lobbyUsers :=
          <[c := jsmap_delete (jsmap_set (roster_of w c) s n) s]>
            (lobbyUsers w);
        socketToLobby := delete s (socketToLobby w);
        socketToNickname := delete s (socketToNickname w);
        db := db w; awaiting := awaiting w;
        trace :=
          (trace w ++
           [SocketJoin s c;
            Emit c "users"
              (UsersPayload (jsmap_values (jsmap_set (roster_of w c) s n)))]
           ++ acked callback s None) ++
          [Emit c "users"
             (UsersPayload
                (jsmap_values
                   (jsmap_delete (jsmap_set (roster_of w c) s n) s)))] |}).
Proof.
  intros Hwf Hreg.
  rewrite (on_joinLobby_run w s o c n callback Hwf Hreg).
  rewrite (on_disconnect_run _ s c (jsmap_set (roster_of w c) s n)).
  - simpl. rewrite insert_insert_eq, !delete_insert_eq. reflexivity.
  - simpl. apply lookup_insert_eq.
  - eapply well_formed_join_nonempty, Hwf.
  - simpl. apply lookup_insert_eq.
Qed.

(** X4. Joining and leaving undo each other for a new connection: in a
    reachable world, when a socket with no recorded lobby that is not listed
    in the lobby's roster joins and then disconnects, the registry, the
    rosters, both socket indexes and the table are exactly what they were
    before the join; the lobby has been sent two rosters, the one with the
    new name at its end and then the previous one. *)
Theorem join_then_disconnect_restores (w : World) (s : string)
  (o : list (string * Json)) (c n : string) (callback : bool) :
  reachable w ->
  well_formed_join o c n -> is_Some (lobbies w !! c) ->
  socketToLobby w !! s = None ->
  s ∉ map fst (roster_of w c) ->
  let w2 := snd (on_disconnect s (snd (on_joinLobby s (JObject o) callback w)))
  in
  lobbies w2 = lobbies w /\ lobbyUsers w2 = lobbyUsers w /\
  socketToLobby w2 = socketToLobby w /\
  socketToNickname w2 = socketToNickname w /\
  db w2 = db w /\
  trace w2 =
    trace w ++
    [SocketJoin s c;
     Emit c "users" (UsersPayload (jsmap_values (roster_of w c) ++ [n]))] ++
    acked callback s None ++
    [Emit c "users" (UsersPayload (jsmap_values (roster_of w c)))].
Proof.
  intros Hreach Hwf [l Hl] Hnone Hfresh. cbv zeta.
  destruct (reachable_consistent w Hreach) as (I1 & _ & I3 & _).
  destruct (I1 c l Hl) as [_ [m Hm]].
  rewrite (join_then_disconnect_run w s o c n callback Hwf)
    by (rewrite Hl; eauto).
  simpl. rewrite (jsmap_delete_set_fresh _ _ _ Hfresh).
  rewrite (jsmap_set_fresh _ _ _ Hfresh).
  split; [reflexivity|]. split.
  - apply insert_id. unfold roster_of. rewrite Hm. reflexivity.
  - split; [apply delete_id, Hnone|].
    split; [apply delete_id, I3, Hnone|]. split; [reflexivity|].
    unfold jsmap_values. rewrite map_app, <- !app_assoc. reflexivity.
Qed.

Lemma join_then_disconnect_restores_witness :
  let w := sample_joined false None in
  let o := [("code", JString "BGLRV2"); ("nickname", JString "Bob")] in
  let w2 := snd (on_disconnect "s2"
                   (snd (on_joinLobby "s2" (JObject o) true w))) in
  lobbies w2 = lobbies w /\ lobbyUsers w2 = lobbyUsers w /\
  socketToLobby w2 = socketToLobby w /\
  socketToNickname w2 = socketToNickname w /\
  db w2 = db w /\
  trace w2 =
    trace w ++
    [SocketJoin "s2" "BGLRV2";
     Emit "BGLRV2" "users"
       (UsersPayload (jsmap_values (roster_of w "BGLRV2") ++ ["Bob"]))] ++
    acked true "s2" None ++
    [Emit "BGLRV2" "users"
       (UsersPayload (jsmap_values (roster_of w "BGLRV2")))].
Proof.
  apply (join_then_disconnect_restores (sample_joined false None) "s2"
           [("code", JString "BGLRV2"); ("nickname", JString "Bob")]
           "BGLRV2" "Bob" true).
  - apply sample_joined_reachable.
  - repeat split; simpl; lia.
  - vm_compute. eauto.
  - vm_compute. reflexivity.
  - vm_compute. intros H. apply list_elem_of_singleton in H. discriminate.
Defined.

(** X5. A disconnect only clears the lobby joined last: when a socket listed
    in the roster of one lobby joins another lobby and then disconnects,
    the first lobby's roster is untouched throughout, so it still lists the
    socket, although neither socket index knows the socket any more; both
    [users] events of the two steps went to the second lobby. *)
Theorem earlier_lobby_keeps_listing (w : World) (s : string)
  (o : list (string * Json)) (c n L1 n1 : string) (callback : bool) :
  well_formed_join o c n -> is_Some (lobbies w !! c) ->
  L1 <> c -> jsmap_get (roster_of w L1) s = Some n1 ->
  let w2 := snd (on_disconnect s (snd (on_joinLobby s (JObject o) callback w)))
  in
  lobbyUsers w2 !! L1 = lobbyUsers w !! L1 /\
  jsmap_get (roster_of w2 L1) s = Some n1 /\
  socketToLobby w2 !! s = None /\ socketToNickname w2 !! s = None /\
  exists names names' : list string,
    trace w2 =
      trace w ++
      [SocketJoin s c; Emit c "users" (UsersPayload names)] ++
      acked callback s None ++
      [Emit c "users" (UsersPayload names')].
Proof.
  intros Hwf Hreg Hne Hlisted. cbv zeta.
  rewrite (join_then_disconnect_run w s o c n callback Hwf Hreg). simpl.
  assert (Hsame : <[c := jsmap_delete (jsmap_set (roster_of w c) s n) s]>
                    (lobbyUsers w) !! L1 = lobbyUsers w !! L1).
  { apply lookup_insert_ne. congruence. }
  split; [exact Hsame|]. split.
  - unfold roster_of in *. simpl. rewrite Hsame. exact Hlisted.
  - split; [apply lookup_delete_eq|]. split; [apply lookup_delete_eq|].
    eexists _, _. rewrite <- !app_assoc. reflexivity.
Qed.

Lemma earlier_lobby_keeps_listing_witness :
  let w := sample_two_lobbies in
  let o := [("code", JString "6BFLQV"); ("nickname", JString "Alice")] in
  let w2 := snd (on_disconnect "s1"
                   (snd (on_joinLobby "s1" (JObject o) true w))) in
  lobbyUsers w2 !! "BGLRV2" = lobbyUsers w !! "BGLRV2" /\
  jsmap_get (roster_of w2 "BGLRV2") "s1" = Some "Alice" /\
  socketToLobby w2 !! "s1" = None /\ socketToNickname w2 !! "s1" = None /\
  exists names names' : list string,
    trace w2 =
      trace w ++
      [SocketJoin "s1" "6BFLQV"; Emit "6BFLQV" "users" (UsersPayload names)] ++
      acked true "s1" None ++
      [Emit "6BFLQV" "users" (UsersPayload names')].
Proof.
  apply (earlier_lobby_keeps_listing sample_two_lobbies "s1"
           [("code", JString "6BFLQV"); ("nickname", JString "Alice")]
           "6BFLQV" "Alice" "BGLRV2" "Alice" true).
  - repeat split; simpl; lia.
  - vm_compute. eauto.
  - discriminate.
  - vm_compute. reflexivity.
Defined.

(** ** Creating lobbies *)

Lemma createLobbySchema_well_formed (o : list (string * Json))
  (nickname : string) (key : option string) :
  well_formed_create o nickname key ->
  createLobbySchema (JObject o) =
    Some {| cl_nickname := nickname; cl_openaiApiKey := key |}.
Proof.
  intros (Hn & Hnlen & Hk). unfold createLobbySchema.
  rewrite Hn, string_min_max_in by exact Hnlen.
  destruct key as [k|].
  - destruct Hk as [-> Hklen]. unfold z.optional.
    rewrite string_min_max_in by exact Hklen. reflexivity.
  - rewrite Hk. reflexivity.
Qed.

Lemma createLobbySchema_malformed (b : Json) :
  malformed_create b -> createLobbySchema b = None.
Proof.
  unfold malformed_create, createLobbySchema.
  destruct b as [| | | | | |o]; try reflexivity.
  intros [Hn|[Hdef Hk]].
  - destruct (z.string_min_max 1 32 (prop o "nickname")) as [n|] eqn:E;
      [|reflexivity].
    apply string_min_max_inv in E as [E Hlen]. specialize (Hn n E). lia.
  - destruct (z.string_min_max 1 32 (prop o "nickname")); [|reflexivity].
    unfold z.optional.
    destruct (prop o "openaiApiKey") as [| | | |k| |] eqn:E;
      try reflexivity; try contradiction.
    rewrite string_min_max_out; [reflexivity|].
    specialize (Hk k eq_refl). lia.
Qed.

(** X6. [POST /lobby] turns down every malformed body: a body that is not an
    object, or whose nickname is missing, not a string, empty or longer
    than 32 characters, or whose key is present but null, not a string,
    empty or longer than 200 characters, is answered with 400 "Invalid
    payload"; no lobby is created, no draw is taken and the world is left
    as it was. *)
Theorem create_malformed_rejected (w : World) (b : Json) :
  malformed_create b ->
  post_lobby b w =
    (Normal {| status := 400; body := ErrorBody "Invalid payload" |}, w).
Proof.
  intros Hbad. unfold post_lobby.
  rewrite (createLobbySchema_malformed b Hbad). reflexivity.
Qed.

Lemma create_malformed_rejected_witness :
  post_lobby
    (JObject [("nickname", JString "Alice"); ("openaiApiKey", JNull)])
    (sample_joined false None) =
    (Normal {| status := 400; body := ErrorBody "Invalid payload" |},
     sample_joined false None).
Proof.
  apply (create_malformed_rejected (sample_joined false None)
           (JObject [("nickname", JString "Alice"); ("openaiApiKey", JNull)])).
  right. split; [discriminate|]. intros k Hk. discriminate.
Defined.

(** X7. The key given at creation takes precedence over the process-wide
    one: on a well-formed body [POST /lobby] answers 200 with a code and
    registers under it a lobby whose key is the given key when there is
    one, and [process.env.OPENAI_API_KEY] as it is otherwise.  Nothing is
    emitted and the table is not touched; the answer carries the code
    alone. *)
Theorem create_stores_credential (w : World) (o : list (string * Json))
  (nickname : string) (key : option string) :
  well_formed_create o nickname key ->
  exists c : string,
    fst (post_lobby (JObject o) w) =
      Normal {| status := 200; body := CodeBody c |} /\
    lobbies (snd (post_lobby (JObject o) w)) !! c =
      Some {| code := c;
              openaiKey := match key with
                           | Some k => Some k
                           | None => OPENAI_API_KEY (env w)
                           end |} /\
    trace (snd (post_lobby (JObject o) w)) = trace w /\
    db (snd (post_lobby (JObject o) w)) = db w.
Proof.
  intros Hwf.
  destruct (post_lobby_created w (JObject o) _
              (createLobbySchema_well_formed o nickname key Hwf))
    as (c & w1 & _ & Hfst & Hlb & _ & _ & _ & Hdb & _ & Htr).
  exists c. split; [exact Hfst|]. rewrite Hlb, lookup_insert_eq.
  split; [|auto]. do 2 f_equal. simpl.
  destruct key as [k|]; [|reflexivity].
  destruct Hwf as (_ & _ & _ & Hklen).
  unfold or_else. rewrite truthy_nonempty; [reflexivity|].
  intros ->. simpl in Hklen. lia.
Qed.

Lemma create_stores_credential_witness :
  exists c : string,
    fst (post_lobby
           (JObject [("nickname", JString "Bob");
                     ("openaiApiKey", JString "sk-own")])
           (boot repeating_env empty_table)) =
      Normal {| status := 200; body := CodeBody c |} /\
    lobbies (snd (post_lobby
                    (JObject [("nickname", JString "Bob");
                              ("openaiApiKey", JString "sk-own")])
                    (boot repeating_env empty_table))) !! c =
      Some {| code := c; openaiKey := Some "sk-own" |} /\
    trace (snd (post_lobby
                  (JObject [("nickname", JString "Bob");
                            ("openaiApiKey", JString "sk-own")])
                  (boot repeating_env empty_table))) =
      trace (boot repeating_env empty_table) /\
    db (snd (post_lobby
               (JObject [("nickname", JString "Bob");
                         ("openaiApiKey", JString "sk-own")])
               (boot repeating_env empty_table))) =
      db (boot repeating_env empty_table).
Proof.
  apply (create_stores_credential (boot repeating_env empty_table)
           [("nickname", JString "Bob"); ("openaiApiKey", JString "sk-own")]
           "Bob" (Some "sk-own")).
  repeat split; simpl; lia.
Defined.

(** X8. Codes are not checked for collisions: creating a lobby always
    leaves the roster of the returned code empty, whatever it listed
    before, and overwrites what was registered under that code, while both
    socket indexes, and every lobby and roster under another code, are left
    as they were; so sockets recorded in a lobby whose code comes up again
    stay recorded in it but are no longer listed. *)
Theorem create_resets_roster (w : World) (o : list (string * Json))
  (nickname : string) (key : option string) :
  well_formed_create o nickname key ->
  exists c : string,
    fst (post_lobby (JObject o) w) =
      Normal {| status := 200; body := CodeBody c |} /\
    lobbyUsers (snd (post_lobby (JObject o) w)) !! c = Some [] /\
    socketToLobby (snd (post_lobby (JObject o) w)) = socketToLobby w /\
    socketToNickname (snd (post_lobby (JObject o) w)) = socketToNickname w /\
    forall c' : string,
      c' <> c ->
      lobbies (snd (post_lobby (JObject o) w)) !! c' = lobbies w !! c' /\
      lobbyUsers (snd (post_lobby (JObject o) w)) !! c' = lobbyUsers w !! c'.
Proof.
  intros Hwf.
  destruct (post_lobby_created w (JObject o) _
              (createLobbySchema_well_formed o nickname key Hwf))
    as (c & w1 & _ & Hfst & Hlb & Hlu & Hsl & Hsn & _).
  exists c. split; [exact Hfst|]. rewrite Hlb, Hlu.
  split; [apply lookup_insert_eq|]. split; [exact Hsl|].
  split; [exact Hsn|]. intros c' Hne.
  split; apply lookup_insert_ne; congruence.
Qed.

(** The code of Alice's lobby comes up again: the lobby is created anew
    with an empty roster while her socket is still recorded in it. *)
Lemma sample_collision :
  fst (post_lobby alice_creates sample_repeating) =
    Normal {| status := 200; body := CodeBody "AAAAAA" |} /\
  lobbyUsers sample_repeating !! "AAAAAA" = Some [("s1", "Alice")] /\
  lobbyUsers (snd (post_lobby alice_creates sample_repeating)) !! "AAAAAA" =
    Some [] /\
  socketToLobby (snd (post_lobby alice_creates sample_repeating)) !! "s1" =
    Some "AAAAAA".
Proof. vm_compute. auto. Qed.

Lemma create_resets_roster_witness :
  exists c : string,
    fst (post_lobby alice_creates sample_repeating) =
      Normal {| status := 200; body := CodeBody c |} /\
    lobbyUsers (snd (post_lobby alice_creates sample_repeating)) !! c =
      Some [] /\
    socketToLobby (snd (post_lobby alice_creates sample_repeating)) =
      socketToLobby sample_repeating /\
    socketToNickname (snd (post_lobby alice_creates sample_repeating)) =
      socketToNickname sample_repeating /\
    forall c' : string,
      c' <> c ->
      lobbies (snd (post_lobby alice_creates sample_repeating)) !! c' =
        lobbies sample_repeating !! c' /\
      lobbyUsers (snd (post_lobby alice_creates sample_repeating)) !! c' =
        lobbyUsers sample_repeating !! c'.
Proof.
  apply (create_resets_roster sample_repeating
           [("nickname", JString "Alice")] "Alice" None).
  repeat split; simpl; lia.
Defined.

(** X9. A code just handed out can be used at once: after [POST /lobby]
    on a well-formed body, with every reading of [Math.random()] in [0, 1),
    the returned code has 6 characters, so any join payload naming it with
    a nickname of 1 to 32 characters passes the join schema; the pre-check
    answers [{ ok: true }], the history route answers 200, and a live join
    is accepted and leaves the socket as the lobby's only listed member. *)
Theorem created_code_is_joinable (w : World) (o : list (string * Json))
  (nickname : string) (key : option string) :
  well_formed_create o nickname key ->
  random_in_unit_interval (env w) ->
  exists c : string,
    fst (post_lobby (JObject o) w) =
      Normal {| status := 200; body := CodeBody c |} /\
    forall (o2 : list (string * Json)) (n2 s : string) (callback : bool),
      prop o2 "code" = JString c -> prop o2 "nickname" = JString n2 ->
      valid_name n2 ->
      let w' := snd (post_lobby (JObject o) w) in
      well_formed_join o2 c n2 /\
      post_lobby_join (JObject o2) w' =
        (Normal {| status := 200; body := OkBody |}, w') /\
      (exists found : list Row,
         get_lobby_messages c w' =
           (Normal {| status := 200; body := MessagesBody found |}, w')) /\
      fst (on_joinLobby s (JObject o2) callback w') = Normal tt /\
      roster_of (snd (on_joinLobby s (JObject o2) callback w')) c =
        [(s, n2)].
Proof.
  intros Hwf Hr.
  pose proof (createLobbySchema_well_formed o nickname key Hwf) as Hd.
  destruct (post_lobby_created w (JObject o) _ Hd)
    as (c & w1 & Hgen & Hfst & Hlb & Hlu & _).
  destruct (generateCode_loop_ok 6 "" w Hr) as (c' & w1' & Hgen' & Hlen & _).
  unfold generateCode in Hgen. rewrite Hgen' in Hgen.
  injection Hgen as -> ->. simpl in Hlen.
  exists c. split; [exact Hfst|].
  intros o2 n2 s callback Hc2 Hn2 Hvalid. cbv zeta.
  set (w' := snd (post_lobby (JObject o) w)) in *.
  assert (Hreg : is_Some (lobbies w' !! c)).
  { rewrite Hlb, lookup_insert_eq. eauto. }
  assert (Hwf2 : well_formed_join o2 c n2).
  { unfold well_formed_join, valid_name in *. rewrite Hlen.
    repeat split; auto; lia. }
  split; [exact Hwf2|]. split; [|split; [|split]].
  - unfold post_lobby_join.
    rewrite (joinLobbySchema_well_formed o2 c n2 Hwf2). cbn [jl_code].
    unfold bind. rewrite (lobbies_has_true w' c Hreg). reflexivity.
  - unfold get_lobby_messages, bind.
    rewrite (lobbies_has_true w' c Hreg). simpl. eauto.
  - rewrite (on_joinLobby_run w' s o2 c n2 callback Hwf2 Hreg). reflexivity.
  - rewrite (roster_of_after_join w' s o2 c n2 callback Hwf2 Hreg).
    unfold roster_of. rewrite Hlu, lookup_insert_eq. reflexivity.
Qed.

Lemma created_code_is_joinable_witness :
  exists c : string,
    fst (post_lobby alice_creates (boot (sample_env false None) empty_table))
      = Normal {| status := 200; body := CodeBody c |} /\
    forall (o2 : list (string * Json)) (n2 s : string) (callback : bool),
      prop o2 "code" = JString c -> prop o2 "nickname" = JString n2 ->
      valid_name n2 ->
      let w' := snd (post_lobby alice_creates
                       (boot (sample_env false None) empty_table)) in
      well_formed_join o2 c n2 /\
      post_lobby_join (JObject o2) w' =
        (Normal {| status := 200; body := OkBody |}, w') /\
      (exists found : list Row,
         get_lobby_messages c w' =
           (Normal {| status := 200; body := MessagesBody found |}, w')) /\
      fst (on_joinLobby s (JObject o2) callback w') = Normal tt /\
      roster_of (snd (on_joinLobby s (JObject o2) callback w')) c =
        [(s, n2)].
Proof.
  apply (created_code_is_joinable (boot (sample_env false None) empty_table)
           [("nickname", JString "Alice")] "Alice" None).
  - repeat split; simpl; lia.
  - apply sample_env_random.
Defined.

(** ** Reading over HTTP *)

(** X10. The two read routes never change anything: for every body and
    every code, [POST /lobby/join] and [GET /lobby/:code/messages] leave the
    world exactly as it was, so the pre-check records no membership; and the
    pre-check answers [{ ok: true }] exactly when the body is an object
    whose code is a string of 4 to 10 characters naming a registered lobby
    and whose nickname is a string of 1 to 32 characters. *)
Theorem http_reads_change_nothing (w : World) (b : Json) (c : string) :
  snd (post_lobby_join b w) = w /\
  snd (get_lobby_messages c w) = w /\
  (fst (post_lobby_join b w) = Normal {| status := 200; body := OkBody |} <->
   exists (o : list (string * Json)) (c0 n : string),
     b = JObject o /\ well_formed_join o c0 n /\ is_Some (lobbies w !! c0)).
Proof.
  split; [|split].
  - unfold post_lobby_join. destruct (joinLobbySchema b); [|reflexivity].
    unfold bind, lobbies_has. destruct (bool_decide _); reflexivity.
  - unfold get_lobby_messages, bind, lobbies_has.
    destruct (bool_decide _); reflexivity.
  - unfold post_lobby_join. split.
    + destruct (joinLobbySchema b) as [d|] eqn:Hd; [|discriminate].
      destruct (joinLobbySchema_inv b d Hd) as (o & -> & Hwf).
      destruct (lobbies w !! jl_code d) as [l|] eqn:Hl.
      * intros _. exists o, (jl_code d), (jl_nickname d).
        rewrite Hl. eauto.
      * unfold bind. rewrite (lobbies_has_false w _ Hl). discriminate.
    + intros (o & c0 & n & -> & Hwf & Hreg).
      rewrite (joinLobbySchema_well_formed o c0 n Hwf). cbn [jl_code].
      unfold bind. rewrite (lobbies_has_true w c0 Hreg). reflexivity.
Qed.

(** ** Sends *)

(** X11. A well-formed send to a code that is not registered is turned
    down before anything happens: the handler ends normally, the maps, the
    table and the parked calls are what they were, no clock reading and no
    write is made, nothing is emitted to any lobby, and the only output is
    the acknowledgement [{ error: 'Lobby not found' }]. *)
Theorem send_unknown_lobby_rejected (w : World) (s : string)
  (o : list (string * Json)) (c nickname text : string) (callback : bool) :
  well_formed_send o c nickname text ->
  lobbies w !! c = None ->
  let w' := snd (on_message s (JObject o) callback w) in
  fst (on_message s (JObject o) callback w) = Normal tt /\
  same_state w w' /\ ticks w' = ticks w /\ writes w' = writes w /\
  trace w' = trace w ++ acked callback s (Some "Lobby not found").
Proof.
  intros Hwf Hnone. cbv zeta.
  rewrite (on_message_unknown_lobby w s o c nickname text callback Hwf Hnone).
  destruct (callback_opt_spec callback s (Some "Lobby not found") w)
    as (Hfst & Hsame & Htr).
  split; [exact Hfst|]. split; [exact Hsame|].
  split; [|split; [|exact Htr]]; destruct callback; reflexivity.
Qed.

Lemma send_unknown_lobby_rejected_witness :
  let w := sample_joined false None in
  let w' := snd (on_message "s1" (JObject [("code", JString "ZZZZZZ");
                                           ("nickname", JString "Alice");
                                           ("content", JString "hello")])
                   true w) in
  fst (on_message "s1" (JObject [("code", JString "ZZZZZZ");
                                 ("nickname", JString "Alice");
                                 ("content", JString "hello")]) true w) =
    Normal tt /\
  same_state w w' /\ ticks w' = ticks w /\ writes w' = writes w /\
  trace w' = trace w ++ acked true "s1" (Some "Lobby not found").
Proof.
  apply (send_unknown_lobby_rejected (sample_joined false None) "s1"
           [("code", JString "ZZZZZZ"); ("nickname", JString "Alice");
            ("content", JString "hello")] "ZZZZZZ" "Alice" "hello" true).
  - repeat split; simpl; lia.
  - vm_compute. reflexivity.
Defined.

(** ** Replies of the provider *)

(** X12. A fulfilled provider call stores and broadcasts one and the same
    text, which is never empty: the content of the first choice when that
    is a non-empty string, and ["Ready to keep chatting!"] when there is no
    choice, no message, a null content or an empty one; later choices are
    ignored.  With a working disk the reply is written as one row of the
    parked lobby and emitted to it as one [message] event from [DM], and
    only the settled call leaves the parked calls. *)
Theorem reply_takes_first_choice (w : World) (k : nat) (s : Suspended)
  (choices : list Choice) :
  awaiting w !! k = Some s ->
  write_fails_at (env w) (writes w) = false ->
  let text := first_choice_text choices in
  let w' := snd (on_settled k (Fulfilled choices) w) in
  fst (on_settled k (Fulfilled choices) w) = Normal tt /\
  rows (db w') = rows (db w) ++ [reply_row w (sus_code s) text] /\
  trace w' =
    trace w ++
    [Emit (sus_code s) "message" (MessagePayload (reply_message w text))] /\
  awaiting w' = without k (awaiting w) /\
  text <> "" /\
  text = match choices with
         | {| message := Some (Some t) |} :: _ =>
             if String.eqb t "" then "Ready to keep chatting!" else t
         | _ => "Ready to keep chatting!"
         end.
Proof.
  intros Hk Hw. cbv zeta.
  rewrite (on_settled_fulfilled_run w k s choices Hk Hw). simpl.
  repeat split.
  - apply first_choice_text_nonempty.
  - unfold first_choice_text, truthy.
    destruct choices as [|[[[t|]|]] rest]; simpl; try reflexivity.
    destruct (String.eqb t ""); reflexivity.
Qed.

Lemma reply_takes_first_choice_witness :
  let w := sample_sent false (Some "sk-sample") in
  let choices :=
    [{| message := Some (Some "") |}; {| message := Some (Some "later") |}] in
  let s := {| sus_code := "BGLRV2"; sus_content := "hello";
              sus_apiKey := "sk-sample" |} in
  let text := first_choice_text choices in
  let w' := snd (on_settled 0 (Fulfilled choices) w) in
  fst (on_settled 0 (Fulfilled choices) w) = Normal tt /\
  rows (db w') = rows (db w) ++ [reply_row w (sus_code s) text] /\
  trace w' =
    trace w ++
    [Emit (sus_code s) "message" (MessagePayload (reply_message w text))] /\
  awaiting w' = without 0 (awaiting w) /\
  text <> "" /\
  text = "Ready to keep chatting!".
Proof.
  apply (reply_takes_first_choice (sample_sent false (Some "sk-sample")) 0
           {| sus_code := "BGLRV2"; sus_content := "hello";
              sus_apiKey := "sk-sample" |}
           [{| message := Some (Some "") |};
            {| message := Some (Some "later") |}]).
  - vm_compute. reflexivity.
  - vm_compute. reflexivity.
Defined.

(** X13. A reply that cannot be written is not delivered: when the provider
    fulfils the call but the write of the reply fails, the handler still
    ends normally, the table is what it was, the storage error is logged on
    the server, and the lobby is sent the fixed [unavailable_text] notice
    instead of the provider's text; the call leaves the parked calls. *)
Theorem reply_write_failure_falls_back (w : World) (k : nat) (s : Suspended)
  (choices : list Choice) :
  awaiting w !! k = Some s ->
  write_fails_at (env w) (writes w) = true ->
  let w' := snd (on_settled k (Fulfilled choices) w) in
  fst (on_settled k (Fulfilled choices) w) = Normal tt /\
  db w' = db w /\ same_maps w w' /\
  awaiting w' = without k (awaiting w) /\
  trace w' =
    trace w ++
    [ConsoleError "OpenAI error" StorageError;
     Emit (sus_code s) "message"
       (MessagePayload
          (notice unavailable_text
             (Date_now_at (env w) (S (ticks w)))
             (Date_now_at (env w) (S (S (ticks w))))))].
Proof.
  intros Hk Hw. cbv zeta.
  rewrite (on_settled_write_failed_run w k s choices Hk Hw). simpl.
  repeat split.
Qed.

Lemma reply_write_failure_falls_back_witness :
  let w := sample_sent_failing_later in
  let s := {| sus_code := "BGLRV2"; sus_content := "hello";
              sus_apiKey := "sk-sample" |} in
  let choices := [{| message := Some (Some "Welcome!") |}] in
  let w' := snd (on_settled 0 (Fulfilled choices) w) in
  fst (on_settled 0 (Fulfilled choices) w) = Normal tt /\
  db w' = db w /\ same_maps w w' /\
  awaiting w' = without 0 (awaiting w) /\
  trace w' =
    trace w ++
    [ConsoleError "OpenAI error" StorageError;
     Emit (sus_code s) "message"
       (MessagePayload
          (notice unavailable_text
             (Date_now_at (env w) (S (ticks w)))
             (Date_now_at (env w) (S (S (ticks w))))))].
Proof.
  apply (reply_write_failure_falls_back sample_sent_failing_later 0
           {| sus_code := "BGLRV2"; sus_content := "hello";
              sus_apiKey := "sk-sample" |}
           [{| message := Some (Some "Welcome!") |}]).
  - vm_compute. reflexivity.
  - vm_compute. reflexivity.
Defined.

(** ** Sends and their lobby *)

Lemma where_lobbyCode_other (w : World) (c c' nickname text : string) :
  c' <> c ->
  where_lobbyCode c' (rows (db w) ++ [user_row w c nickname text]) =
  where_lobbyCode c' (rows (db w)).
Proof.
  intros Hne. rewrite where_lobbyCode_app.
  unfold where_lobbyCode at 2, user_row. simpl.
  destruct (String.eqb c c') eqn:E.
  - apply String.eqb_eq in E. congruence.
  - apply app_nil_r.
Qed.

(** X22. A send stays in its lobby: an accepted send to one lobby leaves
    the stored rows and the history of every other lobby as they were,
    changes no roster, and addresses everything it emits to the lobby named
    in the payload. *)
Theorem send_stays_in_lobby (w : World) (s : string)
  (o : list (string * Json)) (c nickname text : string) (callback : bool)
  (c' : string) :
  well_formed_send o c nickname text ->
  is_Some (lobbies w !! c) ->
  write_fails_at (env w) (writes w) = false ->
  c' <> c ->
  let w' := snd (on_message s (JObject o) callback w) in
  where_lobbyCode c' (rows (db w')) = where_lobbyCode c' (rows (db w)) /\
  history c' w' = history c' w /\
  lobbyUsers w' = lobbyUsers w /\
  exists new : list Effect,
    trace w' = trace w ++ new /\ Forall (addressed_to c) new.
Proof.
  intros Hwf [l Hl] Hw Hne. cbv zeta.
  destruct (on_message_accepted w s o c nickname text callback l Hwf Hl Hw)
    as (_ & Hlb & Hlu & _ & _ & Hdb & Hcase).
  assert (Hrows : where_lobbyCode c' (rows (db (snd (on_message s (JObject o)
                    callback w)))) = where_lobbyCode c' (rows (db w))).
  { rewrite Hdb. simpl rows. apply where_lobbyCode_other, Hne. }
  split; [exact Hrows|]. split; [|split; [exact Hlu|]].
  - unfold history, get_lobby_messages, bind, lobbies_has, selectMessages_all.
    rewrite Hlb. destruct (bool_decide _); simpl; [|reflexivity].
    rewrite Hrows. reflexivity.
  - destruct (truthy (openaiKey l)); destruct Hcase as [_ ->];
      eexists; (split; [reflexivity|]);
      destruct callback; repeat constructor.
Qed.

Lemma send_stays_in_lobby_witness :
  let w := sample_two_lobbies in
  let w' := snd (on_message "s1" (JObject hello) true w) in
  where_lobbyCode "6BFLQV" (rows (db w')) =
    where_lobbyCode "6BFLQV" (rows (db w)) /\
  history "6BFLQV" w' = history "6BFLQV" w /\
  lobbyUsers w' = lobbyUsers w /\
  exists new : list Effect,
    trace w' = trace w ++ new /\ Forall (addressed_to "BGLRV2") new.
Proof.
  apply (send_stays_in_lobby sample_two_lobbies "s1" hello "BGLRV2" "Alice"
           "hello" true "6BFLQV").
  - repeat split; simpl; lia.
  - vm_compute. eauto.
  - vm_compute. reflexivity.
  - discriminate.
Defined.

(** X23. What a send does never depends on the socket it came from: without
    an acknowledgement callback the whole outcome is the same for any two
    sockets, whether or not they joined the lobby; and a callback changes
    neither the result nor the maps, the table or the parked calls, it only
    adds acknowledgements at the end of the output. *)
Theorem send_ignores_sender_socket (w : World) (s1 s2 : string) (p : Json)
  (callback : bool) :
  on_message s1 p false w = on_message s2 p false w /\
  fst (on_message s1 p callback w) = fst (on_message s1 p false w) /\
  same_state (snd (on_message s1 p false w))
             (snd (on_message s1 p callback w)) /\
  exists acks : list Effect,
    only_acks acks /\
    trace (snd (on_message s1 p callback w)) =
      trace (snd (on_message s1 p false w)) ++ acks.
Proof.
  split; [reflexivity|].
  destruct (messageSchema p) as [d|] eqn:Hp.
  - destruct (messageSchema_inv p d Hp) as (o & -> & Hwf).
    set (c := mi_code d) in *. set (n := mi_nickname d) in *.
    set (t := mi_content d) in *.
    destruct (lobbies w !! c) as [l|] eqn:Hl.
    + destruct (write_fails_at (env w) (writes w)) eqn:Hw.
      * rewrite !(on_message_write_failed w s1 o c n t _ Hwf)
          by (rewrite ?Hl; eauto).
        split; [reflexivity|]. split; [repeat split|].
        exists []. split; [constructor|]. simpl. symmetry. apply app_nil_r.
      * destruct (on_message_accepted w s1 o c n t callback l Hwf Hl Hw)
          as (Hf & Hlb & Hlu & Hsl & Hsn & Hdb & Hcase).
        destruct (on_message_accepted w s1 o c n t false l Hwf Hl Hw)
          as (Hf' & Hlb' & Hlu' & Hsl' & Hsn' & Hdb' & Hcase').
        split; [congruence|]. unfold same_state.
        rewrite Hlb, Hlu, Hsl, Hsn, Hdb, Hlb', Hlu', Hsl', Hsn', Hdb'.
        destruct (truthy (openaiKey l));
          destruct Hcase as [-> ->]; destruct Hcase' as [-> ->];
          (split; [repeat split|]);
          exists (acked callback s1 None);
          (split; [apply acked_only_acks|]);
          unfold acked at 2; rewrite app_nil_r, <- !app_assoc; reflexivity.
    + rewrite !(on_message_unknown_lobby w s1 o c n t _ Hwf Hl).
      destruct (callback_opt_spec callback s1 (Some "Lobby not found") w)
        as (Hf & Hsame & Htr).
      split; [exact Hf|]. split; [exact Hsame|].
      eexists. split; [apply acked_only_acks|exact Htr].
  - unfold on_message. rewrite Hp.
    destruct (callback_opt_spec callback s1 (Some "Invalid payload") w)
      as (Hf & Hsame & Htr).
    split; [exact Hf|]. split; [exact Hsame|].
    eexists. split; [apply acked_only_acks|exact Htr].
Qed.

(** ** The client's requests *)

Lemma drop_spaces_nil_iff (l : list Ascii.ascii) :
  App.drop_spaces l = [] <-> Forall (fun ch => App.is_space ch = true) l.
Proof.
  induction l as [|ch l IH]; simpl.
  - split; [constructor|reflexivity].
  - destruct (App.is_space ch) eqn:E.
    + rewrite IH. split; [constructor; assumption|].
      intros H. apply Forall_cons in H. tauto.
    + split; [discriminate|]. intros H. apply Forall_cons in H.
      destruct H. congruence.
Qed.

Lemma drop_spaces_head (l : list Ascii.ascii) (ch : Ascii.ascii)
  (rest : list Ascii.ascii) :
  App.drop_spaces l = ch :: rest -> App.is_space ch = false.
Proof.
  induction l as [|c0 l IH]; simpl; [discriminate|].
  destruct (App.is_space c0) eqn:E; [exact IH|].
  intros [= -> _]. exact E.
Qed.

Lemma drop_spaces_snoc (l : list Ascii.ascii) (ch : Ascii.ascii) :
  App.is_space ch = false -> App.drop_spaces (l ++ [ch]) <> [].
Proof.
  intros Hch. induction l as [|c0 l IH]; simpl.
  - rewrite Hch. discriminate.
  - destruct (App.is_space c0); [exact IH|discriminate].
Qed.

Lemma trim_empty_iff (s : string) :
  App.not_ (App.trim s) = true <-> blank s.
Proof.
  unfold App.not_, App.trim, blank. rewrite String.eqb_eq.
  rewrite <- drop_spaces_nil_iff.
  destruct (App.drop_spaces (String.list_ascii_of_string s)) as [|ch rest]
    eqn:E.
  - simpl. tauto.
  - split; [|discriminate]. intros H. exfalso.
    apply drop_spaces_head in E.
    assert (Hne : App.drop_spaces (rev (ch :: rest)) <> []).
    { simpl. apply drop_spaces_snoc, E. }
    destruct (App.drop_spaces (rev (ch :: rest))) as [|c1 r1] eqn:E1;
      [contradiction|].
    destruct (rev (c1 :: r1)) as [|c2 r2] eqn:E2.
    + apply (f_equal (@length _)) in E2. rewrite length_rev in E2.
      discriminate.
    + discriminate.
Qed.

Lemma not_blank_nonempty (s : string) :
  ~ blank s -> (1 <= String.length s)%nat.
Proof.
  intros H. destruct s as [|ch s]; simpl; [|lia].
  exfalso. apply H. constructor.
Qed.

Lemma trim_not_empty (s : string) :
  ~ blank s -> App.not_ (App.trim s) = false.
Proof.
  intros H. destruct (App.not_ (App.trim s)) eqn:E; [|reflexivity].
  apply trim_empty_iff in E. contradiction.
Qed.

Lemma handleSend_sends (a : App.State) :
  ~ blank (App.inputMessage a) -> App.socketRef a <> None ->
  App.handleSend a =
    ({| App.screen := App.screen a; App.nickname := App.nickname a;
        App.lobbyCode := App.lobbyCode a; App.serverUrl := App.serverUrl a;
        App.apiKey := App.apiKey a; App.users := App.users a;
        App.messages := App.messages a; App.inputMessage := "";
        App.socketRef := App.socketRef a |},
     [App.SocketEmit "message"
        (JObject [("code", JString (App.lobbyCode a));
                  ("nickname", JString (App.nickname a));
                  ("content", JString (App.inputMessage a))])]).
Proof.
  intros Hb Hs. unfold App.handleSend, App.no_socket.
  rewrite (trim_not_empty _ Hb).
  destruct (App.socketRef a); [reflexivity|contradiction].
Qed.

(** X24. The client sends exactly what was typed, and nothing when there is
    nothing to send: [handleSend] does nothing at all (same state, no
    emit) when the input is empty or made of white space only, or when
    there is no socket; otherwise it emits one [message] event whose
    payload carries the lobby code and nickname of the state and the input
    as typed, untrimmed, and it clears the input field. *)
Theorem client_send_payload (a : App.State) :
  (blank (App.inputMessage a) \/ App.socketRef a = None ->
   App.handleSend a = (a, [])) /\
  (~ blank (App.inputMessage a) -> App.socketRef a <> None ->
   App.inputMessage (fst (App.handleSend a)) = "" /\
   snd (App.handleSend a) =
     [App.SocketEmit "message"
        (JObject [("code", JString (App.lobbyCode a));
                  ("nickname", JString (App.nickname a));
                  ("content", JString (App.inputMessage a))])] /\
   (1 <= String.length (App.inputMessage a))%nat).
Proof.
  unfold App.handleSend, App.no_socket. split.
  - intros [Hb | Hs].
    + apply trim_empty_iff in Hb. rewrite Hb. reflexivity.
    + rewrite Hs, orb_true_r. reflexivity.
  - intros Hb Hs. fold (App.no_socket a). fold (App.handleSend a).
    rewrite (handleSend_sends a Hb Hs). simpl.
    split; [reflexivity|]. split; [reflexivity|].
    apply not_blank_nonempty, Hb.
Qed.

Lemma not_blank_from_trim (s : string) :
  App.not_ (App.trim s) = false -> ~ blank s.
Proof. intros H Hb. apply trim_empty_iff in Hb. congruence. Qed.

Lemma client_send_payload_witness :
  App.inputMessage (fst (App.handleSend (sample_app " hi "))) = "" /\
  snd (App.handleSend (sample_app " hi ")) =
    [App.SocketEmit "message"
       (JObject [("code", JString "BGLRV2"); ("nickname", JString "Alice");
                 ("content", JString " hi ")])] /\
  (1 <= String.length " hi ")%nat.
Proof.
  apply (proj2 (client_send_payload (sample_app " hi "))).
  - apply not_blank_from_trim. vm_compute. reflexivity.
  - discriminate.
Defined.

(** X25. What the client sends, the server turns down only for its length:
    the payload [handleSend] emits always has three string fields and
    non-empty content, so it passes the server's schema exactly when the
    typed text has at most 400 characters.  Longer text is lost: the input
    field is already cleared, the server stores and broadcasts nothing and
    acknowledges with [{ error: 'Invalid payload' }], which the client shows
    as the alert "Message failed". *)
Theorem client_send_meets_server (a : App.State) (w : World) (s : string) :
  ~ blank (App.inputMessage a) -> App.socketRef a <> None ->
  exists p : Json,
    snd (App.handleSend a) = [App.SocketEmit "message" p] /\
    (is_Some (messageSchema p) <->
     (String.length (App.inputMessage a) <= 400)%nat) /\
    (forall d : MessageInput,
       messageSchema p = Some d ->
       mi_code d = App.lobbyCode a /\ mi_nickname d = App.nickname a /\
       mi_content d = App.inputMessage a) /\
    ((400 < String.length (App.inputMessage a))%nat ->
     App.inputMessage (fst (App.handleSend a)) = "" /\
     fst (on_message s p true w) = Normal tt /\
     same_state w (snd (on_message s p true w)) /\
     trace (snd (on_message s p true w)) =
       trace w ++ [Ack s (Some "Invalid payload")] /\
     App.handleSend_ack (Some "Invalid payload") =
       [App.Alert "Message failed" "Invalid payload"]).
Proof.
  intros Hb Hs. rewrite (handleSend_sends a Hb Hs). simpl.
  pose proof (not_blank_nonempty _ Hb) as Hlen.
  eexists. split; [reflexivity|].
  set (o := [("code", JString (App.lobbyCode a));
             ("nickname", JString (App.nickname a));
             ("content", JString (App.inputMessage a))]).
  assert (Hcases :
    ((String.length (App.inputMessage a) <= 400)%nat /\
     messageSchema (JObject o) =
       Some {| mi_code := App.lobbyCode a; mi_nickname := App.nickname a;
               mi_content := App.inputMessage a |}) \/
    ((400 < String.length (App.inputMessage a))%nat /\
     messageSchema (JObject o) = None)).
  { destruct (le_lt_dec (String.length (App.inputMessage a)) 400) as [H|H].
    - left. split; [exact H|]. apply messageSchema_well_formed.
      unfold well_formed_send. simpl. auto.
    - right. split; [exact H|].
      assert (Hc : prop o "content" = JString (App.inputMessage a))
        by reflexivity.
      unfold messageSchema. rewrite Hc, string_min_max_out by lia.
      destruct (z.string (prop o "code")), (z.string (prop o "nickname"));
        reflexivity. }
  split; [|split].
  - destruct Hcases as [[H ->]|[H ->]].
    + split; [auto|eauto].
    + split; [intros [x Hx]; discriminate|lia].
  - intros d Hd. destruct Hcases as [[_ H]|[_ H]]; rewrite H in Hd.
    + injection Hd as <-. auto.
    + discriminate.
  - intros Hlong. destruct Hcases as [[H _]|[_ Hnone]]; [lia|].
    split; [reflexivity|].
    unfold on_message. rewrite Hnone.
    destruct (callback_opt_spec true s (Some "Invalid payload") w)
      as (Hf & Hsame & Htr).
    auto.
Qed.

Lemma client_send_meets_server_witness :
  exists p : Json,
    snd (App.handleSend (sample_app "hello")) = [App.SocketEmit "message" p] /\
    (is_Some (messageSchema p) <->
     (String.length (App.inputMessage (sample_app "hello")) <= 400)%nat) /\
    (forall d : MessageInput,
       messageSchema p = Some d ->
       mi_code d = App.lobbyCode (sample_app "hello") /\
       mi_nickname d = App.nickname (sample_app "hello") /\
       mi_content d = App.inputMessage (sample_app "hello")) /\
    ((400 < String.length (App.inputMessage (sample_app "hello")))%nat ->
     App.inputMessage (fst (App.handleSend (sample_app "hello"))) = "" /\
     fst (on_message "s1" p true (sample_joined false None)) = Normal tt /\
     same_state (sample_joined false None)
       (snd (on_message "s1" p true (sample_joined false None))) /\
     trace (snd (on_message "s1" p true (sample_joined false None))) =
       trace (sample_joined false None) ++
       [Ack "s1" (Some "Invalid payload")] /\
     App.handleSend_ack (Some "Invalid payload") =
       [App.Alert "Message failed" "Invalid payload"]).
Proof.
  apply (client_send_meets_server (sample_app "hello")
           (sample_joined false None) "s1").
  - apply not_blank_from_trim. vm_compute. reflexivity.
  - discriminate.
Defined.

(** X26. The create request and the server's schema: with a blank nickname
    [handleCreate] only shows the validation alert and sends nothing;
    otherwise it posts a body holding the nickname as typed and the key
    only when one was typed, and the server's schema accepts that body
    exactly when the nickname has at most 32 characters and the key at most
    200, reading back the same nickname and key; a body that is not
    accepted is answered with 400 and changes nothing on the server. *)
Theorem client_create_request (a : App.State) :
  (blank (App.nickname a) ->
   App.handleCreate_request a =
     [App.Alert "Validation" "Nickname is required"]) /\
  (~ blank (App.nickname a) ->
   App.handleCreate_request a =
     [App.Fetch "POST" (String.append (App.serverUrl a) "/lobby")
        (Some (App.create_body a))] /\
   ((String.length (App.nickname a) <= 32)%nat /\
    (String.length (App.apiKey a) <= 200)%nat ->
    createLobbySchema (App.create_body a) =
      Some {| cl_nickname := App.nickname a;
              cl_openaiApiKey :=
                if String.eqb (App.apiKey a) "" then None
                else Some (App.apiKey a) |}) /\
   ((32 < String.length (App.nickname a))%nat \/
    (200 < String.length (App.apiKey a))%nat ->
    forall w : World,
      post_lobby (App.create_body a) w =
        (Normal {| status := 400; body := ErrorBody "Invalid payload" |}, w))).
Proof.
  unfold App.handleCreate_request. split.
  - intros Hb. apply trim_empty_iff in Hb. rewrite Hb. reflexivity.
  - intros Hb. rewrite (trim_not_empty _ Hb). split; [reflexivity|].
    pose proof (not_blank_nonempty _ Hb) as Hlen. unfold App.create_body.
    split.
    + intros [Hn Hk]. destruct (String.eqb (App.apiKey a) "") eqn:E.
      * apply (createLobbySchema_well_formed _ (App.nickname a) None).
        unfold well_formed_create. simpl. auto.
      * apply (createLobbySchema_well_formed _ (App.nickname a)
                 (Some (App.apiKey a))).
        unfold well_formed_create. simpl. repeat split; auto.
        destruct (App.apiKey a); [discriminate|simpl; lia].
    + intros Hlong w. unfold post_lobby.
      rewrite createLobbySchema_malformed; [reflexivity|].
      unfold malformed_create.
      destruct Hlong as [Hn|Hk].
      * left. simpl. intros n [= <-]. lia.
      * right. destruct (String.eqb (App.apiKey a) "") eqn:E.
        -- apply String.eqb_eq in E. rewrite E in Hk. simpl in Hk. lia.
        -- simpl. split; [discriminate|]. intros k [= <-]. lia.
Qed.

Lemma client_create_request_witness :
  App.handleCreate_request (sample_app "") =
    [App.Fetch "POST" (String.append (App.serverUrl (sample_app "")) "/lobby")
       (Some (App.create_body (sample_app "")))] /\
  ((String.length (App.nickname (sample_app "")) <= 32)%nat /\
   (String.length (App.apiKey (sample_app "")) <= 200)%nat ->
   createLobbySchema (App.create_body (sample_app "")) =
     Some {| cl_nickname := App.nickname (sample_app "");
             cl_openaiApiKey :=
               if String.eqb (App.apiKey (sample_app "")) "" then None
               else Some (App.apiKey (sample_app "")) |}) /\
  ((32 < String.length (App.nickname (sample_app "")))%nat \/
   (200 < String.length (App.apiKey (sample_app "")))%nat ->
   forall w : World,
     post_lobby (App.create_body (sample_app "")) w =
       (Normal {| status := 400; body := ErrorBody "Invalid payload" |}, w)).
Proof.
  apply (proj2 (client_create_request (sample_app ""))).
  apply not_blank_from_trim. vm_compute. reflexivity.
Defined.

(** X27. The join request and the server's schema: when the nickname or the
    lobby code is blank [handleJoin] only shows the validation alert;
    otherwise it posts the nickname and the code as typed, untrimmed, and
    the server's schema accepts that body exactly when the nickname has at
    most 32 characters and the code 4 to 10; the pre-check then answers 404
    "Lobby not found" unless exactly that typed string is a registered
    code, and a body that is not accepted is answered with 400. *)
Theorem client_join_request (a : App.State) :
  (blank (App.nickname a) \/ blank (App.lobbyCode a) ->
   App.handleJoin_request a =
     [App.Alert "Validation" "Nickname and lobby code are required"]) /\
  (~ blank (App.nickname a) -> ~ blank (App.lobbyCode a) ->
   App.handleJoin_request a =
     [App.Fetch "POST" (String.append (App.serverUrl a) "/lobby/join")
        (Some (App.join_body a))] /\
   forall w : World,
     post_lobby_join (App.join_body a) w =
       (Normal
          (if ((String.length (App.nickname a) <=? 32)%nat &&
               (4 <=? String.length (App.lobbyCode a))%nat &&
               (String.length (App.lobbyCode a) <=? 10)%nat)%bool
           then match lobbies w !! App.lobbyCode a with
                | Some _ => {| status := 200; body := OkBody |}
                | None =>
                    {| status := 404; body := ErrorBody "Lobby not found" |}
                end
           else {| status := 400; body := ErrorBody "Invalid payload" |}),
        w)).
Proof.
  unfold App.handleJoin_request. split.
  - intros [Hb|Hb]; apply trim_empty_iff in Hb; rewrite Hb;
      rewrite ?orb_true_r; reflexivity.
  - intros Hn Hc. rewrite (trim_not_empty _ Hn), (trim_not_empty _ Hc).
    split; [reflexivity|]. intros w.
    pose proof (not_blank_nonempty _ Hn) as Hnlen.
    unfold post_lobby_join, App.join_body.
    destruct (le_lt_dec (String.length (App.nickname a)) 32) as [E1|E1];
      destruct (le_lt_dec 4 (String.length (App.lobbyCode a))) as [E2|E2];
      destruct (le_lt_dec (String.length (App.lobbyCode a)) 10) as [E3|E3];
      rewrite ?(proj2 (Nat.leb_le _ _) E1), ?(proj2 (Nat.leb_le _ _) E2),
        ?(proj2 (Nat.leb_le _ _) E3), ?(proj2 (Nat.leb_gt _ _) E1),
        ?(proj2 (Nat.leb_gt _ _) E2), ?(proj2 (Nat.leb_gt _ _) E3);
      simpl andb; cbv iota.
    1: { rewrite (joinLobbySchema_well_formed _ (App.lobbyCode a)
                    (App.nickname a))
           by (unfold well_formed_join; repeat split;
               first [reflexivity | lia]).
         cbn [jl_code]. unfold bind.
         destruct (lobbies w !! App.lobbyCode a) as [l|] eqn:Hl.
         - rewrite lobbies_has_true by (rewrite Hl; eauto). reflexivity.
         - rewrite (lobbies_has_false w _ Hl). reflexivity. }
    all: assert (Hnone : joinLobbySchema
                           (JObject [("nickname", JString (App.nickname a));
                                     ("code", JString (App.lobbyCode a))])
                         = None);
      [|rewrite Hnone; reflexivity].
    all: unfold joinLobbySchema;
      change (prop [("nickname", JString (App.nickname a));
                    ("code", JString (App.lobbyCode a))] "code")
        with (JString (App.lobbyCode a));
      change (prop [("nickname", JString (App.nickname a));
                    ("code", JString (App.lobbyCode a))] "nickname")
        with (JString (App.nickname a)).
    all: try (rewrite (string_min_max_out 4 10) by lia; reflexivity).
    all: rewrite (string_min_max_in 4 10) by lia;
      rewrite (string_min_max_out 1 32) by lia; reflexivity.
Qed.

Lemma client_join_request_witness :
  App.handleJoin_request (sample_app "") =
    [App.Fetch "POST"
       (String.append (App.serverUrl (sample_app "")) "/lobby/join")
       (Some (App.join_body (sample_app "")))] /\
  forall w : World,
    post_lobby_join (App.join_body (sample_app "")) w =
      (Normal
         (if ((String.length (App.nickname (sample_app "")) <=? 32)%nat &&
              (4 <=? String.length (App.lobbyCode (sample_app "")))%nat &&
              (String.length (App.lobbyCode (sample_app "")) <=? 10)%nat)%bool
          then match lobbies w !! App.lobbyCode (sample_app "") with
               | Some _ => {| status := 200; body := OkBody |}
               | None =>
                   {| status := 404; body := ErrorBody "Lobby not found" |}
               end
          else {| status := 400; body := ErrorBody "Invalid payload" |}),
       w).
Proof.
  apply (proj2 (client_join_request (sample_app ""))).
  - apply not_blank_from_trim. vm_compute. reflexivity.
  - apply not_blank_from_trim. vm_compute. reflexivity.
Defined.
